(** * Turn resolution engine: dice ledger, status ledger, combat resolver,
      protocol router and turn pipeline.

    A shallow embedding of [backend/rules/core.py], [backend/rules/statuses.py],
    [backend/rules/combat.py], [backend/gm_os/protocols.py],
    [backend/gm_os/router.py] and the control flow of [backend/rules/turn.py],
    then the vocabulary in which the properties are stated, then the
    properties.

    Conventions.
    - Python integers are unbounded: they are [Z].
    - A Python string is a [string] whose characters are its code points,
      all below 256; [str.strip], [str.lower], [int] and the classes of the
      regular expressions are the Unicode ones on these code points.
    - A function that mutates its [SessionState] argument and may raise is a
      computation [Sess A]: it returns the outcome (a value or the exception)
      together with the session as the call leaves it.
    - A Python [dict] with string keys is an association list in insertion
      order ([Dict.t]), the order in which [items()] visits it.
    - [random.Random] belongs to the Python library, not to the repository:
      the engine is written against the interface [PRNG], and [CPython.rng]
      is the generator the interpreter really provides (MT19937). *)

From Stdlib Require Import ZArith List String Ascii Bool Lia DecimalString DecimalPos.
From stdpp Require Import base tactics option list gmap.
Import ListNotations.

Local Open Scope Z_scope.

(* ===================================================================== *)
(** * Text: characters, whitespace, decimal numbers                       *)
(* ===================================================================== *)

Module Text.

Definition code (c : ascii) : Z := Z.of_N (N_of_ascii c).

(** [str.isspace] and the class of blanks of a regular expression: TAB..CR,
    FS..US, the blank, NEL and the no-break space. *)
Definition is_space (c : ascii) : bool :=
  ((9 <=? code c) && (code c <=? 13)) || ((28 <=? code c) && (code c <=? 32))
  || (code c =? 133) || (code c =? 160).

(** The class of digits of a regular expression. *)
Definition is_digit (c : ascii) : bool :=
  (48 <=? code c) && (code c <=? 57).

Definition digit_value (c : ascii) : Z := code c - 48.

(** [int(text)] for a run of decimal digits. *)
Definition int_of_digits (ds : list ascii) : Z :=
  fold_left (fun acc c => 10 * acc + digit_value c) ds 0.

Fixpoint take_while (p : ascii -> bool) (l : list ascii) : list ascii :=
  match l with
  | c :: l' => if p c then c :: take_while p l' else []
  | [] => []
  end.

Fixpoint drop_while (p : ascii -> bool) (l : list ascii) : list ascii :=
  match l with
  | c :: l' => if p c then drop_while p l' else l
  | [] => []
  end.

Definition all_chars (p : ascii -> bool) (l : list ascii) : bool := forallb p l.

Definition chars (s : string) : list ascii := list_ascii_of_string s.
Definition text (l : list ascii) : string := string_of_list_ascii l.

(** [str.strip()]. *)
Definition strip_chars (l : list ascii) : list ascii :=
  rev (drop_while is_space (rev (drop_while is_space l))).

Definition strip (s : string) : string := text (strip_chars (chars s)).

(** [str.lower()]: the letters A..Z and the accented capitals 192..222
    (215, the multiplication sign, apart) move up by 32. *)
Definition lower_char (c : ascii) : ascii :=
  if ((65 <=? code c) && (code c <=? 90))
     || ((192 <=? code c) && (code c <=? 222) && negb (code c =? 215))
  then ascii_of_N (N_of_ascii c + 32) else c.

Definition lower (s : string) : string := text (map lower_char (chars s)).

(** The blanks that [int] skips: TAB..CR, the blank, NEL and the no-break
    space, but not FS..US, which [str.isspace] and the regular expressions
    do count as blanks. *)
Definition is_int_space (c : ascii) : bool :=
  ((9 <=? code c) && (code c <=? 13)) || (code c =? 32)
  || (code c =? 133) || (code c =? 160).

(** A character of the body of a decimal literal: a digit or an underscore. *)
Definition is_literal_char (c : ascii) : bool := is_digit c || Ascii.eqb c "_".

(** The body of a decimal literal is well formed: it ends with a digit and
    each underscore follows a digit ([after_digit] tells whether the
    character before is a digit). *)
Fixpoint well_grouped (after_digit : bool) (body : list ascii) : bool :=
  match body with
  | [] => after_digit
  | c :: body' =>
      if is_digit c then well_grouped true body'
      else after_digit && well_grouped false body'
  end.

(** [sys.get_int_max_str_digits()] as the interpreter starts: the most
    digits that [int] reads from a string. *)
Definition MAX_STR_DIGITS : Z := 4300.

Definition within_limit (ds : list ascii) : bool :=
  Z.of_nat (length ds) <=? MAX_STR_DIGITS.

(** The text that [int] reads after the blanks it skips: whether a minus
    sign leads, and what follows the sign. *)
Definition signed_body (l : list ascii) : bool * list ascii :=
  match drop_while is_int_space l with
  | c :: r =>
      if Ascii.eqb c "-" then (true, r)
      else if Ascii.eqb c "+" then (false, r)
      else (false, c :: r)
  | [] => (false, [])
  end.

(** [int(text)]: blanks, an optional sign, decimal digits with single
    underscores between them, blanks; None where [int] raises [ValueError],
    which it also does when there are more than [MAX_STR_DIGITS] digits. *)
Definition py_int (l : list ascii) : option Z :=
  let '(negative, l2) := signed_body l in
  let body := take_while is_literal_char l2 in
  let digits := List.filter is_digit body in
  if well_grouped false body
     && within_limit digits
     && forallb is_int_space (drop_while is_literal_char l2)
  then let n := int_of_digits digits in
       Some (if negative then - n else n)
  else None.

Fixpoint starts_with (prefix l : list ascii) : bool :=
  match prefix, l with
  | [], _ => true
  | p :: prefix', c :: l' => Ascii.eqb p c && starts_with prefix' l'
  | _ :: _, [] => false
  end.

Fixpoint contains_chars (needle l : list ascii) : bool :=
  starts_with needle l ||
  match l with
  | [] => false
  | _ :: l' => contains_chars needle l'
  end.

(** [needle in s] *)
Definition contains (needle s : string) : bool :=
  contains_chars (list_ascii_of_string needle) (list_ascii_of_string s).

Definition is_empty (l : list ascii) : bool :=
  match l with [] => true | _ => false end.

(** [str(n)] for an integer. *)
Definition str_of_Z (n : Z) : string := NilZero.string_of_int (Z.to_int n).

(** [str.isprintable] of one character: the controls 0..31 and 127..159,
    the no-break space and the soft hyphen are not printable. *)
Definition is_printable (c : ascii) : bool :=
  ((32 <=? code c) && (code c <? 127))
  || ((161 <=? code c) && negb (code c =? 173)).

Definition hex_digit (n : Z) : ascii :=
  nth (Z.to_nat n) (chars "0123456789abcdef") "0"%char.

Definition quote : ascii := ascii_of_nat 39.
Definition double_quote : ascii := ascii_of_nat 34.
Definition backslash : ascii := ascii_of_nat 92.

(** One character of [repr(text)] between the quotes [q]. *)
Definition repr_char (q c : ascii) : list ascii :=
  if Ascii.eqb c q || Ascii.eqb c backslash then [backslash; c]
  else if code c =? 9 then [backslash; "t"%char]
  else if code c =? 10 then [backslash; "n"%char]
  else if code c =? 13 then [backslash; "r"%char]
  else if is_printable c then [c]
  else [backslash; "x"%char; hex_digit (code c / 16); hex_digit (code c mod 16)].

(** [repr(text)]: between single quotes, or between double quotes when the
    text holds a single quote and no double quote. *)
Definition repr (l : list ascii) : list ascii :=
  let q := if existsb (Ascii.eqb quote) l && negb (existsb (Ascii.eqb double_quote) l)
           then double_quote else quote in
  q :: flat_map (repr_char q) l ++ [q].

End Text.

(* ===================================================================== *)
(** * The random generator                                                *)
(* ===================================================================== *)

(** What the engine uses of [random.Random]: construction from a seed,
    [random()] (a float in [0,1), given here by its 53-bit numerator) and
    [randint(a, b)]. *)
Class PRNG := {
  generator : Type;
  seeded : Z -> generator;
  next_random : generator -> Z * generator;
  next_randint : Z -> Z -> generator -> Z * generator
}.

(** The documented contract of [randint]: a <= N <= b. *)
Definition randint_in_range (R : PRNG) : Prop :=
  forall a b s, a <= b -> a <= fst (next_randint a b s) <= b.

(** A generator for which [randint] costs exactly one [random()] draw. *)
Definition one_draw_per_randint (R : PRNG) : Prop :=
  forall a b s, snd (next_randint a b s) = snd (next_random s).

(** ** CPython's generator: MT19937 as in [_randommodule.c] and [random.py] *)

Module CPython.

Definition N : nat := 624.
Definition M : nat := 397.
Definition MATRIX_A : Z := 0x9908b0df.
Definition UPPER_MASK : Z := 0x80000000.
Definition LOWER_MASK : Z := 0x7fffffff.

(** Arithmetic on [uint32_t]. *)
Definition u32 (x : Z) : Z := Z.land x 0xffffffff.

Record state := { mt : list Z; mti : nat }.

Definition get (l : list Z) (i : nat) : Z := nth i l 0.
Definition set (l : list Z) (i : nat) (x : Z) : list Z := <[i:=x]> l.

(** [init_genrand(s)]: mt[0] = s; mt[i] = 1812433253 * (mt[i-1] ^ (mt[i-1] >> 30)) + i. *)
Fixpoint init_genrand_from (n : nat) (i : Z) (prev : Z) : list Z :=
  match n with
  | O => []
  | S n' =>
      let x := u32 (1812433253 * Z.lxor prev (Z.shiftr prev 30) + i) in
      x :: init_genrand_from n' (i + 1) x
  end.

Definition init_genrand (s : Z) : list Z :=
  u32 s :: init_genrand_from (N - 1) 1 (u32 s).

(** First loop of [init_by_array]: k steps over the indices i (state) and j (key). *)
Fixpoint init_key_loop (k : nat) (key : list Z) (i j : nat) (m : list Z) : nat * list Z :=
  match k with
  | O => (i, m)
  | S k' =>
      let p := get m (i - 1) in
      let x := u32 (Z.lxor (get m i) (Z.lxor p (Z.shiftr p 30) * 1664525)
                    + get key j + Z.of_nat j) in
      let m := set m i x in
      let i := S i in
      let j := S j in
      let '(i, m) := if (N <=? i)%nat then (1%nat, set m 0 (get m (N - 1))) else (i, m) in
      let j := if (length key <=? j)%nat then 0%nat else j in
      init_key_loop k' key i j m
  end.

(** Second loop of [init_by_array]. *)
Fixpoint init_mix_loop (k : nat) (i : nat) (m : list Z) : list Z :=
  match k with
  | O => m
  | S k' =>
      let p := get m (i - 1) in
      let x := u32 (Z.lxor (get m i) (Z.lxor p (Z.shiftr p 30) * 1566083941)
                    - Z.of_nat i) in
      let m := set m i x in
      let i := S i in
      let '(i, m) := if (N <=? i)%nat then (1%nat, set m 0 (get m (N - 1))) else (i, m) in
      init_mix_loop k' i m
  end.

Definition init_by_array (key : list Z) : state :=
  let m := init_genrand 19650218 in
  let '(i, m) := init_key_loop (Nat.max N (length key)) key 1 0 m in
  let m := init_mix_loop (N - 1) i m in
  {| mt := set m 0 0x80000000; mti := N |}.

(** The 32-bit digits of |seed|, least significant first; one digit for 0. *)
Fixpoint key_digits (fuel : nat) (n : Z) : list Z :=
  match fuel with
  | O => []
  | S fuel' =>
      if n <? 0x100000000 then [n]
      else u32 n :: key_digits fuel' (Z.shiftr n 32)
  end.

Definition seed_key (seed : Z) : list Z :=
  let n := Z.abs seed in key_digits (S (Z.to_nat (Z.log2 n))) n.

Definition seed (s : Z) : state := init_by_array (seed_key s).

Definition twist_word (cur next far : Z) : Z :=
  let y := Z.lor (Z.land cur UPPER_MASK) (Z.land next LOWER_MASK) in
  Z.lxor (Z.lxor far (Z.shiftr y 1)) (if Z.testbit y 0 then MATRIX_A else 0).

(** The regeneration of the N words, for kk = from .. from + n - 1. *)
Fixpoint twist_loop (n : nat) (kk : nat) (m : list Z) : list Z :=
  match n with
  | O => m
  | S n' =>
      let far := if (kk <? N - M)%nat then get m (kk + M) else get m (kk + M - N) in
      let next := if (kk <? N - 1)%nat then get m (kk + 1) else get m 0 in
      twist_loop n' (S kk) (set m kk (twist_word (get m kk) next far))
  end.

Definition temper (y : Z) : Z :=
  let y := Z.lxor y (Z.shiftr y 11) in
  let y := Z.lxor y (Z.land (Z.shiftl y 7) 0x9d2c5680) in
  let y := Z.lxor y (Z.land (Z.shiftl y 15) 0xefc60000) in
  Z.lxor y (Z.shiftr y 18).

Definition genrand_uint32 (s : state) : Z * state :=
  let s := if (N <=? mti s)%nat
           then {| mt := twist_loop N 0 (mt s); mti := 0 |} else s in
  (u32 (temper (get (mt s) (mti s))), {| mt := mt s; mti := S (mti s) |}).

(** [random()]: (a >> 5, b >> 6), value (a * 2^26 + b) / 2^53. *)
Definition random (s : state) : Z * state :=
  let '(a, s) := genrand_uint32 s in
  let '(b, s) := genrand_uint32 s in
  (Z.shiftr a 5 * 67108864 + Z.shiftr b 6, s).

(** [getrandbits(k)] for k > 0: one word when k <= 32, else little-endian words. *)
Fixpoint getrandbits_words (words : nat) (k : Z) (s : state) : Z * state :=
  match words with
  | O => (0, s)
  | S w =>
      let '(r, s) := genrand_uint32 s in
      let r := if k <? 32 then Z.shiftr r (32 - k) else r in
      let '(hi, s) := getrandbits_words w (k - 32) s in
      (r + Z.shiftl hi 32, s)
  end.

Definition getrandbits (k : Z) (s : state) : Z * state :=
  if k <=? 32 then
    let '(r, s) := genrand_uint32 s in (Z.shiftr r (32 - k), s)
  else getrandbits_words (Z.to_nat ((k - 1) / 32 + 1)) k s.

Definition bit_length (n : Z) : Z := if n =? 0 then 0 else Z.log2 (Z.abs n) + 1.

(** [_randbelow_with_getrandbits(n)]: draw k = n.bit_length() bits until the
    value is below n.  Each draw is rejected with probability below 1/2; the
    interpreter's loop is unbounded, the model stops after [fuel] rejected
    draws and then answers 0. *)
Fixpoint randbelow_loop (fuel : nat) (n k : Z) (s : state) : Z * state :=
  let '(r, s) := getrandbits k s in
  if r <? n then (r, s)
  else match fuel with
       | O => (0, s)
       | S fuel' => randbelow_loop fuel' n k s
       end.

Definition randbelow_fuel : nat := 4096.

Definition randbelow (n : Z) (s : state) : Z * state :=
  randbelow_loop randbelow_fuel n (bit_length n) s.

(** [randint(a, b)] = [randrange(a, b + 1)] = a + _randbelow(b + 1 - a); the
    interpreter raises [ValueError] on an empty range, which the engine never
    requests (it checks sides > 0 first). *)
Definition randint (a b : Z) (s : state) : Z * state :=
  if b + 1 - a <=? 0 then (a, s)
  else let '(r, s) := randbelow (b + 1 - a) s in (a + r, s).

#[export] Instance rng : PRNG := {|
  generator := state;
  seeded := seed;
  next_random := random;
  next_randint := randint
|}.

End CPython.


(* ===================================================================== *)
(** * Dice and roll ledger ([rules/core.py])                              *)
(* ===================================================================== *)

Inductive exn :=
| ValueError (msg : string)
| TurnError (msg : string).

(** [str(exc)]: the message of the exception. *)
Definition str_exn (e : exn) : string :=
  match e with
  | ValueError msg | TurnError msg => msg
  end.

(** What a call yields: a value, or the exception it raises. *)
Inductive res (A : Type) :=
| Ok (a : A)
| Raise (e : exn).
Arguments Ok {A} a.
Arguments Raise {A} e.

(** One entry of [SessionState.turn_log]. *)
Record RollEntry := {
  formula : string;
  result : Z;
  rolls : list Z;
  modifier : Z;
  label : option string
}.

Module Pattern.
Import Text.

Definition is_d (c : ascii) : bool := Ascii.eqb c "d" || Ascii.eqb c "D".
Definition is_sign (c : ascii) : bool := Ascii.eqb c "+" || Ascii.eqb c "-".

(** [INTEGER_PATTERN.match]: blanks, one or more digits, blanks, end. *)
Definition match_integer (s : string) : bool :=
  let l := drop_while is_space (chars s) in
  negb (is_empty (take_while is_digit l))
  && all_chars is_space (drop_while is_digit l).

(** [DICE_PATTERN.match(...).groups()]: blanks, a possibly empty run of
    digits (group 1), the letter d in either case, one or more digits
    (group 2), optionally a sign followed by one or more digits (group 3),
    blanks, end. *)
Definition match_dice (s : string)
  : option (list ascii * list ascii * option (list ascii)) :=
  let l := drop_while is_space (chars s) in
  let count_text := take_while is_digit l in
  match drop_while is_digit l with
  | c :: l1 =>
      if is_d c then
        let sides_text := take_while is_digit l1 in
        let l2 := drop_while is_digit l1 in
        if is_empty sides_text then None
        else match l2 with
             | sg :: l3 =>
                 if is_sign sg then
                   let digits := take_while is_digit l3 in
                   if is_empty digits then None
                   else if all_chars is_space (drop_while is_digit l3)
                        then Some (count_text, sides_text, Some (sg :: digits))
                        else None
                 else if all_chars is_space l2
                      then Some (count_text, sides_text, None)
                      else None
             | [] => Some (count_text, sides_text, None)
             end
      else None
  | [] => None
  end.

End Pattern.

Definition sum_Z (l : list Z) : Z := fold_right Z.add 0 l.

Section Session.
Context {R : PRNG}.

Record SessionState := {
  seed : Z;
  turn_log : list RollEntry;
  rng : generator
}.

(** [SessionState(seed=s)]: an empty log of its own and a generator of its
    own, built from the seed by [__post_init__]. *)
Definition new_session (s : Z) : SessionState :=
  {| seed := s; turn_log := []; rng := seeded s |}.

(** Computations on a session. *)
Definition Sess (A : Type) : Type := SessionState -> res A * SessionState.

Definition ret {A} (a : A) : Sess A := fun s => (Ok a, s).
Definition raise {A} (e : exn) : Sess A := fun s => (Raise e, s).
Definition bind {A B} (c : Sess A) (k : A -> Sess B) : Sess B :=
  fun s => match c s with
           | (Ok a, s') => k a s'
           | (Raise e, s') => (Raise e, s')
           end.

(** A pure call that may raise, made from a session computation. *)
Definition lift {A} (r : res A) : Sess A := fun s => (r, s).

Definition get_log : Sess (list RollEntry) := fun s => (Ok (turn_log s), s).

End Session.

Notation "'do' x <- c ; k" := (bind c (fun x => k))
  (at level 10, x name, c at level 100, k at level 200).
Notation "'do' ' p <- c ; k" := (bind c (fun x => match x with p => k end))
  (at level 10, p strict pattern, c at level 100, k at level 200).
Notation "'run' c ; k" := (bind c (fun _ => k))
  (at level 10, c at level 100, k at level 200).

Section Dice.
Context {R : PRNG}.

(** [session.rng.randint(a, b)] and [session.rng.random()]. *)
Definition randint (a b : Z) : Sess Z := fun s =>
  let '(r, g) := next_randint a b (rng s) in
  (Ok r, {| seed := seed s; turn_log := turn_log s; rng := g |}).

Definition random : Sess Z := fun s =>
  let '(r, g) := next_random (rng s) in
  (Ok r, {| seed := seed s; turn_log := turn_log s; rng := g |}).

Definition _log_roll (f : string) (res : Z) (rs : list Z) (m : Z)
    (lbl : option string) : Sess unit := fun s =>
  (Ok tt,
   {| seed := seed s;
      turn_log := turn_log s ++
        [{| formula := f; result := res; rolls := rs; modifier := m; label := lbl |}];
      rng := rng s |}).

Definition roll_d20 (lbl : option string) : Sess Z :=
  do r <- randint 1 20;
  run _log_roll "1d20" r [r] 0 lbl;
  ret r.

(** [[session.rng.randint(1, sides) for _ in range(count)]] *)
Fixpoint roll_dice (count : nat) (sides : Z) : Sess (list Z) :=
  match count with
  | O => ret []
  | S n =>
      do r <- randint 1 sides;
      do rs <- roll_dice n sides;
      ret (r :: rs)
  end.

Definition invalid_dice (dice_str : string) : exn :=
  ValueError ("Invalid dice string: " ++ dice_str).

(** The exceptions of [int] on text it rejects.  The message of an invalid
    literal quotes the text with [repr], cut after 200 characters. *)
Definition invalid_literal (t : list ascii) : exn :=
  ValueError ("invalid literal for int() with base 10: "
              ++ Text.text (firstn 200 (Text.repr t))).

Definition exceeds_limit (digits : nat) : exn :=
  ValueError ("Exceeds the limit (4300 digits) for integer string conversion: value has "
              ++ Text.str_of_Z (Z.of_nat digits)
              ++ " digits; use sys.set_int_max_str_digits() to increase the limit").

(** The digits are counted, and the limit is checked, as soon as the digits
    and underscores after the sign are well formed; what follows them is
    looked at afterwards. *)
Definition int_error (t : list ascii) : exn :=
  let body := Text.take_while Text.is_literal_char (snd (Text.signed_body t)) in
  let digits := List.filter Text.is_digit body in
  if Text.well_grouped false body && negb (Text.within_limit digits)
  then exceeds_limit (length digits)
  else invalid_literal t.

(** [int(t)] *)
Definition to_int (t : list ascii) : Sess Z :=
  match Text.py_int t with
  | Some n => ret n
  | None => raise (int_error t)
  end.

Definition roll (dice_str : string) (lbl : option string) : Sess Z :=
  if Pattern.match_integer dice_str then
    do res <- to_int (Text.chars dice_str);
    run _log_roll (Text.str_of_Z res) res [] 0 lbl;
    ret res
  else
    match Pattern.match_dice dice_str with
    | None => raise (invalid_dice dice_str)
    | Some (count_text, sides_text, modifier_text) =>
        do count <- (if Text.is_empty count_text then ret 1 else to_int count_text);
        do sides <- to_int sides_text;
        do modifier <- match modifier_text with
                       | Some t => to_int t
                       | None => ret 0
                       end;
        if (count <=? 0) || (sides <=? 0) then raise (invalid_dice dice_str)
        else
          do rs <- roll_dice (Z.to_nat count) sides;
          let total := sum_Z rs + modifier in
          run _log_roll (Text.strip dice_str) total rs modifier lbl;
          ret total
    end.

End Dice.


(* ===================================================================== *)
(** * Status ledger ([rules/statuses.py])                                 *)
(* ===================================================================== *)

(** A Python [dict] with string keys: keys are unique and keep their
    insertion order, which is the order [items()] visits them in. *)
Module Dict.
Section Dict.
Context {V : Type}.

Definition t : Type := list (string * V).

Fixpoint get (k : string) (d : t) : option V :=
  match d with
  | [] => None
  | (k', v) :: d' => if String.eqb k k' then Some v else get k d'
  end.

(** [d[k] = v]: in place when the key is present, at the end otherwise. *)
Fixpoint set (k : string) (v : V) (d : t) : t :=
  match d with
  | [] => [(k, v)]
  | (k', v') :: d' =>
      if String.eqb k k' then (k', v) :: d' else (k', v') :: set k v d'
  end.

(** [d.pop(k, None)] *)
Fixpoint pop (k : string) (d : t) : t :=
  match d with
  | [] => []
  | (k', v') :: d' => if String.eqb k k' then d' else (k', v') :: pop k d'
  end.

Definition keys (d : t) : list string := map fst d.

End Dict.
Arguments t V : clear implicits.
End Dict.

Definition STATUS_CANONICAL : Dict.t string :=
  [ ("bleeding", "Bleeding"); ("ignited", "Ignited"); ("stun", "Stun");
    ("asphyxiation", "Asphyxiation"); ("toxin", "Toxin");
    ("injured", "Injured"); ("concentration", "Concentration");
    ("hidden", "Hidden"); ("cold", "Cold"); ("disease", "Disease") ]%string.

Definition DEFAULT_DURATIONS : Dict.t (option Z) :=
  [ ("Bleeding", Some 3); ("Ignited", Some 3); ("Stun", Some 1);
    ("Asphyxiation", Some 2); ("Toxin", Some 3); ("Injured", Some 3);
    ("Concentration", None); ("Hidden", Some 1); ("Cold", Some 3);
    ("Disease", None) ]%string.

(** One active effect: the dict with keys "stacks", "level", "duration"
    that [apply_status] and [ramp_status] build. *)
Record StatusEntry := {
  stacks : Z;
  level : Z;
  duration : option Z
}.

Abbreviation Ledger := (Dict.t StatusEntry).

Definition normalize_status (name : string) : res string :=
  let key := Text.lower (Text.strip name) in
  match Dict.get key STATUS_CANONICAL with
  | Some canonical => Ok canonical
  | None => Raise (ValueError ("Unknown status: " ++ name))
  end.

(** [DEFAULT_DURATIONS.get(canonical)] *)
Definition default_duration (canonical : string) : option Z :=
  match Dict.get canonical DEFAULT_DURATIONS with
  | Some d => d
  | None => None
  end.

Definition apply_status (statuses : Ledger) (name : string)
    (stacks_ level_ : Z) (duration_ : option Z) : res Ledger :=
  match normalize_status name with
  | Raise e => Raise e
  | Ok canonical =>
      let entry := match Dict.get canonical statuses with
                   | Some e => e
                   | None => {| stacks := 0; level := 0; duration := None |}
                   end in
      let new_stacks := Z.max 1 (stacks entry + stacks_) in
      let new_level := Z.max (level entry) level_ in
      let given := match duration_ with
                   | None => default_duration canonical
                   | Some d => Some d
                   end in
      let new_duration :=
        match given with
        | Some d => match duration entry with
                    | None => Some d
                    | Some existing => Some (Z.max existing d)
                    end
        | None => duration entry
        end in
      Ok (Dict.set canonical
            {| stacks := new_stacks; level := new_level; duration := new_duration |}
            statuses)
  end.

(** The state of the loop of [tick_statuses]: the dict being updated, the
    HP delta and the expired names. *)
Definition TickState : Type := Ledger * Z * list string.

(** One iteration of the loop, on the item [(name, entry)] of the snapshot. *)
Definition tick_item (tick_key : string) (name : string) (entry : StatusEntry)
    (st : TickState) : res TickState :=
  let '(updated, hp_delta, expired) := st in
  match normalize_status name with
  | Raise e => Raise e
  | Ok canonical =>
      let is_turn := String.eqb tick_key "turn" in
      let '(entry, hp_delta) :=
        if String.eqb canonical "Bleeding" && is_turn then
          (entry, hp_delta - Z.max 1 (stacks entry) * Z.max 1 (level entry))
        else if String.eqb canonical "Ignited" && is_turn then
          (entry, hp_delta - 2 * Z.max 1 (level entry))
        else if String.eqb canonical "Asphyxiation" && is_turn then
          (entry, hp_delta - 2 * Z.max 1 (level entry))
        else if String.eqb canonical "Toxin" && is_turn then
          (entry, hp_delta - Z.max 1 (level entry))
        else if String.eqb canonical "Disease" && String.eqb tick_key "day" then
          let lvl := Z.max 1 (level entry) + 1 in
          ({| stacks := stacks entry; level := lvl; duration := duration entry |},
           hp_delta - lvl)
        else (entry, hp_delta) in
      match duration entry with
      | Some d =>
          if is_turn then
            if d - 1 <=? 0
            then Ok (Dict.pop canonical updated, hp_delta, expired ++ [canonical])
            else Ok (Dict.set canonical
                       {| stacks := stacks entry; level := level entry;
                          duration := Some (d - 1) |} updated,
                     hp_delta, expired)
          else Ok (Dict.set canonical entry updated, hp_delta, expired)
      | None => Ok (Dict.set canonical entry updated, hp_delta, expired)
      end
  end.

Fixpoint tick_loop (tick_key : string) (items : Ledger) (st : TickState)
  : res TickState :=
  match items with
  | [] => Ok st
  | (name, entry) :: rest =>
      match tick_item tick_key name entry st with
      | Raise e => Raise e
      | Ok st' => tick_loop tick_key rest st'
      end
  end.

Definition tick_statuses (statuses : Ledger) (tick_type : string)
  : res TickState :=
  tick_loop (Text.lower (Text.strip tick_type)) statuses (statuses, 0, []).

Definition total_dex_penalty (statuses : Ledger) : res Z :=
  fold_left (fun acc '(name, entry) =>
               match acc, normalize_status name with
               | Ok p, Ok canonical =>
                   if String.eqb canonical "Cold"
                   then Ok (p + Z.max 1 (level entry)) else Ok p
               | Raise e, _ => Raise e
               | _, Raise e => Raise e
               end) statuses (Ok 0).

(** [int(entry.get("duration") or 0)] *)
Definition duration_or_zero (entry : StatusEntry) : Z :=
  match duration entry with
  | Some d => d
  | None => 0
  end.

(** [x in {...}] on strings. *)
Definition one_of (x : string) (choices : list string) : bool :=
  existsb (String.eqb x) choices.

(** The branches of [ramp_status] on the entry of the status. *)
Definition ramp_entry (canonical trigger_key : string) (amount : Z)
    (entry : StatusEntry) : StatusEntry :=
  let levelled (floor : Z) :=
    {| stacks := stacks entry; level := level entry + amount;
       duration := Some (Z.max (duration_or_zero entry) floor) |} in
  if String.eqb canonical "Bleeding" && String.eqb trigger_key "move" then
    let new_stacks := stacks entry + amount in
    {| stacks := new_stacks; level := Z.max (level entry) new_stacks;
       duration := Some (Z.max (duration_or_zero entry) 3) |}
  else if String.eqb canonical "Ignited"
          && one_of trigger_key ["ignite"; "fuel"]%string then levelled 3
  else if String.eqb canonical "Cold"
          && one_of trigger_key ["cold"; "exposure"]%string then levelled 3
  else if String.eqb canonical "Disease" && String.eqb trigger_key "day" then
    {| stacks := stacks entry; level := level entry + amount;
       duration := duration entry |}
  else if String.eqb canonical "Asphyxiation" && String.eqb trigger_key "no_air"
  then levelled 2
  else if String.eqb canonical "Toxin"
          && one_of trigger_key ["exposed"; "dose"]%string then levelled 3
  else if String.eqb canonical "Injured"
          && one_of trigger_key ["worsen"; "hit"]%string then levelled 3
  else if one_of canonical ["Hidden"; "Concentration"; "Stun"]%string
          && String.eqb trigger_key "refresh" then
    match default_duration canonical with
    | Some d =>
        {| stacks := stacks entry; level := level entry;
           duration := Some (Z.max (duration_or_zero entry) d) |}
    | None => entry
    end
  else entry.

Definition ramp_status (statuses : Ledger) (name trigger : string) (amount : Z)
  : res Ledger :=
  match normalize_status name with
  | Raise e => Raise e
  | Ok canonical =>
      let entry := match Dict.get canonical statuses with
                   | Some e => e
                   | None => {| stacks := 1; level := 1; duration := None |}
                   end in
      let trigger_key := Text.lower (Text.strip trigger) in
      Ok (Dict.set canonical (ramp_entry canonical trigger_key amount entry) statuses)
  end.


(* ===================================================================== *)
(** * Combat resolver ([rules/combat.py])                                 *)
(* ===================================================================== *)

Definition CALLED_SHOT_PENALTY : Z := 5.
Definition DODGE_BONUS_DEFAULT : Z := 2.

Definition CALLED_SHOT_EFFECTS : list string :=
  ["disarm"; "slow"; "stun_attempt"]%string.

Module Weapon.
Record t := {
  name : string;
  damage : string;
  bonus : Z;
  tags : list string
}.
End Weapon.

Record CombatantState := {
  name : string;
  dex : Z;
  armor_rating : Z;
  ap : Z;
  hp : Z;
  statuses : Ledger;
  skill : Z;
  attr : Z;
  attack_bonus : Z;
  damage_bonus : Z;
  weapon : option Weapon.t;
  initiative_bonus : Z
}.

Module CounterResult.
Record t := {
  triggered : bool;
  hit : bool;
  attack_roll : Z;
  attack_total : Z;
  damage : Z;
  ap_before : Z;
  ap_after : Z;
  hp_before : Z;
  hp_after : Z
}.
End CounterResult.

Record AttackResult := {
  hit : bool;
  crit : bool;
  attack_roll : Z;
  attack_total : Z;
  target_ar : Z;
  damage : Z;
  ap_before : Z;
  ap_after : Z;
  hp_before : Z;
  hp_after : Z;
  called_shot_effect : option string;
  counter : option CounterResult.t
}.

(** A copy of the combatant with new "ap", "hp" and "statuses". *)
Definition with_ap_hp_statuses (c : CombatantState) (ap' hp' : Z) (st : Ledger)
  : CombatantState :=
  {| name := name c; dex := dex c; armor_rating := armor_rating c;
     ap := ap'; hp := hp'; statuses := st;
     skill := skill c; attr := attr c; attack_bonus := attack_bonus c;
     damage_bonus := damage_bonus c; weapon := weapon c;
     initiative_bonus := initiative_bonus c |}.

Definition reaction_is (reaction : option string) (r : string) : bool :=
  match reaction with
  | Some x => String.eqb x r
  | None => false
  end.

Definition _dodge_bonus (reaction : option string) (reaction_bonus : Z) : Z :=
  if negb (reaction_is reaction "dodge") then 0
  else if negb (reaction_bonus =? 0) then reaction_bonus
  else DODGE_BONUS_DEFAULT.

Definition _apply_damage (ap_ hp_ damage_ : Z) : Z * Z :=
  let remaining_ap := Z.max 0 (ap_ - damage_) in
  let damage_to_hp := Z.max 0 (damage_ - ap_) in
  let remaining_hp := Z.max 0 (hp_ - damage_to_hp) in
  (remaining_ap, remaining_hp).

Definition _apply_damage_with_block (base_ap hp_ damage_ block_ap : Z) : Z * Z :=
  let total_ap := base_ap + block_ap in
  let '(remaining_ap, remaining_hp) := _apply_damage total_ap hp_ damage_ in
  let remaining_base_ap := Z.min remaining_ap base_ap in
  (remaining_base_ap, remaining_hp).

Definition _apply_called_shot_effect (st : Ledger) (effect : option string)
  : res Ledger :=
  match effect with
  | Some e =>
      if String.eqb e "stun_attempt" then apply_status st "Stun" 1 1 (Some 1)
      else if String.eqb e "slow" then apply_status st "Cold" 1 1 (Some 1)
      else Ok st
  | None => Ok st
  end.

(** [override or roll_d20(session)]: an override of None or 0 is falsy. *)
Definition truthy (o : option Z) : option Z :=
  match o with
  | Some v => if v =? 0 then None else Some v
  | None => None
  end.

(** [sorted(rolled, key=lambda item: item[1], reverse=True)]: the stable
    sort into non-increasing initiative, entries of equal initiative keeping
    the order they were rolled in.  [sorted] belongs to the interpreter; a
    stable sort is determined by its order, and insertion from the right is
    one. *)
Fixpoint insert_by_initiative (x : CombatantState * Z)
    (l : list (CombatantState * Z)) : list (CombatantState * Z) :=
  match l with
  | [] => [x]
  | y :: l' =>
      if snd x <? snd y then y :: insert_by_initiative x l'
      else x :: y :: l'
  end.

Definition sorted_by_initiative (rolled : list (CombatantState * Z))
  : list (CombatantState * Z) :=
  fold_right insert_by_initiative [] rolled.

Section Combat.
Context {R : PRNG}.

Definition roll_initiative (combatant : CombatantState) (bonus_ : Z) : Sess Z :=
  do penalty <- lift (total_dex_penalty (statuses combatant));
  let effective_dex := dex combatant - penalty in
  do r <- roll_d20 None;
  ret (r + effective_dex + initiative_bonus combatant + bonus_).

Definition _roll_damage (dice_str : string) (bonus_ : Z) (crit_ : bool) : Sess Z :=
  do base_total <- roll dice_str None;
  do log <- get_log;
  let base_total :=
    match last log with
    | Some entry =>
        let dice_total := sum_Z (rolls entry) in
        dice_total * (if crit_ then 2 else 1) + modifier entry
    | None => base_total
    end in
  ret (base_total + bonus_).

Definition _resolve_counter (counter_roll_override : option Z)
    (attacker defender : CombatantState)
  : Sess (CounterResult.t * CombatantState) :=
  let counter_weapon :=
    match weapon defender with
    | Some w => w
    | None => {| Weapon.name := "Counter Strike"; Weapon.damage := "1d4";
                 Weapon.bonus := 0; Weapon.tags := [] |}
    end in
  do attack_roll_ <- match truthy counter_roll_override with
                     | Some v => ret v
                     | None => roll_d20 None
                     end;
  let attack_total_ :=
    attack_roll_ + skill defender + attr defender + attack_bonus defender in
  let hit_ := armor_rating attacker <=? attack_total_ in
  let ap_before_ := ap attacker in
  let hp_before_ := hp attacker in
  do '(damage_total, ap_after_, hp_after_) <-
    (if hit_ then
       do d <- _roll_damage (Weapon.damage counter_weapon)
                 (Weapon.bonus counter_weapon + damage_bonus defender)
                 (19 <=? attack_roll_);
       let '(a, h) := _apply_damage ap_before_ hp_before_ d in
       ret (d, a, h)
     else ret (0, ap_before_, hp_before_));
  let counter_result :=
    {| CounterResult.triggered := true;
       CounterResult.hit := hit_;
       CounterResult.attack_roll := attack_roll_;
       CounterResult.attack_total := attack_total_;
       CounterResult.damage := damage_total;
       CounterResult.ap_before := ap_before_;
       CounterResult.ap_after := ap_after_;
       CounterResult.hp_before := hp_before_;
       CounterResult.hp_after := hp_after_ |} in
  ret (counter_result,
       with_ap_hp_statuses attacker ap_after_ hp_after_ (statuses attacker)).

Definition resolve_attack (attacker defender : CombatantState)
    (called_shot : bool) (called_shot_effect_ : option string)
    (reaction : option string) (reaction_bonus reaction_ap : Z)
    (attack_roll_override counter_roll_override : option Z)
  : Sess (AttackResult * CombatantState * CombatantState) :=
  let called_shot_effect_ :=
    match called_shot, called_shot_effect_ with
    | true, None => Some "disarm"%string
    | _, e => e
    end in
  let known :=
    match called_shot_effect_ with
    | Some e => existsb (String.eqb e) CALLED_SHOT_EFFECTS
    | None => false
    end in
  if called_shot && negb known then raise (ValueError "Unknown called shot effect.")
  else
  let dodge_bonus := _dodge_bonus reaction reaction_bonus in
  let target_ar_ := armor_rating defender + dodge_bonus in
  do attack_roll_ <- match truthy attack_roll_override with
                     | Some v => ret v
                     | None => roll_d20 None
                     end;
  let crit_ := 19 <=? attack_roll_ in
  let attack_total_ :=
    attack_roll_ + skill attacker + attr attacker + attack_bonus attacker
    - (if called_shot then CALLED_SHOT_PENALTY else 0) in
  let hit_ := target_ar_ <=? attack_total_ in
  let base_ap := ap defender in
  let block_ap := if reaction_is reaction "block" then reaction_ap else 0 in
  let ap_before_ := base_ap + block_ap in
  let hp_before_ := hp defender in
  do '(damage_total, ap_after_, hp_after_, updated_statuses) <-
    (if hit_ then
       match weapon attacker with
       | None => raise (ValueError "Attacker has no weapon for damage roll.")
       | Some w =>
           do d <- _roll_damage (Weapon.damage w)
                     (Weapon.bonus w + damage_bonus attacker) crit_;
           let '(a, h) :=
             if negb (block_ap =? 0)
             then _apply_damage_with_block base_ap hp_before_ d block_ap
             else _apply_damage base_ap hp_before_ d in
           do st <- (if called_shot
                     then lift (_apply_called_shot_effect (statuses defender)
                                  called_shot_effect_)
                     else ret (statuses defender));
           ret (d, a, h, st)
       end
     else ret (0, base_ap, hp_before_, statuses defender));
  do '(counter_result, attacker') <-
    (if reaction_is reaction "counter" && negb hit_ then
       do '(c, a) <- _resolve_counter counter_roll_override attacker defender;
       ret (Some c, a)
     else ret (None, attacker));
  let result_ :=
    {| hit := hit_; crit := crit_; attack_roll := attack_roll_;
       attack_total := attack_total_; target_ar := target_ar_;
       damage := damage_total; ap_before := ap_before_; ap_after := ap_after_;
       hp_before := hp_before_; hp_after := hp_after_;
       called_shot_effect := if hit_ && called_shot then called_shot_effect_ else None;
       counter := counter_result |} in
  ret (result_, attacker',
       with_ap_hp_statuses defender ap_after_ hp_after_ updated_statuses).

(** The list comprehension of [initiative_order]: one initiative roll per
    combatant, in the order given. *)
Fixpoint roll_initiatives (combatants : list CombatantState)
  : Sess (list (CombatantState * Z)) :=
  match combatants with
  | [] => ret []
  | combatant :: rest =>
      do r <- roll_initiative combatant 0;
      do rolled <- roll_initiatives rest;
      ret ((combatant, r) :: rolled)
  end.

Definition initiative_order (combatants : list CombatantState)
  : Sess (list (CombatantState * Z)) :=
  do rolled <- roll_initiatives combatants;
  ret (sorted_by_initiative rolled).

Definition end_turn (combatant : CombatantState) (tick_type : string)
  : res (CombatantState * Z * list string) :=
  match tick_statuses (statuses combatant) tick_type with
  | Raise e => Raise e
  | Ok (updated_statuses, hp_delta, expired) =>
      let updated_hp := Z.max 0 (hp combatant + hp_delta) in
      Ok (with_ap_hp_statuses combatant (ap combatant) updated_hp updated_statuses,
          hp_delta, expired)
  end.

End Combat.

(* ===================================================================== *)
(** * Protocol registry and router ([gm_os/protocols.py], [gm_os/router.py]) *)
(* ===================================================================== *)

Inductive ProtocolId :=
| PROTO_CLARIFICATION
| PROTO_INVENTION
| PROTO_CATASTROPHIC
| PROTO_CONTENT_GAP
| PROTO_EXPLORATION
| PROTO_STAGNATION
| PROTO_WORLD_BOOTSTRAP
| PROTO_ARC_SEEDING
| PROTO_ROUTINE
| PROTO_RETCON_DISPUTE
| PROTO_RULE_EDGE_CASE
| PROTO_DOWNTIME
| PROTO_MEMORY_PROMOTION
| PROTO_MEMORY_RECALL.

Definition all_protocols : list ProtocolId :=
  [ PROTO_CLARIFICATION; PROTO_INVENTION; PROTO_CATASTROPHIC; PROTO_CONTENT_GAP;
    PROTO_EXPLORATION; PROTO_STAGNATION; PROTO_WORLD_BOOTSTRAP; PROTO_ARC_SEEDING;
    PROTO_ROUTINE; PROTO_RETCON_DISPUTE; PROTO_RULE_EDGE_CASE; PROTO_DOWNTIME;
    PROTO_MEMORY_PROMOTION; PROTO_MEMORY_RECALL ].

(** The [.value] of a member of the enumeration. *)
Definition protocol_value (p : ProtocolId) : string :=
  match p with
  | PROTO_CLARIFICATION => "PROTO_CLARIFICATION"
  | PROTO_INVENTION => "PROTO_INVENTION"
  | PROTO_CATASTROPHIC => "PROTO_CATASTROPHIC"
  | PROTO_CONTENT_GAP => "PROTO_CONTENT_GAP"
  | PROTO_EXPLORATION => "PROTO_EXPLORATION"
  | PROTO_STAGNATION => "PROTO_STAGNATION"
  | PROTO_WORLD_BOOTSTRAP => "PROTO_WORLD_BOOTSTRAP"
  | PROTO_ARC_SEEDING => "PROTO_ARC_SEEDING"
  | PROTO_ROUTINE => "PROTO_ROUTINE"
  | PROTO_RETCON_DISPUTE => "PROTO_RETCON_DISPUTE"
  | PROTO_RULE_EDGE_CASE => "PROTO_RULE_EDGE_CASE"
  | PROTO_DOWNTIME => "PROTO_DOWNTIME"
  | PROTO_MEMORY_PROMOTION => "PROTO_MEMORY_PROMOTION"
  | PROTO_MEMORY_RECALL => "PROTO_MEMORY_RECALL"
  end.

Definition protocol_eqb (p q : ProtocolId) : bool :=
  String.eqb (protocol_value p) (protocol_value q).

Inductive TimePolicy := freeze | advance.

Record ProtocolEntry := {
  time_policy : TimePolicy;
  risk_policy : string;
  allowed_tools : list string;
  required_context : list string
}.

Definition PROTOCOL_REGISTRY (p : ProtocolId) : ProtocolEntry :=
  match p with
  | PROTO_CLARIFICATION =>
      {| time_policy := freeze; risk_policy := "none"; allowed_tools := [];
         required_context := ["last_intent"; "scene_snapshot"]%string |}
  | PROTO_INVENTION =>
      {| time_policy := advance; risk_policy := "none";
         allowed_tools := ["npc_generator"; "location_generator"]%string;
         required_context := ["era"; "setting"]%string |}
  | PROTO_CATASTROPHIC =>
      {| time_policy := freeze; risk_policy := "confirm_catastrophic";
         allowed_tools := ["threat_assessor"]%string;
         required_context := ["stakes"; "party_state"]%string |}
  | PROTO_CONTENT_GAP =>
      {| time_policy := freeze; risk_policy := "none";
         allowed_tools := ["lore_lookup"]%string;
         required_context := ["requested_topic"; "campaign_memory"]%string |}
  | PROTO_EXPLORATION =>
      {| time_policy := advance; risk_policy := "none";
         allowed_tools := ["map_hint"; "sensory_prompt"]%string;
         required_context := ["location"; "scene_snapshot"]%string |}
  | PROTO_STAGNATION =>
      {| time_policy := advance; risk_policy := "none";
         allowed_tools := ["pace_boost"]%string;
         required_context := ["last_actions"; "scene_snapshot"]%string |}
  | PROTO_WORLD_BOOTSTRAP =>
      {| time_policy := freeze; risk_policy := "none";
         allowed_tools := ["world_seed"]%string;
         required_context := ["era"; "setting"; "player_prefs"]%string |}
  | PROTO_ARC_SEEDING =>
      {| time_policy := advance; risk_policy := "none";
         allowed_tools := ["plot_seed"]%string;
         required_context := ["session_setup"; "npcs"]%string |}
  | PROTO_ROUTINE =>
      {| time_policy := advance; risk_policy := "none"; allowed_tools := [];
         required_context := ["scene_snapshot"]%string |}
  | PROTO_RETCON_DISPUTE =>
      {| time_policy := freeze; risk_policy := "confirm_catastrophic";
         allowed_tools := ["log_review"]%string;
         required_context := ["turn_log"; "player_statement"]%string |}
  | PROTO_RULE_EDGE_CASE =>
      {| time_policy := freeze; risk_policy := "none";
         allowed_tools := ["rules_lookup"]%string;
         required_context := ["rule_context"; "character_state"]%string |}
  | PROTO_DOWNTIME =>
      {| time_policy := advance; risk_policy := "none";
         allowed_tools := ["downtime_generator"]%string;
         required_context := ["party_state"; "resources"]%string |}
  | PROTO_MEMORY_PROMOTION =>
      {| time_policy := freeze; risk_policy := "none";
         allowed_tools := ["memory_writer"]%string;
         required_context := ["session_summary"]%string |}
  | PROTO_MEMORY_RECALL =>
      {| time_policy := freeze; risk_policy := "none"; allowed_tools := [];
         required_context := ["turn_log"; "session_summary"]%string |}
  end.

(** JSON values: what the metadata, settings, outcome and state-diff
    dictionaries hold. *)
#[local] Unset Elimination Schemes.
Inductive JsonValue :=
| JNull
| JBool (b : bool)
| JStr (s : string)
| JNum (n : Z)
| JDict (d : list (string * JsonValue))
| JList (l : list JsonValue).
#[local] Set Elimination Schemes.

Inductive Mode := gm | ooc | dev.
Inductive Confidence := high | medium | low.

Module TurnEnvelope.
Record t := {
  mode : Mode;
  protocol_id : string;
  confidence : Confidence;
  ooc_questions : list string;
  (* [gm_plan]: None when absent; otherwise what [_find_project_step] finds in
     it, a step given by the questions [_project_questions] asks about it *)
  gm_plan : option (option (list string))
}.
End TurnEnvelope.

Record RoutedDecision := {
  protocol_id : ProtocolId;
  freeze_time : bool;
  execute : bool;
  reason : option string;
  dev_report : option (list (string * string));
  ooc_questions : option (list string)
}.

Definition SAFE_PROTOCOLS : list ProtocolId :=
  [ PROTO_CLARIFICATION; PROTO_ROUTINE; PROTO_EXPLORATION; PROTO_DOWNTIME;
    PROTO_CONTENT_GAP; PROTO_RULE_EDGE_CASE; PROTO_MEMORY_PROMOTION;
    PROTO_MEMORY_RECALL ].

Definition is_safe (p : ProtocolId) : bool := existsb (protocol_eqb p) SAFE_PROTOCOLS.

(** [ProtocolId(value)], None on [ValueError]. *)
Definition _resolve_protocol_id (value : string) : option ProtocolId :=
  find (fun p => String.eqb (protocol_value p) value) all_protocols.

Definition json_get (k : string) (d : list (string * JsonValue)) : option JsonValue :=
  Dict.get k d.

(** [d.get(k)] read as Python does: a missing key and a null both give None. *)
Definition json_get_or_none (k : string) (d : list (string * JsonValue)) : JsonValue :=
  match json_get k d with
  | Some v => v
  | None => JNull
  end.

Definition dev_flag_value (settings : list (string * JsonValue)) : bool :=
  let dev_flag :=
    match json_get_or_none "dev_mode_enabled" settings with
    | JNull => json_get_or_none "dev_mode" settings
    | v => v
    end in
  match dev_flag with
  | JBool b => b
  | JStr s => String.eqb (Text.lower s) "true"
  | _ => false
  end.

Definition _dev_mode_enabled (session_state : list (string * JsonValue)) : bool :=
  match json_get_or_none "settings" session_state with
  | JDict settings => dev_flag_value settings
  | _ => false
  end.

Definition route_envelope (envelope : TurnEnvelope.t)
    (session_state : option (list (string * JsonValue))) : RoutedDecision :=
  let session_state := match session_state with Some d => d | None => [] end in
  if match TurnEnvelope.mode envelope with ooc => true | _ => false end
     || negb (match TurnEnvelope.ooc_questions envelope with [] => true | _ => false end)
  then
    {| protocol_id := PROTO_CLARIFICATION; freeze_time := true; execute := false;
       reason := Some "ooc"%string; dev_report := None;
       ooc_questions := Some (TurnEnvelope.ooc_questions envelope) |}
  else
    match _resolve_protocol_id (TurnEnvelope.protocol_id envelope) with
    | None =>
        if _dev_mode_enabled session_state then
          {| protocol_id := PROTO_RULE_EDGE_CASE; freeze_time := true; execute := false;
             reason := Some "unknown_protocol"%string;
             dev_report := Some [("error", "Unknown protocol_id");
                                 ("protocol_id", TurnEnvelope.protocol_id envelope)]%string;
             ooc_questions := None |}
        else
          {| protocol_id := PROTO_CLARIFICATION; freeze_time := true; execute := false;
             reason := Some "unknown_protocol"%string; dev_report := None;
             ooc_questions :=
               Some ["Protocol not recognized. Can you restate your request?"%string] |}
    | Some pid =>
        if match TurnEnvelope.confidence envelope with low => true | _ => false end
           && negb (is_safe pid)
        then
          {| protocol_id := PROTO_CLARIFICATION; freeze_time := true; execute := false;
             reason := Some "low_confidence"%string; dev_report := None;
             ooc_questions :=
               Some ["I need a bit more detail to proceed safely. What should I focus on?"%string] |}
        else
          let entry := PROTOCOL_REGISTRY pid in
          {| protocol_id := pid;
             freeze_time := match time_policy entry with freeze => true | advance => false end;
             execute := true; reason := Some "ok"%string; dev_report := None;
             ooc_questions := None |}
    end.

(* ===================================================================== *)
(** * Turn pipeline ([rules/turn.py])                                     *)
(* ===================================================================== *)

(** The pipeline is modelled in its control flow and in the mechanical part
    of its results.  Narration text, suggested actions, the prompt context
    and the notes written to the session metadata are left out; what the
    language model, the project tooling and the stored session answer is
    given by the records [LlmClient], [Session] and [Character]. *)

Module Action.
Inductive t :=
| explore | scene_request | interact | attack | use_power | buy_item | move
| ask_gm | ask_clarifying_question | invalid | other.

Definition value (a : t) : string :=
  match a with
  | explore => "explore" | scene_request => "scene_request"
  | interact => "interact" | attack => "attack" | use_power => "use_power"
  | buy_item => "buy_item" | move => "move" | ask_gm => "ask_gm"
  | ask_clarifying_question => "ask_clarifying_question"
  | invalid => "invalid" | other => "other"
  end.
End Action.

Module Intent.
Record t := {
  action_type : Action.t;
  power_used : option string;
  item_used : option string;
  dialogue : option string;
  reason : option string;
  (* what [_resolve_target_label] reads off [targets] *)
  target_label : option string
}.

Definition make (a : Action.t) (reason_ dialogue_ : option string) : t :=
  {| action_type := a; power_used := None; item_used := None;
     dialogue := dialogue_; reason := reason_; target_label := None |}.
End Intent.

Module TurnIntent.
Record t := {
  action : string;
  target_ar : Z;
  weapon_damage : string;
  skill_bonus : Z;
  attr_bonus : Z;
  actions_required : Z;
  power_id : option string;
  item_used : option string;
  target_label : option string
}.

(** The dataclass defaults. *)
Definition make (action_ : string) (actions_required_ : Z) : t :=
  {| action := action_; target_ar := 10; weapon_damage := "1d6";
     skill_bonus := 0; attr_bonus := 0; actions_required := actions_required_;
     power_id := None; item_used := None; target_label := None |}.
End TurnIntent.

Module TurnResult.
Record t := {
  intent : string;
  rolls : list RollEntry;
  outcome : Dict.t JsonValue;
  state_diff : Dict.t JsonValue;
  needs_clarification : bool;
  clarification_question : option string;
  clarification_questions : list string;
  validation_errors : list string
}.
End TurnResult.

Record Session := {
  rng_seed : option Z;
  roll_index : Z;                        (* metadata "roll_index" *)
  era : string;                          (* metadata "era" *)
  has_scene_text : bool;                 (* [_has_scene_text] *)
  settings : JsonValue                   (* metadata "settings" *)
}.

Record Character := {
  character_id : JsonValue;              (* [getattr(character, "id", None)] *)
  resource_actions : option Z;           (* attributes "resources"."actions" *)
  resource_reactions : option Z;
  derived_hp : JsonValue;                (* attributes "derived"."hp" *)
  derived_ap : JsonValue;
  statuses_json : JsonValue
}.

Record LlmClient := {
  generate_turn_envelope : res TurnEnvelope.t;
  extract_intent : res Intent.t
}.

Definition json_opt_str (o : option string) : JsonValue :=
  match o with Some x => JStr x | None => JNull end.

(** [a or b] on optional strings: None and the empty string are falsy. *)
Definition str_or (a : option string) (b : option string) : option string :=
  match a with
  | Some x => if String.eqb x "" then b else a
  | None => b
  end.

Definition _intent_to_turn_intent (intent : Intent.t) : TurnIntent.t :=
  let target := Intent.target_label intent in
  match Intent.action_type intent with
  | Action.explore => TurnIntent.make "explore" 0
  | Action.scene_request => TurnIntent.make "scene_request" 0
  | Action.interact =>
      {| TurnIntent.action := "interact"; TurnIntent.target_ar := 10;
         TurnIntent.weapon_damage := "1d6"; TurnIntent.skill_bonus := 0;
         TurnIntent.attr_bonus := 0; TurnIntent.actions_required := 1;
         TurnIntent.power_id := None; TurnIntent.item_used := None;
         TurnIntent.target_label := target |}
  | Action.ask_gm => TurnIntent.make "ask_gm" 0
  | Action.use_power =>
      {| TurnIntent.action := "use_power"; TurnIntent.target_ar := 10;
         TurnIntent.weapon_damage := "1d6"; TurnIntent.skill_bonus := 0;
         TurnIntent.attr_bonus := 0; TurnIntent.actions_required := 1;
         TurnIntent.power_id := Intent.power_used intent;
         TurnIntent.item_used := None; TurnIntent.target_label := None |}
  | Action.attack =>
      {| TurnIntent.action := "attack"; TurnIntent.target_ar := 12;
         TurnIntent.weapon_damage := "1d6"; TurnIntent.skill_bonus := 0;
         TurnIntent.attr_bonus := 0; TurnIntent.actions_required := 1;
         TurnIntent.power_id := None; TurnIntent.item_used := None;
         TurnIntent.target_label := str_or target (Some "nearest_threat"%string) |}
  | Action.move => TurnIntent.make "move" 1
  | Action.buy_item =>
      {| TurnIntent.action := "buy_item"; TurnIntent.target_ar := 10;
         TurnIntent.weapon_damage := "1d6"; TurnIntent.skill_bonus := 0;
         TurnIntent.attr_bonus := 0; TurnIntent.actions_required := 1;
         TurnIntent.power_id := None;
         TurnIntent.item_used := Intent.item_used intent;
         TurnIntent.target_label := None |}
  | _ => TurnIntent.make "pass" 0
  end.

Definition _is_memory_recall_request (player_text : string) : bool :=
  let text := Text.lower (Text.strip player_text) in
  if String.eqb text "" then false
  else existsb (fun trigger => Text.contains trigger text)
         [ "what do i know"; "what do we know"; "what do i remember";
           "why am i here"; "didn't you say"; "did you say";
           "what did you say"; "what do you remember" ]%string.

Module Suggestion.
Record t := {
  label : string;
  action_type : string;
  payload : JsonValue
}.
End Suggestion.

Definition suggestion_candidates : list Suggestion.t :=
  [ {| Suggestion.label := "Explore the area"; Suggestion.action_type := "explore";
       Suggestion.payload := JDict [] |};
    {| Suggestion.label := "Interact with the nearest terminal";
       Suggestion.action_type := "interact";
       Suggestion.payload :=
         JDict [("targets", JList [JDict [("name", JStr "nearest terminal");
                                          ("type", JStr "object")]])] |};
    {| Suggestion.label := "Move to cover"; Suggestion.action_type := "move";
       Suggestion.payload :=
         JDict [("movement", JDict [("mode", JStr "walk"); ("distance", JNum 5);
                                    ("destination", JStr "cover")])] |};
    {| Suggestion.label := "Attack the nearest threat"; Suggestion.action_type := "attack";
       Suggestion.payload := JDict [("targets", JList [])] |};
    {| Suggestion.label := "Request a closer look at the scene";
       Suggestion.action_type := "scene_request"; Suggestion.payload := JDict [] |};
    {| Suggestion.label := "Ask the GM for guidance"; Suggestion.action_type := "ask_gm";
       Suggestion.payload := JDict [("dialogue", JStr "What stands out right now?")] |}
  ]%string.

Definition suggestion_fallback : Suggestion.t :=
  {| Suggestion.label := "Explore the area"; Suggestion.action_type := "explore";
     Suggestion.payload := JDict [] |}.

(** [while len(filtered) < 3: filtered.append(fallback)]; the loop body runs
    at most three times. *)
Fixpoint pad_suggestions (fuel : nat) (filtered : list Suggestion.t)
  : list Suggestion.t :=
  match fuel with
  | O => filtered
  | S fuel' =>
      if (length filtered <? 3)%nat
      then pad_suggestions fuel' (filtered ++ [suggestion_fallback])
      else filtered
  end.

Definition _build_suggested_actions (available_actions : list string)
  : list Suggestion.t :=
  let filtered :=
    List.filter (fun item => one_of (Suggestion.action_type item) available_actions)
      suggestion_candidates in
  firstn 5 (pad_suggestions 3 filtered).

Definition opt_str (o : option string) : string :=
  match o with Some x => x | None => ""%string end.

Definition _validate_impossible_action (intent : Intent.t) (era_name : string)
    (player_text : string) : option string :=
  let era_label := if String.eqb (Text.strip era_name) "" then "this era"%string
                   else Text.strip era_name in
  let combined :=
    Text.lower (player_text ++ " " ++ opt_str (Intent.dialogue intent) ++ " "
                ++ opt_str (Intent.item_used intent)) in
  if negb (String.eqb (Text.lower (Text.strip era_name)) "space")
     && existsb (fun keyword => Text.contains keyword combined)
          ["spaceship"; "space ship"; "starship"; "star ship"]%string
  then Some ("That action isn't possible. You are in a " ++ era_label
             ++ " setting. You do not possess a spaceship.")%string
  else None.

Definition available_actions : list string :=
  [ "explore"; "scene_request"; "interact"; "move"; "attack"; "use_power";
    "buy_item"; "ask_gm" ]%string.

(** [_validate_intent]: None when the intent passes, else the message of the
    [TurnError] it raises. *)
Definition _validate_intent (intent : Intent.t) (era_name : string)
    (actions : Z) (allowed : list string) : option string :=
  match Intent.action_type intent with
  | Action.explore | Action.scene_request => None
  | a =>
      if negb (match allowed with [] => true | _ => false end)
         && negb (existsb (String.eqb (Action.value a)) allowed)
      then Some "Action not allowed right now."%string
      else
        let actions_required :=
          TurnIntent.actions_required (_intent_to_turn_intent intent) in
        if actions_required <? 0 then Some "Invalid action cost."%string
        else if actions <? actions_required then Some "Not enough actions."%string
        else if match a with Action.use_power => true | _ => false end
                && negb (String.eqb (Text.lower (Text.strip era_name)) "space")
        then Some "Powers are locked outside the Space era."%string
        else None
  end.

(** [_ensure_resources]: the stored resources with the defaults of
    [base_actions()] for the missing ones. *)
Definition _ensure_resources (character : Character) : Z * Z :=
  (match resource_actions character with Some a => a | None => 1 end,
   match resource_reactions character with Some r => r | None => 1 end).

(** [int(hp) <= 0], False when [hp] is None or [int] raises. *)
Definition _is_dead (hp_ : JsonValue) : bool :=
  match hp_ with
  | JNum n => n <=? 0
  | JBool b => negb b
  | JStr s =>
      match Text.py_int (Text.chars s) with
      | Some n => n <=? 0
      | None => false
      end
  | _ => false
  end.

Definition _clarify_turn_result (intent : Intent.t)
    (errors : list string) (clarification_questions : list string)
  : TurnResult.t :=
  let question :=
    opt_str (str_or (Intent.reason intent)
               (str_or (Intent.dialogue intent)
                  (Some "Please clarify your intended action."%string))) in
  let questions :=
    match clarification_questions with
    | [] => [question]
    | qs => qs
    end in
  {| TurnResult.intent := Action.value (Intent.action_type intent);
     TurnResult.rolls := [];
     TurnResult.outcome := [("clarify", JBool true); ("message", JStr question)]%string;
     TurnResult.state_diff := [];
     TurnResult.needs_clarification := true;
     TurnResult.clarification_question := Some question;
     TurnResult.clarification_questions := questions;
     TurnResult.validation_errors := errors |}.

Definition clarifying (reason_ : string) : Intent.t :=
  Intent.make Action.ask_clarifying_question (Some reason_) None.

(** A result that reports no roll and no state change. *)
Definition plain_result (intent_ : string) (outcome_ : Dict.t JsonValue)
    (needs : bool) (question : option string) (questions : list string)
    (errors : list string) : TurnResult.t :=
  {| TurnResult.intent := intent_;
     TurnResult.rolls := [];
     TurnResult.outcome := outcome_;
     TurnResult.state_diff := [];
     TurnResult.needs_clarification := needs;
     TurnResult.clarification_question := question;
     TurnResult.clarification_questions := questions;
     TurnResult.validation_errors := errors |}.

Definition session_dev_mode (session : Session) : bool :=
  match settings session with
  | JDict d => dev_flag_value d
  | _ => false
  end.

(** The results of the protocols.  The intent, the rolls, the state diff and
    the clarification fields are those of the code; of the outcome only the
    entry that names the protocol is kept (the other entries carry the
    material of the narration: citations, proposals, drafts, hooks). *)
Definition _memory_recall_result : TurnResult.t :=
  plain_result "ask_gm" [("memory_recall", JBool true)]%string false None [] [].

Definition _scene_intro_result : TurnResult.t :=
  plain_result "ask_clarifying_question" [("scene_established", JBool true)]%string
    true (Some "Choose an action to proceed."%string)
    ["Choose an action to proceed."%string] [].

Definition _retcon_dispute_result : TurnResult.t :=
  plain_result "ask_clarifying_question" [("retcon_dispute", JBool true)]%string
    true (Some "Which resolution should we apply?"%string)
    ["Clarify misunderstanding"; "Retcon with minimal disruption"]%string [].

Definition _rule_edge_case_result (session : Session) : TurnResult.t :=
  if session_dev_mode session then
    plain_result "ask_clarifying_question" [("rule_edge_case", JBool true)]%string
      true (Some "Please provide a ruling for this edge case."%string)
      ["Provide a ruling."; "Add a schema/rule addition."]%string []
  else
    plain_result "ask_gm" [("rule_edge_case", JBool true)]%string false None [] [].

(** In dev mode this is the result when a draft creator is given and the
    draft validates; without a creator, or with a draft that does not
    validate, the code returns a [_clarify_turn_result], which has no roll
    and no state change either. *)
Definition _content_gap_result (session : Session) : TurnResult.t :=
  if negb (session_dev_mode session) then
    plain_result "ask_clarifying_question" [("content_gap", JBool true)]%string
      true (Some "This system is missing. Do you want to proceed without it?"%string)
      ["Proceed with conservative fallback.";
       "Pause and define the missing system."]%string []
  else
    plain_result "ask_clarifying_question" [("content_gap", JBool true)]%string
      true (Some "Do you want to activate this system draft?"%string)
      ["Accept the draft."; "Revise the draft."]%string [].

Definition _exploration_result : TurnResult.t :=
  plain_result "explore" [("exploration", JBool true)]%string false None [] [].

Definition _stagnation_result : TurnResult.t :=
  plain_result "explore" [("stagnation", JBool true)]%string false None [] [].

(** [_maybe_create_project], given the step found in the plan (by its
    questions) and what the project creator answers (None: no creator). *)
Definition _maybe_create_project (envelope : TurnEnvelope.t)
    (project_creator : option (res unit)) : option TurnResult.t :=
  match TurnEnvelope.gm_plan envelope with
  | None => None
  | Some None => None
  | Some (Some questions) =>
      match project_creator with
      | None =>
          Some (_clarify_turn_result (clarifying "Project creation unavailable.") []
                  ["Project tooling is not available yet."%string])
      | Some (Raise exc) =>
          Some (_clarify_turn_result (clarifying "Project creation failed.")
                  [str_exn exc]
                  ["Project creation failed. Try again?"%string])
      | Some (Ok _) =>
          Some (plain_result "project_create" [("project_created", JBool true)]%string
                  (negb (match questions with [] => true | _ => false end))
                  (head questions) questions [])
      end
  end.

Section Turn.
Context {R : PRNG}.

Fixpoint discard_draws (n : nat) : Sess unit :=
  match n with
  | O => ret tt
  | S n' => run random; discard_draws n'
  end.

(** [for _ in range(roll_index): session_state.rng.random()] *)
Definition _consume_rolls (roll_index_ : Z) : Sess unit :=
  discard_draws (Z.to_nat roll_index_).

Definition _count_rolls (log : list RollEntry) : Z :=
  fold_left (fun draws entry => draws + Z.of_nat (length (rolls entry))) log 0.

Definition _execute_mechanics (intent : TurnIntent.t) : Sess (Dict.t JsonValue) :=
  let a := TurnIntent.action intent in
  if String.eqb a "attack" then
    do attack_roll_ <- roll_d20 None;
    let attack_total_ :=
      attack_roll_ + TurnIntent.skill_bonus intent + TurnIntent.attr_bonus intent in
    let hit_ := TurnIntent.target_ar intent <=? attack_total_ in
    do damage_ <- (if hit_ then roll (TurnIntent.weapon_damage intent) None else ret 0);
    ret [ ("hit", JBool hit_); ("attack_roll", JNum attack_roll_);
          ("attack_total", JNum attack_total_);
          ("target_ar", JNum (TurnIntent.target_ar intent));
          ("damage", JNum damage_);
          ("target", json_opt_str (TurnIntent.target_label intent)) ]%string
  else if String.eqb a "explore" then ret [("explore", JBool true)]%string
  else if String.eqb a "scene_request" then ret [("scene_request", JBool true)]%string
  else if String.eqb a "interact" then
    ret [("interact", JBool true);
         ("target", json_opt_str (TurnIntent.target_label intent))]%string
  else if String.eqb a "use_power" then
    ret [("used_power", json_opt_str (TurnIntent.power_id intent))]%string
  else if String.eqb a "buy_item" then
    ret [("buy_item", JBool true);
         ("item", json_opt_str (TurnIntent.item_used intent))]%string
  else if String.eqb a "ask_gm" then ret [("ask_gm", JBool true)]%string
  else if String.eqb a "move" then
    (* the "movement" entry repeats the payload of the intent, which this
       model of the intent does not carry *)
    ret [("moved", JBool true)]%string
  else if String.eqb a "pass" then ret [("pass", JBool true)]%string
  else raise (TurnError "Unsupported action.").

Definition _build_character_state_diff (character : Character)
    (actions reactions : Z) (outcome_ : Dict.t JsonValue) : JsonValue :=
  JDict [ ("id", character_id character);
          ("resources", JDict [("actions", JNum actions);
                               ("reactions", JNum reactions)]%string);
          ("hp", derived_hp character);
          ("ap", derived_ap character);
          ("statuses", statuses_json character);
          ("last_roll", json_get_or_none "attack_roll" outcome_);
          ("last_damage", json_get_or_none "damage" outcome_) ]%string.

Definition _execute_intent_pipeline (session : Session) (character : Character)
    (intent : Intent.t) (errors : list string) (player_text : string)
  : res TurnResult.t :=
  let era_name := era session in
  match _validate_impossible_action intent era_name player_text with
  | Some impossible_reason =>
      Ok (_clarify_turn_result (clarifying impossible_reason)
            (errors ++ [impossible_reason])
            [ "Flee the area on foot."; "Use known equipment.";
              "Attempt something unconventional within the scene." ]%string)
  | None =>
      let '(actions, reactions) := _ensure_resources character in
      match Intent.action_type intent with
      | Action.ask_clarifying_question | Action.invalid =>
          Ok (_clarify_turn_result intent errors [])
      | _ =>
          match _validate_intent intent era_name actions available_actions with
          | Some msg =>
              Ok (_clarify_turn_result (clarifying msg) (errors ++ [msg]) [])
          | None =>
              let session_state :=
                new_session (match rng_seed session with
                             | Some s => s
                             | None => 0
                             end) in
              let mechanics_intent := _intent_to_turn_intent intent in
              match (run _consume_rolls (roll_index session);
                     _execute_mechanics mechanics_intent) session_state with
              | (Raise e, _) => Raise e
              | (Ok outcome_, session_state) =>
                  let actions := actions - TurnIntent.actions_required mechanics_intent in
                  let rolls_ := turn_log session_state in
                  let roll_index_ := roll_index session + _count_rolls rolls_ in
                  let character_diff :=
                    _build_character_state_diff character actions reactions outcome_ in
                  Ok {| TurnResult.intent := Action.value (Intent.action_type intent);
                        TurnResult.rolls := rolls_;
                        TurnResult.outcome :=
                          outcome_ ++ [("death"%string, JBool (_is_dead (derived_hp character)))];
                        TurnResult.state_diff :=
                          [ ("character", character_diff);
                            ("session", JDict [("roll_index", JNum roll_index_)]%string)
                          ]%string;
                        TurnResult.needs_clarification := false;
                        TurnResult.clarification_question := None;
                        TurnResult.clarification_questions := [];
                        TurnResult.validation_errors := errors |}
              end
          end
      end
  end.

Definition _extract_intent_or_fallback (llm_client : LlmClient)
  : Intent.t * list string :=
  match extract_intent llm_client with
  | Ok intent => (intent, [])
  | Raise exc =>
      (Intent.make Action.ask_clarifying_question None
         (Some "Could you clarify your intended action?"%string),
       [str_exn exc])
  end.

Definition execute_turn_for_state (session : Session) (character : Character)
    (player_text : string) (llm_client : LlmClient)
    (intent_override : option Intent.t) (project_creator : option (res unit))
  : res TurnResult.t :=
  if _is_memory_recall_request player_text then Ok _memory_recall_result
  else if negb (has_scene_text session) then Ok _scene_intro_result
  else
    match intent_override with
    | Some intent =>
        _execute_intent_pipeline session character intent [] player_text
    | None =>
        match generate_turn_envelope llm_client with
        | Raise exc =>
            Ok (_clarify_turn_result
                  (clarifying "Turn envelope could not be generated.")
                  [str_exn exc]
                  ["Could you clarify what you want to do next?"%string])
        | Ok envelope =>
            let decision :=
              route_envelope envelope
                (Some [("settings"%string,
                        match settings session with
                        | JDict d => JDict d
                        | _ => JDict []
                        end)]) in
            match protocol_id decision with
            | PROTO_RETCON_DISPUTE => Ok _retcon_dispute_result
            | PROTO_RULE_EDGE_CASE => Ok (_rule_edge_case_result session)
            | PROTO_CONTENT_GAP => Ok (_content_gap_result session)
            | PROTO_EXPLORATION => Ok _exploration_result
            | PROTO_MEMORY_RECALL => Ok _memory_recall_result
            | PROTO_STAGNATION => Ok _stagnation_result
            | _ =>
                if freeze_time decision || negb (execute decision) then
                  let questions :=
                    match ooc_questions decision with
                    | Some (q :: qs) => q :: qs
                    | _ => ["Choose an action to proceed."%string]
                    end in
                  Ok (_clarify_turn_result
                        (clarifying (opt_str (str_or (reason decision)
                                                (Some "clarification"%string))))
                        [] questions)
                else
                  match
                    (match TurnEnvelope.gm_plan envelope with
                     | Some _ => _maybe_create_project envelope project_creator
                     | None => None
                     end)
                  with
                  | Some project_result => Ok project_result
                  | None =>
                      let '(intent, errors) := _extract_intent_or_fallback llm_client in
                      _execute_intent_pipeline session character intent errors player_text
                  end
            end
        end
    end.

End Turn.

(* ===================================================================== *)
(** * Vocabulary of the properties                                        *)
(* ===================================================================== *)

(** ** Dice formulas *)

Module Formula.
Import Text Pattern.

Definition blanks (w : list ascii) : Prop := forallb is_space w = true.
Definition plain_blanks (w : list ascii) : Prop := forallb is_int_space w = true.
Definition all_digits (ds : list ascii) : Prop := forallb is_digit ds = true.
Definition digits (ds : list ascii) : Prop := ds <> [] /\ all_digits ds.

(** A numeral that [int] reads: it has no more digits than the limit. *)
Definition short (ds : list ascii) : Prop := within_limit ds = true.

(** A bare non-negative integer: digits between optional blanks, the blanks
    being those an integer literal may stand between (TAB..CR, the blank,
    NEL and the no-break space; the separators FS..US are not among them). *)
Definition bare_integer (s : string) (n : Z) : Prop :=
  exists w1 ds w2,
    chars s = w1 ++ ds ++ w2 /\ plain_blanks w1 /\ digits ds /\ plain_blanks w2 /\
    n = int_of_digits ds.

(** What INTEGER_PATTERN matches: digits between optional blanks, of any
    white space. *)
Definition integer_pattern (s : string) (w1 ds w2 : list ascii) : Prop :=
  chars s = w1 ++ ds ++ w2 /\ blanks w1 /\ digits ds /\ blanks w2.

(** The list does not start with a character of the class. *)
Definition stops (p : ascii -> bool) (l : list ascii) : Prop :=
  match l with
  | [] => True
  | c :: _ => p c = false
  end.

(** The numbers that the groups of the dice pattern stand for. *)
Definition count_of (count_text : list ascii) : Z :=
  if is_empty count_text then 1 else int_of_digits count_text.

Definition modifier_of (modifier_text : option (list ascii)) : Z :=
  match modifier_text with
  | Some (sg :: ds) =>
      if Ascii.eqb sg "-" then - int_of_digits ds else int_of_digits ds
  | _ => 0
  end.

(** The text of the third group, empty when the group is absent, and its
    digits, after the sign. *)
Definition modifier_chars (modifier_text : option (list ascii)) : list ascii :=
  match modifier_text with
  | Some t => t
  | None => []
  end.

Definition modifier_digits (modifier_text : option (list ascii)) : list ascii :=
  match modifier_text with
  | Some (_ :: ds) => ds
  | _ => []
  end.

(** What the groups of the dice pattern hold. *)
Definition groups (count_text sides_text : list ascii)
    (modifier_text : option (list ascii)) : Prop :=
  all_digits count_text /\ digits sides_text /\
  match modifier_text with
  | None => True
  | Some t => exists sg ds, t = sg :: ds /\ is_sign sg = true /\ digits ds
  end.

(** What DICE_PATTERN matches, with its three groups: between optional
    blanks (any white space), a possibly empty run of digits, the letter d
    in either case, one or more digits and, optionally, a sign followed by
    one or more digits. *)
Definition dice_pattern (s : string) (cs ss : list ascii)
    (ms : option (list ascii)) : Prop :=
  exists w1 d w2,
    chars s = w1 ++ cs ++ d :: ss ++ modifier_chars ms ++ w2 /\
    blanks w1 /\ is_d d = true /\ blanks w2 /\ groups cs ss ms.

(** Each numeral of the three groups is one that [int] reads. *)
Definition numerals_short (cs ss : list ascii) (ms : option (list ascii)) : Prop :=
  short cs /\ short ss /\ short (modifier_digits ms).

(** N d M with an optional signed modifier K, as [roll] reads it: text of
    the dice pattern whose numerals have no more digits than the limit; an
    omitted N stands for 1. *)
Definition dice_formula (s : string) (N M K : Z) : Prop :=
  exists cs ss ms,
    dice_pattern s cs ss ms /\ numerals_short cs ss ms /\
    N = count_of cs /\ M = int_of_digits ss /\ K = modifier_of ms.

End Formula.

(** A string that [roll] rejects: it matches neither pattern; or it matches
    the integer pattern and [int] does not read it, because of a blank that
    [int] does not skip (a separator FS..US) or of more digits than the
    limit; or it matches the dice pattern with a numeral of more digits than
    the limit, or with N <= 0 or M <= 0. *)
Definition rejected (s : string) : Prop :=
  ((forall w1 ds w2, ~ Formula.integer_pattern s w1 ds w2) /\
   (forall cs ss ms, ~ Formula.dice_pattern s cs ss ms))
  \/ (exists w1 ds w2,
        Formula.integer_pattern s w1 ds w2 /\
        ~ (Formula.plain_blanks w1 /\ Formula.plain_blanks w2 /\ Formula.short ds))
  \/ (exists cs ss ms,
        Formula.dice_pattern s cs ss ms /\
        (~ Formula.numerals_short cs ss ms
         \/ Formula.count_of cs <= 0 \/ Text.int_of_digits ss <= 0)).

(** The exception of a rejected formula: that of [int] on text of the
    integer pattern or on the first group that it does not read, that of
    [roll] otherwise; a [ValueError] either way. *)
Definition rejection (s : string) : exn :=
  if Pattern.match_integer s then int_error (Text.chars s)
  else
    match Pattern.match_dice s with
    | Some (count_text, sides_text, modifier_text) =>
        if negb (Text.within_limit count_text) then int_error count_text
        else if negb (Text.within_limit sides_text) then int_error sides_text
        else if negb (Text.within_limit (Formula.modifier_digits modifier_text))
        then int_error (Formula.modifier_chars modifier_text)
        else invalid_dice s
    | None => invalid_dice s
    end.

Definition is_value_error (e : exn) : Prop := exists msg, e = ValueError msg.

(** ** Sessions as objects *)

(** A roll call made on a session. *)
Inductive Call :=
| roll_d20_call (lbl : option string)
| roll_call (dice_str : string) (lbl : option string).

(** The objects of a process: each [SessionState] lives at an address and
    owns its log and its generator. *)
Abbreviation Heap := (gmap nat SessionState).

Section SessionVocabulary.
Context {R : PRNG}.

(** The session after one more entry has been logged. *)
Definition logged (sess : SessionState) (e : RollEntry) (g : generator) : SessionState :=
  {| seed := seed sess; turn_log := turn_log sess ++ [e]; rng := g |}.

(** The session with its generator moved on. *)
Definition with_rng (sess : SessionState) (g : generator) : SessionState :=
  {| seed := seed sess; turn_log := turn_log sess; rng := g |}.

(** The attack roll: the override when it is truthy, else a d20. *)
Definition attack_roll_step (override : option Z) : Sess Z :=
  match truthy override with
  | Some v => ret v
  | None => roll_d20 None
  end.

Definition perform (c : Call) : Sess Z :=
  match c with
  | roll_d20_call lbl => roll_d20 lbl
  | roll_call dice_str lbl => roll dice_str lbl
  end.

(** A sequence of calls on one session; a caller that catches the exception
    of a call goes on with the session as that call left it. *)
Fixpoint run_calls (cs : list Call) (sess : SessionState)
  : list (res Z) * SessionState :=
  match cs with
  | [] => ([], sess)
  | c :: cs' =>
      let '(r, sess1) := perform c sess in
      let '(rs, sess2) := run_calls cs' sess1 in
      (r :: rs, sess2)
  end.

(** [SessionState(seed=s)] *)
Definition create (s : Z) (h : Heap) : nat * Heap :=
  let a := fresh (dom h) in (a, <[a := new_session s]> h).

Definition call_on (a : nat) (c : Call) (h : Heap) : option (res Z) * Heap :=
  match h !! a with
  | Some sess => let '(r, sess') := perform c sess in (Some r, <[a := sess']> h)
  | None => (None, h)
  end.

(** A program: calls on sessions, in any interleaving. *)
Fixpoint run_program (evs : list (nat * Call)) (h : Heap)
  : list (nat * option (res Z)) * Heap :=
  match evs with
  | [] => ([], h)
  | (a, c) :: evs' =>
      let '(r, h1) := call_on a c h in
      let '(out, h2) := run_program evs' h1 in
      ((a, r) :: out, h2)
  end.

Definition calls_of (a : nat) (evs : list (nat * Call)) : list Call :=
  map snd (List.filter (fun ev => Nat.eqb (fst ev) a) evs).

Definition results_of (a : nat) (out : list (nat * option (res Z)))
  : list (option (res Z)) :=
  map snd (List.filter (fun ev => Nat.eqb (fst ev) a) out).

(** The generator after n [random()] draws. *)
Fixpoint skip (n : nat) (g : generator) : generator :=
  match n with
  | O => g
  | S n' => skip n' (snd (next_random g))
  end.

(** The number of component dice in a log. *)
Definition dice_total (log : list RollEntry) : nat :=
  fold_right (fun entry n => (length (rolls entry) + n)%nat) 0%nat log.

(** The totals that the calls which did not raise returned. *)
Definition returned (outcomes : list (res Z)) : list Z :=
  flat_map (fun r => match r with Ok v => [v] | Raise _ => [] end) outcomes.

(** The generator after one [randint(1, m)] for each m of a list. *)
Definition drawn (ms : list Z) (g : generator) : generator :=
  fold_left (fun g m => snd (next_randint 1 m g)) ms g.

(** The total of an entry is its dice plus its modifier; the entry of an
    integer formula has no dice and no modifier. *)
Definition entry_adds_up (e : RollEntry) : Prop :=
  result e = sum_Z (rolls e) + modifier e \/ (rolls e = [] /\ modifier e = 0).

(** What a call does to a session: it appends entries, and moves the
    generator. *)
Definition advanced (sess sess' : SessionState) (k : nat) : Prop :=
  exists new, sess' = {| seed := seed sess; turn_log := turn_log sess ++ new;
                         rng := skip k (rng sess) |}
              /\ dice_total new = k.

End SessionVocabulary.

(** ** Status ledgers *)

(** The fixed vocabulary. *)
Definition canonical_names : list string := map snd STATUS_CANONICAL.

Definition canonical (name : string) : Prop := In name canonical_names.

(** The invariants of a status entry and of a combatant's status map: stacks
    and level are at least 1, names are canonical, one entry per name. *)
Definition valid_entry (e : StatusEntry) : Prop := 1 <= stacks e /\ 1 <= level e.

Definition valid_ledger (L : Ledger) : Prop :=
  List.NoDup (Dict.keys L) /\
  List.Forall (fun item => canonical (fst item) /\ valid_entry (snd item)) L.

(** A duration counts the ticks that remain, None standing for an effect
    that lasts indefinitely: it is above every number. *)
Definition duration_le (a b : option Z) : Prop :=
  match a, b with
  | _, None => True
  | Some x, Some y => x <= y
  | None, Some _ => False
  end.

(** The duration an application brings: the given one, or the default of
    the status. *)
Definition given_or_default (canonical : string) (duration_ : option Z) : option Z :=
  match duration_ with
  | Some d => Some d
  | None => default_duration canonical
  end.

Definition and_then {A B} (r : res A) (k : A -> res B) : res B :=
  match r with
  | Ok a => k a
  | Raise e => Raise e
  end.

(** What one tick takes from HP for an entry, and what it leaves of it. *)
Definition entry_damage (tick_key name : string) (e : StatusEntry) : Z :=
  let is_turn := String.eqb tick_key "turn" in
  if String.eqb name "Bleeding" && is_turn then Z.max 1 (stacks e) * Z.max 1 (level e)
  else if String.eqb name "Ignited" && is_turn then 2 * Z.max 1 (level e)
  else if String.eqb name "Asphyxiation" && is_turn then 2 * Z.max 1 (level e)
  else if String.eqb name "Toxin" && is_turn then Z.max 1 (level e)
  else if String.eqb name "Disease" && String.eqb tick_key "day" then Z.max 1 (level e) + 1
  else 0.

Definition entry_after (tick_key name : string) (e : StatusEntry) : option StatusEntry :=
  let e1 :=
    if String.eqb name "Disease" && String.eqb tick_key "day"
    then {| stacks := stacks e; level := Z.max 1 (level e) + 1; duration := duration e |}
    else e in
  match duration e with
  | Some d =>
      if String.eqb tick_key "turn" then
        if d - 1 <=? 0 then None
        else Some {| stacks := stacks e1; level := level e1; duration := Some (d - 1) |}
      else Some e1
  | None => Some e1
  end.

Definition entries_after (tick_key : string) (L : Ledger) : Ledger :=
  flat_map (fun '(name, e) =>
              match entry_after tick_key name e with
              | Some e' => [(name, e')]
              | None => []
              end) L.

Definition expired_names (tick_key : string) (L : Ledger) : list string :=
  flat_map (fun '(name, e) =>
              match entry_after tick_key name e with
              | Some _ => []
              | None => [name]
              end) L.

Definition total_damage (tick_key : string) (L : Ledger) : Z :=
  sum_Z (map (fun '(name, e) => entry_damage tick_key name e) L).

(** The HP one "turn" tick takes for an entry, as the rules give it. *)
Definition turn_damage (name : string) (e : StatusEntry) : Z :=
  if String.eqb name "Bleeding" then stacks e * level e
  else if String.eqb name "Ignited" then 2 * level e
  else if String.eqb name "Asphyxiation" then 2 * level e
  else if String.eqb name "Toxin" then level e
  else 0.

(** [n] "turn" ticks in a row, each on the ledger the one before left. *)
Fixpoint tick_turns (n : nat) (L : Ledger) : res Ledger :=
  match n with
  | O => Ok L
  | S n' =>
      match tick_statuses L "turn" with
      | Ok (L', _, _) => tick_turns n' L'
      | Raise e => Raise e
      end
  end.

(** Initiatives in non-increasing order. *)
Fixpoint non_increasing (l : list Z) : Prop :=
  match l with
  | x :: l' =>
      match l' with
      | y :: _ => y <= x
      | [] => True
      end /\ non_increasing l'
  | [] => True
  end.

(** What a combatant adds to the d20 of their initiative. *)
Definition initiative_base (combatant : CombatantState) : Z :=
  dex combatant
  - match Dict.get "Cold" (statuses combatant) with
    | Some e => level e
    | None => 0
    end
  + initiative_bonus combatant.

(** The trigger words that [ramp_status] knows, for one status or another. *)
Definition RAMP_TRIGGERS : list string :=
  [ "move"; "ignite"; "fuel"; "cold"; "exposure"; "day"; "no_air"; "exposed";
    "dose"; "worsen"; "hit"; "refresh" ]%string.

(** ** Routing and pipeline results *)

(** The envelope is out of character: mode "ooc", or questions present. *)
Definition out_of_character (envelope : TurnEnvelope.t) : Prop :=
  TurnEnvelope.mode envelope = ooc \/ TurnEnvelope.ooc_questions envelope <> [].

Definition frozen_clarification (d : RoutedDecision) : Prop :=
  protocol_id d = PROTO_CLARIFICATION /\ execute d = false /\ freeze_time d = true.

Definition session_dict (session_state : option (list (string * JsonValue)))
  : list (string * JsonValue) :=
  match session_state with Some d => d | None => [] end.

(** What every result of the pipeline satisfies: it asks for no
    clarification, or it reports no state change. *)
Definition diff_only_when_executed (r : TurnResult.t) : Prop :=
  TurnResult.needs_clarification r = false \/ TurnResult.state_diff r = [].

(** ** Concrete inputs *)

Definition ooc_envelope : TurnEnvelope.t :=
  {| TurnEnvelope.mode := ooc; TurnEnvelope.protocol_id := "PROTO_ROUTINE";
     TurnEnvelope.confidence := high; TurnEnvelope.ooc_questions := [];
     TurnEnvelope.gm_plan := None |}.

Definition unknown_envelope : TurnEnvelope.t :=
  {| TurnEnvelope.mode := gm; TurnEnvelope.protocol_id := "PROTO_UNKNOWN";
     TurnEnvelope.confidence := high; TurnEnvelope.ooc_questions := [];
     TurnEnvelope.gm_plan := None |}.

Definition unsure_envelope : TurnEnvelope.t :=
  {| TurnEnvelope.mode := gm; TurnEnvelope.protocol_id := "PROTO_CATASTROPHIC";
     TurnEnvelope.confidence := low; TurnEnvelope.ooc_questions := [];
     TurnEnvelope.gm_plan := None |}.

Definition routine_envelope : TurnEnvelope.t :=
  {| TurnEnvelope.mode := gm; TurnEnvelope.protocol_id := "PROTO_ROUTINE";
     TurnEnvelope.confidence := high; TurnEnvelope.ooc_questions := [];
     TurnEnvelope.gm_plan := None |}.

(** Session state with developer mode on. *)
Definition dev_session_state : option (list (string * JsonValue)) :=
  Some [ ("settings", JDict [ ("dev_mode", JBool true) ]) ]%string.

Definition two_sessions_program : list (nat * Call) :=
  [ (0%nat, roll_d20_call (Some "initiative"%string));
    (1%nat, roll_d20_call (Some "initiative"%string));
    (1%nat, roll_call "2d6+3" None);
    (0%nat, roll_call "2d6+3" None);
    (0%nat, roll_call "1d0" None);
    (1%nat, roll_call "1d0" None) ].

Definition one_session_calls : list Call :=
  [ roll_d20_call (Some "initiative"%string); roll_call "2d6+3" None;
    roll_call "1d0" None ].

Definition sample_ledger : Ledger :=
  [ ("Bleeding", {| stacks := 2; level := 2; duration := Some 1 |});
    ("Cold", {| stacks := 1; level := 1; duration := Some 3 |});
    ("Concentration", {| stacks := 1; level := 1; duration := None |}) ]%string.

(** An effect held indefinitely. *)
Definition indefinite_ledger : Ledger :=
  [ ("Concentration", {| stacks := 1; level := 1; duration := None |}) ]%string.

Definition fighter (ar ap_ hp_ : Z) (w : option Weapon.t) : CombatantState :=
  {| name := "Fighter"; dex := 0; armor_rating := ar; ap := ap_; hp := hp_;
     statuses := []; skill := 0; attr := 0; attack_bonus := 0; damage_bonus := 0;
     weapon := w; initiative_bonus := 0 |}.

(** A numeral of 4301 digits: 1 followed by 4300 zeros. *)
Definition long_numeral : string :=
  Text.text ("1"%char :: repeat "0"%char (43 * 100)).

Definition armed (damage_ : string) : option Weapon.t :=
  Some {| Weapon.name := "Weapon"; Weapon.damage := damage_;
          Weapon.bonus := 0; Weapon.tags := [] |}.

Definition flat_weapon_attack
  : res (AttackResult * CombatantState * CombatantState) * SessionState (R := CPython.rng) :=
  resolve_attack (R := CPython.rng) (fighter 10 0 10 (armed "5")) (fighter 5 0 10 None)
    false None None 0 0 (Some 20) None (new_session 1).

Definition flat_weapon_result : AttackResult :=
  {| hit := true; crit := true; attack_roll := 20; attack_total := 20;
     target_ar := 5; damage := 0; ap_before := 0; ap_after := 0;
     hp_before := 10; hp_after := 10; called_shot_effect := None;
     counter := None |}.

(** An attack that misses, and the results of one that hits a blocking
    defender with a called shot and of one that is countered. *)
Definition missed_attack
  : res (AttackResult * CombatantState * CombatantState) * SessionState (R := CPython.rng) :=
  resolve_attack (R := CPython.rng) (fighter 10 0 10 (armed "1d6")) (fighter 50 0 10 None)
    false None None 0 0 (Some 2) None (new_session 1).

Definition missed_attack_result : AttackResult :=
  {| hit := false; crit := false; attack_roll := 2; attack_total := 2;
     target_ar := 50; damage := 0; ap_before := 0; ap_after := 0;
     hp_before := 10; hp_after := 10; called_shot_effect := None;
     counter := None |}.

Definition blocked_attack_result : AttackResult :=
  {| hit := true; crit := false; attack_roll := 15; attack_total := 10;
     target_ar := 5; damage := 2; ap_before := 3; ap_after := 1;
     hp_before := 10; hp_after := 10; called_shot_effect := Some "slow"%string;
     counter := None |}.

Definition slowed_defender : CombatantState :=
  {| name := "Fighter"; dex := 0; armor_rating := 5; ap := 1; hp := 10;
     statuses := [("Cold"%string, {| stacks := 1; level := 1; duration := Some 1 |})];
     skill := 0; attr := 0; attack_bonus := 0; damage_bonus := 0;
     weapon := None; initiative_bonus := 0 |}.

Definition countered_attack_result : AttackResult :=
  {| hit := false; crit := false; attack_roll := 1; attack_total := 1;
     target_ar := 50; damage := 0; ap_before := 0; ap_after := 0;
     hp_before := 10; hp_after := 10; called_shot_effect := None;
     counter :=
       Some {| CounterResult.triggered := true; CounterResult.hit := true;
               CounterResult.attack_roll := 8; CounterResult.attack_total := 8;
               CounterResult.damage := 1; CounterResult.ap_before := 0;
               CounterResult.ap_after := 0; CounterResult.hp_before := 5;
               CounterResult.hp_after := 4 |} |}.

(** The sample ledger after Bleeding has been ramped by a move. *)
Definition ramped_ledger : Ledger :=
  [ ("Bleeding", {| stacks := 3; level := 3; duration := Some 3 |});
    ("Cold", {| stacks := 1; level := 1; duration := Some 3 |});
    ("Concentration", {| stacks := 1; level := 1; duration := None |}) ]%string.

Definition sick_ledger : Ledger :=
  [ ("Disease", {| stacks := 1; level := 2; duration := None |});
    ("Cold", {| stacks := 1; level := 1; duration := Some 3 |}) ]%string.

Definition wounded : CombatantState :=
  {| name := "Wounded"; dex := 2; armor_rating := 10; ap := 0; hp := 10;
     statuses := sample_ledger; skill := 0; attr := 0; attack_bonus := 0;
     damage_bonus := 0; weapon := None; initiative_bonus := 1 |}.

Definition medieval_session : Session :=
  {| rng_seed := Some 1; roll_index := 0; era := "Medieval";
     has_scene_text := true; settings := JNull |}.

(** The result of the attack turn of the session with seed 2. *)
Definition missed_turn_result : TurnResult.t :=
  {| TurnResult.intent := "attack";
     TurnResult.rolls :=
       [{| formula := "1d20"; result := 2; rolls := [2]; modifier := 0; label := None |}];
     TurnResult.outcome :=
       [ ("hit", JBool false); ("attack_roll", JNum 2); ("attack_total", JNum 2);
         ("target_ar", JNum 12); ("damage", JNum 0); ("target", JStr "nearest_threat");
         ("death", JBool false) ]%string;
     TurnResult.state_diff :=
       [ ("character",
          JDict [ ("id", JNull);
                  ("resources", JDict [("actions", JNum 0); ("reactions", JNum 1)]);
                  ("hp", JNull); ("ap", JNull); ("statuses", JDict []);
                  ("last_roll", JNum 2); ("last_damage", JNum 0) ]);
         ("session", JDict [("roll_index", JNum 1)]) ]%string;
     TurnResult.needs_clarification := false;
     TurnResult.clarification_question := None;
     TurnResult.clarification_questions := [];
     TurnResult.validation_errors := [] |}.

Definition test_session (seed_ : Z) (roll_index_ : Z) : Session :=
  {| rng_seed := Some seed_; roll_index := roll_index_; era := "Space";
     has_scene_text := true; settings := JNull |}.

Definition test_character : Character :=
  {| character_id := JNull; resource_actions := None; resource_reactions := None;
     derived_hp := JNull; derived_ap := JNull; statuses_json := JDict [] |}.

Definition FailingLlmClient : LlmClient :=
  {| generate_turn_envelope := Raise (ValueError "Invalid JSON from LLM");
     extract_intent := Raise (ValueError "Invalid JSON from LLM") |}.

Definition envelope_failure_result : TurnResult.t :=
  _clarify_turn_result (clarifying "Turn envelope could not be generated.")
    ["Invalid JSON from LLM"%string]
    ["Could you clarify what you want to do next?"%string].

Definition StubLlmClient : LlmClient :=
  {| generate_turn_envelope := Ok routine_envelope;
     extract_intent := Ok (Intent.make Action.attack None None) |}.

(* ===================================================================== *)
(** * Dice formulas: what the two patterns accept                          *)
(* ===================================================================== *)

Module FormulaFacts.
Import Text Pattern Formula.

(** ** Character classes *)

Lemma classes_disjoint (c : ascii) :
  match is_space c, is_digit c, is_d c, is_sign c with
  | true, false, false, false | false, true, false, false
  | false, false, true, false | false, false, false, true
  | false, false, false, false => True
  | _, _, _, _ => False
  end.
Proof.
  destruct c as [[] [] [] [] [] [] [] []]; vm_compute; exact I.
Qed.

Ltac classes c :=
  let H := fresh "Hcls" in
  pose proof (classes_disjoint c) as H;
  destruct (is_space c) eqn:?, (is_digit c) eqn:?, (is_d c) eqn:?, (is_sign c) eqn:?;
  try contradiction; try congruence; clear H.

Lemma is_sign_cases c : is_sign c = true -> c = "+"%char \/ c = "-"%char.
Proof.
  unfold is_sign. intros H. apply orb_prop in H.
  destruct H as [H|H]; apply Ascii.eqb_eq in H; auto.
Qed.

(** ** Longest prefixes *)

Lemma take_drop p l : take_while p l ++ drop_while p l = l.
Proof. induction l as [|c l IH]; cbn; [reflexivity|]. destruct (p c); cbn; congruence. Qed.

Lemma take_while_all p l : forallb p (take_while p l) = true.
Proof. induction l as [|c l IH]; cbn; [reflexivity|]. destruct (p c) eqn:E; cbn; [rewrite E|]; auto. Qed.

Lemma drop_while_stops p l : stops p (drop_while p l).
Proof. induction l as [|c l IH]; cbn; [exact I|]. destruct (p c) eqn:E; cbn; auto. Qed.

Lemma take_while_app p w rest :
  forallb p w = true -> stops p rest -> take_while p (w ++ rest) = w.
Proof.
  induction w as [|c w IH]; cbn.
  - intros _ H. destruct rest as [|c rest]; cbn in *; [reflexivity|now rewrite H].
  - intros H Hs. apply andb_prop in H. destruct H as [-> H]. f_equal. auto.
Qed.

Lemma drop_while_app p w rest :
  forallb p w = true -> stops p rest -> drop_while p (w ++ rest) = rest.
Proof.
  induction w as [|c w IH]; cbn.
  - intros _ H. destruct rest as [|c rest]; cbn in *; [reflexivity|now rewrite H].
  - intros H Hs. apply andb_prop in H. destruct H as [-> H]. auto.
Qed.

Lemma drop_while_id p l : stops p l -> drop_while p l = l.
Proof. intros H. apply (drop_while_app p [] l); auto. Qed.

Lemma is_empty_spec l : is_empty l = true <-> l = [].
Proof. destruct l; cbn; split; congruence. Qed.

Lemma is_empty_false l : is_empty l = false <-> l <> [].
Proof. destruct l; cbn; split; congruence. Qed.

Lemma digits_stop_space ds rest : digits ds -> stops is_space (ds ++ rest).
Proof.
  intros [Hne Hd]. destruct ds as [|c ds]; [congruence|]. cbn in *.
  apply andb_prop in Hd. destruct Hd as [Hc _]. classes c.
Qed.

Lemma blanks_stop_digit w : blanks w -> stops is_digit w.
Proof.
  unfold blanks. destruct w as [|c w]; cbn; [auto|]. intros H.
  apply andb_prop in H. destruct H as [Hc _]. classes c.
Qed.

Lemma forallb_reverse (p : ascii -> bool) l : forallb p (rev l) = forallb p l.
Proof.
  induction l as [|c l IH]; cbn; [reflexivity|].
  rewrite forallb_app, IH. cbn. rewrite andb_true_r. apply andb_comm.
Qed.

Lemma digits_last ds : digits ds -> stops is_space (rev ds).
Proof.
  intros [Hne Hd]. unfold all_digits in Hd. rewrite <- forallb_reverse in Hd.
  destruct (rev ds) as [|c r] eqn:E.
  - exact I.
  - cbn in *. apply andb_prop in Hd. destruct Hd as [Hc _]. classes c.
Qed.

(** ** [int(...)] on accepted text *)

Lemma int_classes (c : ascii) :
  (is_int_space c = true -> is_space c = true) /\
  (is_space c = true -> is_literal_char c = false) /\
  (is_sign c = true -> is_literal_char c = false) /\
  (is_digit c = true -> is_literal_char c = true).
Proof.
  destruct c as [[] [] [] [] [] [] [] []]; vm_compute;
    repeat split; intros; congruence.
Qed.

Lemma plain_blanks_blanks w : plain_blanks w -> blanks w.
Proof.
  unfold plain_blanks, blanks. induction w as [|c w IH]; cbn; [auto|].
  intros H. apply andb_prop in H. destruct H as [Hc H].
  destruct (int_classes c) as (Hs & _). now rewrite (Hs Hc), IH.
Qed.

Lemma not_space_not_int_space (c : ascii) : is_space c = false -> is_int_space c = false.
Proof.
  intros H. destruct (is_int_space c) eqn:E; [|reflexivity].
  apply (int_classes c) in E. congruence.
Qed.

Lemma blanks_stop_literal w : blanks w -> stops is_literal_char w.
Proof.
  unfold blanks. destruct w as [|c w]; cbn [stops forallb]; [auto|]. intros H.
  apply andb_prop in H. destruct H as [Hc _].
  destruct (int_classes c) as (_ & Hl & _). exact (Hl Hc).
Qed.

Lemma digits_literal ds :
  all_digits ds ->
  forallb is_literal_char ds = true /\ List.filter is_digit ds = ds /\
  well_grouped true ds = true.
Proof.
  unfold all_digits. induction ds as [|c ds IH]; cbn; [auto|].
  intros H. apply andb_prop in H. destruct H as [Hc H].
  destruct (IH H) as (H1 & H2 & H3). rewrite Hc, H1, H2, H3.
  destruct (int_classes c) as (_ & _ & _ & Hl). now rewrite (Hl Hc).
Qed.

Lemma digits_well_grouped ds : digits ds -> well_grouped false ds = true.
Proof.
  intros [Hne Hd]. destruct ds as [|c ds]; [congruence|].
  unfold all_digits in Hd. cbn in Hd. apply andb_prop in Hd. destruct Hd as [Hc Hd].
  cbn. rewrite Hc. now apply digits_literal.
Qed.

Lemma take_drop_all p l :
  forallb p l = true -> take_while p l = l /\ drop_while p l = [].
Proof.
  intros H. pose proof (take_while_app p l [] H I) as Ht.
  pose proof (drop_while_app p l [] H I) as Hd. now rewrite app_nil_r in Ht, Hd.
Qed.

(** [int] on digits followed by text that does not go on the literal. *)
Lemma py_int_unsigned ds rest :
  digits ds -> stops is_literal_char rest ->
  py_int (ds ++ rest) =
    if within_limit ds && forallb is_int_space rest
    then Some (int_of_digits ds) else None.
Proof.
  intros Hds Hrest. pose proof (digits_well_grouped ds Hds) as Hwg.
  destruct Hds as [Hne Hd]. destruct (digits_literal ds Hd) as (Hl & Hf & _).
  destruct ds as [|c ds]; [congruence|].
  assert (Hc : is_digit c = true) by (cbn in Hd; now apply andb_prop in Hd).
  assert (Hsp : is_int_space c = false) by (apply not_space_not_int_space; classes c).
  unfold py_int, signed_body. cbn [app drop_while]. rewrite Hsp.
  destruct (Ascii.eqb_spec c "-") as [->|]; [discriminate|].
  destruct (Ascii.eqb_spec c "+") as [->|]; [discriminate|].
  change (c :: ds ++ rest) with ((c :: ds) ++ rest).
  rewrite (take_while_app is_literal_char (c :: ds) rest Hl Hrest).
  rewrite (drop_while_app is_literal_char (c :: ds) rest Hl Hrest).
  rewrite Hwg, Hf. reflexivity.
Qed.

Lemma py_int_digits ds :
  digits ds ->
  py_int ds = if within_limit ds then Some (int_of_digits ds) else None.
Proof.
  intros Hds. pose proof (py_int_unsigned ds [] Hds I) as H.
  rewrite app_nil_r in H. cbn [forallb] in H. now rewrite andb_true_r in H.
Qed.

Lemma py_int_signed sg ds :
  digits ds -> is_sign sg = true ->
  py_int (sg :: ds) =
    if within_limit ds
    then Some (if Ascii.eqb sg "-" then - int_of_digits ds else int_of_digits ds)
    else None.
Proof.
  intros Hds Hs. pose proof (digits_well_grouped ds Hds) as Hwg.
  destruct Hds as [Hne Hd]. destruct (digits_literal ds Hd) as (Hl & Hf & _).
  destruct (take_drop_all is_literal_char ds Hl) as [Ht Hdr].
  assert (Hsp : is_int_space sg = false) by (apply not_space_not_int_space; classes sg).
  unfold py_int, signed_body. cbn [drop_while]. rewrite Hsp.
  destruct (is_sign_cases sg Hs) as [-> | ->]; cbn [Ascii.eqb Bool.eqb];
    rewrite Ht, Hdr, Hwg, Hf; cbn [forallb andb];
    rewrite andb_true_r; reflexivity.
Qed.

(** [int] skips the blanks it knows and stops on the others. *)
Lemma py_int_blanks w l :
  blanks w -> stops is_space l ->
  py_int (w ++ l) = if forallb is_int_space w then py_int l else None.
Proof.
  unfold blanks. induction w as [|c w IH]; intros Hw Hl; [reflexivity|].
  cbn [forallb] in Hw. apply andb_prop in Hw. destruct Hw as [Hc Hw].
  cbn [app forallb]. destruct (is_int_space c) eqn:Hi; cbn [andb].
  - rewrite <- (IH Hw Hl). unfold py_int, signed_body. cbn [drop_while]. now rewrite Hi.
  - assert (Hsg : is_sign c = false) by (classes c).
    destruct (int_classes c) as (_ & Hlit & _). specialize (Hlit Hc).
    unfold py_int, signed_body. cbn [drop_while]. rewrite Hi.
    destruct (Ascii.eqb_spec c "-") as [->|]; [discriminate|].
    destruct (Ascii.eqb_spec c "+") as [->|]; [discriminate|].
    cbn [take_while]. rewrite Hlit. reflexivity.
Qed.

(** [int] on digits between blanks of the regular expressions: it reads
    them when the blanks are among those it skips and the digits are no
    more than the limit. *)
Lemma py_int_framed w1 ds w2 :
  blanks w1 -> digits ds -> blanks w2 ->
  py_int (w1 ++ ds ++ w2) =
    if forallb is_int_space w1 && forallb is_int_space w2 && within_limit ds
    then Some (int_of_digits ds) else None.
Proof.
  intros H1 Hd H2.
  rewrite (py_int_blanks w1 (ds ++ w2) H1 (digits_stop_space ds w2 Hd)).
  rewrite (py_int_unsigned ds w2 Hd (blanks_stop_literal w2 H2)).
  now destruct (forallb is_int_space w1), (forallb is_int_space w2), (within_limit ds).
Qed.

Lemma int_of_digits_nonneg ds : all_digits ds -> 0 <= int_of_digits ds.
Proof.
  unfold all_digits, int_of_digits.
  assert (H : forall acc, 0 <= acc -> forallb is_digit ds = true ->
                          0 <= fold_left (fun a c => 10 * a + digit_value c) ds acc).
  { induction ds as [|c ds IH]; intros acc Hacc Hd; cbn in *; [exact Hacc|].
    apply andb_prop in Hd. destruct Hd as [Hc Hd]. apply IH; [|exact Hd].
    unfold is_digit in Hc. apply andb_prop in Hc. destruct Hc as [Hc _].
    apply Z.leb_le in Hc. unfold digit_value. lia. }
  apply H. lia.
Qed.

(** ** The integer pattern *)

Lemma match_integer_shape s :
  match_integer s = true -> exists w1 ds w2, integer_pattern s w1 ds w2.
Proof.
  unfold match_integer. intros H. apply andb_prop in H. destruct H as [Hne Hsp].
  set (l := drop_while is_space (chars s)) in *.
  exists (take_while is_space (chars s)), (take_while is_digit l), (drop_while is_digit l).
  repeat split.
  - now rewrite take_drop, take_drop.
  - apply take_while_all.
  - apply is_empty_false. now destruct (is_empty (take_while is_digit l)).
  - apply take_while_all.
  - exact Hsp.
Qed.

Lemma integer_pattern_match s w1 ds w2 :
  integer_pattern s w1 ds w2 -> match_integer s = true.
Proof.
  intros (Hs & H1 & Hd & H2). unfold match_integer. rewrite Hs.
  rewrite (drop_while_app is_space w1 _ H1 (digits_stop_space ds w2 Hd)).
  destruct Hd as [Hne Hd].
  rewrite (take_while_app is_digit ds w2 Hd (blanks_stop_digit w2 H2)).
  rewrite (drop_while_app is_digit ds w2 Hd (blanks_stop_digit w2 H2)).
  apply is_empty_false in Hne. rewrite Hne. exact H2.
Qed.

(** [int] on text of the integer pattern. *)
Lemma integer_pattern_int s w1 ds w2 :
  integer_pattern s w1 ds w2 ->
  py_int (chars s) =
    if forallb is_int_space w1 && forallb is_int_space w2 && within_limit ds
    then Some (int_of_digits ds) else None.
Proof. intros (Hs & H1 & Hd & H2). rewrite Hs. now apply py_int_framed. Qed.

Lemma bare_integer_pattern s n :
  bare_integer s n ->
  exists w1 ds w2,
    integer_pattern s w1 ds w2 /\ plain_blanks w1 /\ plain_blanks w2 /\
    n = int_of_digits ds.
Proof.
  intros (w1 & ds & w2 & Hs & H1 & Hd & H2 & ->).
  exists w1, ds, w2. repeat split; auto using plain_blanks_blanks; apply Hd.
Qed.

(** A bare integer is text of the integer pattern, and [int] reads it as
    the integer it stands for, unless its digits are more than the limit. *)
Lemma match_integer_complete s n :
  bare_integer s n ->
  match_integer s = true /\
  (py_int (chars s) = Some n \/ py_int (chars s) = None).
Proof.
  intros H. destruct (bare_integer_pattern s n H) as (w1 & ds & w2 & Hp & H1 & H2 & ->).
  split; [exact (integer_pattern_match s w1 ds w2 Hp)|].
  rewrite (integer_pattern_int s w1 ds w2 Hp).
  unfold plain_blanks in H1, H2. rewrite H1, H2.
  destruct (within_limit ds); auto.
Qed.

(** Text of the integer pattern that [int] reads. *)
Lemma match_integer_read s n :
  match_integer s = true -> py_int (chars s) = Some n ->
  exists w1 ds w2,
    integer_pattern s w1 ds w2 /\ plain_blanks w1 /\ plain_blanks w2 /\ short ds /\
    n = int_of_digits ds.
Proof.
  intros Hm Hi. destruct (match_integer_shape s Hm) as (w1 & ds & w2 & Hp).
  rewrite (integer_pattern_int s w1 ds w2 Hp) in Hi.
  destruct (forallb is_int_space w1) eqn:E1; [|discriminate].
  destruct (forallb is_int_space w2) eqn:E2; [|discriminate].
  destruct (within_limit ds) eqn:E3; [|discriminate].
  injection Hi as <-. exists w1, ds, w2. repeat split; auto; apply Hp.
Qed.

(** Text of the integer pattern that [int] accepts is a bare integer. *)
Lemma match_integer_sound s n :
  match_integer s = true -> py_int (chars s) = Some n -> bare_integer s n.
Proof.
  intros Hm Hi.
  destruct (match_integer_read s n Hm Hi) as (w1 & ds & w2 & Hp & H1 & H2 & _ & ->).
  destruct Hp as (Hs & _ & Hd & _). exists w1, ds, w2. repeat split; auto; apply Hd.
Qed.

(** Text of the integer pattern is not text of the dice pattern: it has no
    letter. *)
Lemma match_integer_not_dice s cs ss ms :
  match_integer s = true -> ~ dice_pattern s cs ss ms.
Proof.
  intros Hm (w1 & d & w2 & Hs & H1 & Hd & _ & (Hc & _)).
  assert (Hdd : is_digit d = false) by (classes d).
  assert (Hds : is_space d = false) by (classes d).
  assert (Hstop1 : stops is_space (cs ++ d :: ss ++ modifier_chars ms ++ w2)).
  { destruct cs as [|c cs]; cbn; [exact Hds|].
    unfold all_digits in Hc. cbn in Hc. apply andb_prop in Hc.
    destruct Hc as [Hc _]. classes c. }
  unfold match_integer in Hm. rewrite Hs in Hm.
  rewrite (drop_while_app is_space w1 _ H1 Hstop1) in Hm.
  rewrite (drop_while_app is_digit cs (d :: ss ++ modifier_chars ms ++ w2) Hc Hdd) in Hm.
  cbn [all_chars forallb] in Hm. rewrite Hds in Hm.
  rewrite andb_false_r in Hm. discriminate.
Qed.

(** ** The dice pattern *)

Lemma modifier_stops cs ss ms w2 :
  groups cs ss ms -> blanks w2 -> stops is_digit (modifier_chars ms ++ w2).
Proof.
  intros (_ & _ & Hm) H2. destruct ms as [t|]; cbn [modifier_chars app].
  - destruct Hm as (sg & ds & -> & Hsg & _). cbn. classes sg.
  - now apply blanks_stop_digit.
Qed.

(** [int] on each group: it reads the group, with the value the group
    stands for, when its digits are no more than the limit. *)
Lemma groups_parse ct st mt :
  groups ct st mt ->
  (is_empty ct = false ->
   py_int ct = if within_limit ct then Some (count_of ct) else None) /\
  py_int st = (if within_limit st then Some (int_of_digits st) else None) /\
  (forall t, mt = Some t ->
     py_int t = if within_limit (modifier_digits mt)
                then Some (modifier_of mt) else None).
Proof.
  intros (Hc & Hs & Hm). repeat split.
  - intros Hne. unfold count_of. rewrite Hne. apply py_int_digits.
    split; [now apply is_empty_false|exact Hc].
  - now apply py_int_digits.
  - intros t ->. destruct Hm as (sg & ds & -> & Hsg & Hds).
    cbn [modifier_of modifier_digits]. now apply py_int_signed.
Qed.

Lemma match_dice_complete s cs ss ms :
  dice_pattern s cs ss ms ->
  match_integer s = false /\ match_dice s = Some (cs, ss, ms).
Proof.
  intros Hf. split.
  { destruct (match_integer s) eqn:Hm; [|reflexivity].
    exfalso. exact (match_integer_not_dice s cs ss ms Hm Hf). }
  destruct Hf as (w1 & d & w2 & Hs & H1 & Hd & H2 & Hg).
  pose proof (modifier_stops cs ss ms w2 Hg H2) as Hstop2.
  destruct Hg as (Hc & Hss & Hm).
  assert (Hdd : is_digit d = false) by (classes d).
  assert (Hds : is_space d = false) by (classes d).
  assert (Hstop1 : stops is_space (cs ++ d :: ss ++ modifier_chars ms ++ w2)).
  { destruct cs as [|c cs]; cbn; [exact Hds|].
    unfold all_digits in Hc. cbn in Hc. apply andb_prop in Hc.
    destruct Hc as [Hc _]. classes c. }
  unfold match_dice. rewrite Hs.
  rewrite (drop_while_app is_space w1 _ H1 Hstop1).
  rewrite (take_while_app is_digit cs (d :: ss ++ modifier_chars ms ++ w2) Hc Hdd).
  rewrite (drop_while_app is_digit cs (d :: ss ++ modifier_chars ms ++ w2) Hc Hdd).
  rewrite Hd.
  destruct Hss as [Hne Hss].
  rewrite (take_while_app is_digit ss (modifier_chars ms ++ w2) Hss Hstop2).
  rewrite (drop_while_app is_digit ss (modifier_chars ms ++ w2) Hss Hstop2).
  apply is_empty_false in Hne as Hne'. rewrite Hne'.
  destruct ms as [t|]; cbn [modifier_chars app].
  - destruct Hm as (sg & ds & -> & Hsg & Hds').
    cbn [app]. rewrite Hsg.
    destruct Hds' as [Hdne Hdd'].
    rewrite (take_while_app is_digit ds w2 Hdd' (blanks_stop_digit w2 H2)).
    rewrite (drop_while_app is_digit ds w2 Hdd' (blanks_stop_digit w2 H2)).
    apply is_empty_false in Hdne as Hdne'. rewrite Hdne'.
    unfold all_chars. unfold blanks in H2. rewrite H2. reflexivity.
  - destruct w2 as [|c w2]; [reflexivity|].
    assert (Hsg : is_sign c = false).
    { unfold blanks in H2. cbn in H2. apply andb_prop in H2.
      destruct H2 as [Hc2 _]. classes c. }
    rewrite Hsg. unfold all_chars. unfold blanks in H2. now rewrite H2.
Qed.

Lemma match_dice_sound s count_text sides_text modifier_text :
  match_dice s = Some (count_text, sides_text, modifier_text) ->
  dice_pattern s count_text sides_text modifier_text.
Proof.
  unfold match_dice, dice_pattern, groups.
  set (l := drop_while is_space (chars s)).
  assert (Hl : chars s = take_while is_space (chars s) ++ l)
    by (symmetry; apply take_drop).
  pose proof (take_drop is_digit l) as Hcs.
  destruct (drop_while is_digit l) as [|d l1] eqn:El1; [discriminate|].
  destruct (is_d d) eqn:Hd; [|discriminate].
  pose proof (take_drop is_digit l1) as Hss.
  destruct (is_empty (take_while is_digit l1)) eqn:Hne; [discriminate|].
  assert (Hdig : digits (take_while is_digit l1)).
  { split; [now apply is_empty_false|apply take_while_all]. }
  destruct (drop_while is_digit l1) as [|sg l3] eqn:El2.
  - intros [= <- <- <-].
    exists (take_while is_space (chars s)), d, [].
    cbn [modifier_chars app]. rewrite app_nil_r.
    repeat split; try apply take_while_all; try (now destruct Hdig).
    rewrite Hl at 1. f_equal. rewrite <- Hcs at 1. f_equal. f_equal.
    rewrite <- Hss at 1. now rewrite app_nil_r.
  - destruct (is_sign sg) eqn:Hsg.
    + pose proof (take_drop is_digit l3) as Hms.
      destruct (is_empty (take_while is_digit l3)) eqn:Hne3; [discriminate|].
      destruct (all_chars is_space (drop_while is_digit l3)) eqn:Hsp; [|discriminate].
      intros [= <- <- <-].
      assert (Hdig3 : digits (take_while is_digit l3)).
      { split; [now apply is_empty_false|apply take_while_all]. }
      exists (take_while is_space (chars s)), d, (drop_while is_digit l3).
      cbn [modifier_chars].
      repeat split; try apply take_while_all; try (now destruct Hdig); try exact Hsp.
      * rewrite Hl at 1. f_equal. rewrite <- Hcs at 1. f_equal. f_equal.
        rewrite <- Hss at 1. f_equal. cbn [app]. f_equal. now rewrite Hms.
      * exists sg, (take_while is_digit l3). repeat split; auto; apply Hdig3.
    + destruct (all_chars is_space (sg :: l3)) eqn:Hsp; [|discriminate].
      intros [= <- <- <-].
      exists (take_while is_space (chars s)), d, (sg :: l3).
      cbn [modifier_chars app].
      repeat split; try apply take_while_all; try (now destruct Hdig); try exact Hsp.
      rewrite Hl at 1. f_equal. rewrite <- Hcs at 1. f_equal. f_equal.
      rewrite <- Hss at 1. reflexivity.
Qed.

(** The groups of text of the dice pattern are determined by the text. *)
Lemma dice_pattern_groups s cs ss ms cs' ss' ms' :
  dice_pattern s cs ss ms -> dice_pattern s cs' ss' ms' ->
  cs' = cs /\ ss' = ss /\ ms' = ms.
Proof.
  intros H H'. apply match_dice_complete in H, H'.
  destruct H as [_ H], H' as [_ H']. rewrite H in H'. now injection H' as <- <- <-.
Qed.

End FormulaFacts.

(* ===================================================================== *)
(** * Properties of the dice ledger                                       *)
(* ===================================================================== *)

Lemma sum_Z_bounds (M : Z) (rs : list Z) :
  List.Forall (fun r => 1 <= r <= M) rs ->
  Z.of_nat (length rs) <= sum_Z rs <= Z.of_nat (length rs) * M.
Proof.
  induction 1 as [|r rs Hr _ IH]; cbn [length sum_Z fold_right]; [lia|].
  fold (sum_Z rs). rewrite Nat2Z.inj_succ. nia.
Qed.

Section DiceProperties.
Context {R : PRNG}.

Lemma with_rng_same sess : with_rng sess (rng sess) = sess.
Proof. now destruct sess. Qed.

Lemma roll_dice_runs (n : nat) (sides : Z) (sess : SessionState) :
  exists rs g, roll_dice n sides sess = (Ok rs, with_rng sess g) /\ length rs = n /\
    (randint_in_range R -> 1 <= sides -> List.Forall (fun r => 1 <= r <= sides) rs).
Proof.
  revert sess. induction n as [|n IH]; intros sess.
  - exists [], (rng sess). cbn. rewrite with_rng_same. repeat split. constructor.
  - cbn [roll_dice]. unfold bind at 1. unfold randint at 1.
    destruct (next_randint 1 sides (rng sess)) as [r g] eqn:Er.
    fold (with_rng sess g).
    destruct (IH (with_rng sess g)) as (rs & g' & Hrun & Hlen & Hrange).
    unfold bind at 1. rewrite Hrun. cbn.
    exists (r :: rs), g'. repeat split; [cbn; congruence|].
    intros HR Hs. constructor; [|auto].
    pose proof (HR 1 sides (rng sess) Hs) as Hb. now rewrite Er in Hb.
Qed.

Lemma to_int_ok t n sess : Text.py_int t = Some n -> to_int t sess = (Ok n, sess).
Proof. unfold to_int. now intros ->. Qed.

Lemma to_int_raises t sess :
  Text.py_int t = None -> to_int t sess = (Raise (int_error t), sess).
Proof. unfold to_int. now intros ->. Qed.

Lemma int_error_is_value_error t : is_value_error (int_error t).
Proof.
  unfold int_error, exceeds_limit, invalid_literal, is_value_error.
  destruct (_ && _); eauto.
Qed.

Lemma rejection_is_value_error s : is_value_error (rejection s).
Proof.
  unfold rejection.
  destruct (Pattern.match_integer s); [apply int_error_is_value_error|].
  destruct (Pattern.match_dice s) as [[[ct st] mt]|]; [|unfold invalid_dice, is_value_error; eauto].
  repeat match goal with
         | |- context [if ?b then _ else _] => destruct b
         end; try apply int_error_is_value_error.
  unfold invalid_dice, is_value_error; eauto.
Qed.

(** [roll] on text of the integer pattern. *)
Lemma roll_integer_pattern s lbl sess :
  Pattern.match_integer s = true ->
  roll s lbl sess =
    match Text.py_int (Text.chars s) with
    | Some n =>
        (Ok n, logged sess {| formula := Text.str_of_Z n; result := n; rolls := [];
                              modifier := 0; label := lbl |} (rng sess))
    | None => (Raise (rejection s), sess)
    end.
Proof.
  intros Hm. unfold roll, rejection. rewrite Hm. unfold bind at 1, to_int.
  destruct (Text.py_int (Text.chars s)); reflexivity.
Qed.

(** [roll] on text of the dice pattern: [int] reads the three groups, when
    none has more digits than the limit. *)
Lemma roll_dice_pattern s lbl sess ct st mt :
  Pattern.match_integer s = false ->
  Pattern.match_dice s = Some (ct, st, mt) ->
  roll s lbl sess =
    if Text.within_limit ct && Text.within_limit st
       && Text.within_limit (Formula.modifier_digits mt)
    then
      (if (Formula.count_of ct <=? 0) || (Text.int_of_digits st <=? 0)
       then raise (invalid_dice s)
       else
         do rs <- roll_dice (Z.to_nat (Formula.count_of ct)) (Text.int_of_digits st);
         let total := sum_Z rs + Formula.modifier_of mt in
         run _log_roll (Text.strip s) total rs (Formula.modifier_of mt) lbl;
         ret total) sess
    else (Raise (rejection s), sess).
Proof.
  intros Hint Hd. unfold roll, rejection. rewrite Hint, Hd.
  pose proof (FormulaFacts.match_dice_sound _ _ _ _ Hd) as (w1 & d & w2 & _ & _ & _ & _ & Hg).
  destruct (FormulaFacts.groups_parse _ _ _ Hg) as (Hc & Hs & Hm).
  destruct (Text.within_limit ct) eqn:Ec; cbn [andb negb].
  - assert (Hcount : (if Text.is_empty ct then ret 1 else to_int ct) sess
                     = (Ok (Formula.count_of ct), sess)).
    { unfold Formula.count_of in *. destruct (Text.is_empty ct); [reflexivity|].
      now apply to_int_ok, Hc. }
    unfold bind at 1. rewrite Hcount.
    destruct (Text.within_limit st) eqn:Es; cbn [andb negb].
    + unfold bind at 1. rewrite (to_int_ok st _ sess Hs).
      destruct (Text.within_limit (Formula.modifier_digits mt)) eqn:Em; cbn [negb].
      * assert (Hmod : match mt with Some t => to_int t | None => ret 0 end sess
                       = (Ok (Formula.modifier_of mt), sess)).
        { destruct mt as [t|]; [now apply to_int_ok, Hm|reflexivity]. }
        unfold bind at 1. rewrite Hmod. reflexivity.
      * destruct mt as [t|]; [|discriminate].
        unfold bind at 1. now rewrite (to_int_raises t sess (Hm t eq_refl)).
    + unfold bind at 1. now rewrite (to_int_raises st sess Hs).
  - destruct (Text.is_empty ct) eqn:He.
    + apply FormulaFacts.is_empty_spec in He. subst ct. discriminate.
    + unfold bind at 1. now rewrite (to_int_raises ct sess (Hc eq_refl)).
Qed.

(** [roll] on a bare integer: it returns the integer, unless the digits are
    more than the limit. *)
Lemma roll_integer s lbl sess n :
  Formula.bare_integer s n ->
  roll s lbl sess =
    (Ok n, logged sess {| formula := Text.str_of_Z n; result := n; rolls := [];
                          modifier := 0; label := lbl |} (rng sess))
  \/ roll s lbl sess = (Raise (rejection s), sess).
Proof.
  intros H. apply FormulaFacts.match_integer_complete in H. destruct H as [Hm [Hn|Hn]];
    rewrite (roll_integer_pattern s lbl sess Hm), Hn; auto.
Qed.

(** [roll] on digits between blanks that [int] reads. *)
Lemma roll_integer_groups s lbl sess w1 ds w2 :
  Formula.integer_pattern s w1 ds w2 ->
  Formula.plain_blanks w1 -> Formula.plain_blanks w2 -> Formula.short ds ->
  roll s lbl sess =
    (Ok (Text.int_of_digits ds),
     logged sess {| formula := Text.str_of_Z (Text.int_of_digits ds);
                    result := Text.int_of_digits ds; rolls := [];
                    modifier := 0; label := lbl |} (rng sess)).
Proof.
  intros Hp H1 H2 H3.
  rewrite (roll_integer_pattern s lbl sess (FormulaFacts.integer_pattern_match _ _ _ _ Hp)).
  rewrite (FormulaFacts.integer_pattern_int s w1 ds w2 Hp).
  unfold Formula.plain_blanks, Formula.short in *. now rewrite H1, H2, H3.
Qed.

Lemma roll_dice_groups s lbl sess cs ss ms :
  Formula.dice_pattern s cs ss ms -> Formula.numerals_short cs ss ms ->
  1 <= Formula.count_of cs -> 1 <= Text.int_of_digits ss ->
  exists rs g,
    roll s lbl sess =
      (Ok (sum_Z rs + Formula.modifier_of ms),
       logged sess {| formula := Text.strip s; result := sum_Z rs + Formula.modifier_of ms;
                      rolls := rs; modifier := Formula.modifier_of ms; label := lbl |} g) /\
    Z.of_nat (length rs) = Formula.count_of cs /\
    (randint_in_range R -> List.Forall (fun r => 1 <= r <= Text.int_of_digits ss) rs).
Proof.
  intros Hp (Hc & Hs & Hm) HN HM. apply FormulaFacts.match_dice_complete in Hp.
  destruct Hp as (Hint & Hd).
  rewrite (roll_dice_pattern s lbl sess cs ss ms Hint Hd).
  unfold Formula.short in *. rewrite Hc, Hs, Hm. cbn [andb].
  replace ((Formula.count_of cs <=? 0) || (Text.int_of_digits ss <=? 0)) with false
    by (symmetry; apply orb_false_intro; apply Z.leb_gt; lia).
  destruct (roll_dice_runs (Z.to_nat (Formula.count_of cs)) (Text.int_of_digits ss) sess)
    as (rs & g & Hrun & Hlen & Hrange).
  exists rs, g. split; [|split].
  - unfold bind at 1. rewrite Hrun. reflexivity.
  - rewrite Hlen. lia.
  - intros HR. now apply Hrange.
Qed.

Lemma roll_dice_formula s lbl sess N M K :
  Formula.dice_formula s N M K -> 1 <= N -> 1 <= M ->
  exists rs g,
    roll s lbl sess =
      (Ok (sum_Z rs + K),
       logged sess {| formula := Text.strip s; result := sum_Z rs + K; rolls := rs;
                      modifier := K; label := lbl |} g) /\
    Z.of_nat (length rs) = N /\
    (randint_in_range R -> List.Forall (fun r => 1 <= r <= M) rs).
Proof.
  intros (cs & ss & ms & Hp & Hshort & -> & -> & ->) HN HM.
  now apply roll_dice_groups.
Qed.

Lemma roll_raises s lbl sess e sess' :
  roll s lbl sess = (Raise e, sess') <-> rejected s /\ e = rejection s /\ sess' = sess.
Proof.
  split.
  - destruct (Pattern.match_integer s) eqn:Hint.
    + rewrite (roll_integer_pattern s lbl sess Hint).
      destruct (Text.py_int (Text.chars s)) as [n|] eqn:Hn; [discriminate|].
      intros [= <- <-]. repeat split. right. left.
      destruct (FormulaFacts.match_integer_shape s Hint) as (w1 & ds & w2 & Hp).
      exists w1, ds, w2. split; [exact Hp|]. intros (H1 & H2 & H3).
      rewrite (FormulaFacts.integer_pattern_int s w1 ds w2 Hp) in Hn.
      unfold Formula.plain_blanks, Formula.short in *. rewrite H1, H2, H3 in Hn.
      discriminate.
    + destruct (Pattern.match_dice s) as [[[ct st] mt]|] eqn:Hd.
      * rewrite (roll_dice_pattern s lbl sess ct st mt Hint Hd).
        pose proof (FormulaFacts.match_dice_sound _ _ _ _ Hd) as Hp.
        destruct (Text.within_limit ct && Text.within_limit st
                  && Text.within_limit (Formula.modifier_digits mt)) eqn:Hlim.
        -- destruct ((Formula.count_of ct <=? 0) || (Text.int_of_digits st <=? 0)) eqn:Hle.
           ++ intros [= <- <-]. repeat split.
              ** right. right. exists ct, st, mt. split; [exact Hp|]. right.
                 apply orb_prop in Hle. destruct Hle as [H|H]; apply Z.leb_le in H; auto.
              ** unfold rejection. rewrite Hint, Hd.
                 apply andb_prop in Hlim. destruct Hlim as [Hlim ->].
                 apply andb_prop in Hlim. destruct Hlim as [-> ->]. reflexivity.
           ++ destruct (roll_dice_runs (Z.to_nat (Formula.count_of ct))
                          (Text.int_of_digits st) sess) as (rs & g & Hrun & _).
              unfold bind at 1. rewrite Hrun. discriminate.
        -- intros [= <- <-]. repeat split.
           right. right. exists ct, st, mt. split; [exact Hp|]. left.
           intros (H1 & H2 & H3). unfold Formula.short in *.
           rewrite H1, H2, H3 in Hlim. discriminate.
      * unfold roll. rewrite Hint, Hd. intros [= <- <-]. repeat split.
        -- left. split.
           ++ intros w1 ds w2 Hp. apply FormulaFacts.integer_pattern_match in Hp. congruence.
           ++ intros cs ss ms Hp. apply FormulaFacts.match_dice_complete in Hp.
              destruct Hp as [_ Hp]. congruence.
        -- unfold rejection. now rewrite Hint, Hd.
  - intros (Hbad & -> & ->).
    destruct Hbad as [[Hni Hnd]|[(w1 & ds & w2 & Hp & Hno)|(cs & ss & ms & Hp & Hno)]].
    + destruct (Pattern.match_integer s) eqn:Hint.
      { destruct (FormulaFacts.match_integer_shape s Hint) as (w1 & ds & w2 & Hp).
        now apply Hni in Hp. }
      destruct (Pattern.match_dice s) as [[[ct st] mt]|] eqn:Hd.
      { apply FormulaFacts.match_dice_sound in Hd. now apply Hnd in Hd. }
      unfold roll, rejection. now rewrite Hint, Hd.
    + pose proof (FormulaFacts.integer_pattern_match s w1 ds w2 Hp) as Hint.
      rewrite (roll_integer_pattern s lbl sess Hint).
      rewrite (FormulaFacts.integer_pattern_int s w1 ds w2 Hp).
      destruct (forallb Text.is_int_space w1) eqn:E1; [|reflexivity].
      destruct (forallb Text.is_int_space w2) eqn:E2; [|reflexivity].
      destruct (Text.within_limit ds) eqn:E3; [|reflexivity].
      exfalso. apply Hno. repeat split; assumption.
    + apply FormulaFacts.match_dice_complete in Hp. destruct Hp as (Hint & Hd).
      rewrite (roll_dice_pattern s lbl sess cs ss ms Hint Hd).
      destruct (Text.within_limit cs && Text.within_limit ss
                && Text.within_limit (Formula.modifier_digits ms)) eqn:Hlim; [|reflexivity].
      apply andb_prop in Hlim. destruct Hlim as [Hlim H3].
      apply andb_prop in Hlim. destruct Hlim as [H1 H2].
      destruct Hno as [Hno|Hle]; [exfalso; apply Hno; repeat split; assumption|].
      replace ((Formula.count_of cs <=? 0) || (Text.int_of_digits ss <=? 0)) with true.
      * unfold rejection. rewrite Hint, Hd, H1, H2, H3. reflexivity.
      * symmetry. apply orb_true_intro.
        destruct Hle as [H|H]; [left|right]; now apply Z.leb_le.
Qed.

(** Digits behind a separator that the integer pattern lets through and
    [int] does not: [roll] raises the [ValueError] of [int] and the session
    stays as it was. *)
Example roll_unit_separator (lbl : option string) (sess : SessionState) :
  Pattern.match_integer (String "031" "5") = true /\
  roll (String "031" "5") lbl sess =
    (Raise (ValueError "invalid literal for int() with base 10: '\x1f5'"), sess).
Proof. split; reflexivity. Qed.

(** C7. Dice-roll contract, as the code has it.  With a generator whose
    [randint] respects its range: on digits between optional blanks that
    [int] reads (blanks that [int] skips, no more digits than the limit of
    4300), [roll] returns the integer that the digits stand for and appends
    exactly one ledger entry; on text of the dice pattern N d M with
    optional signed modifier K whose numerals have no more digits than the
    limit, with N >= 1 and M >= 1, it returns a total between N*1+K and
    N*M+K and appends exactly one entry (the N component dice, the modifier
    K, the total); it raises exactly when the string matches neither
    pattern, or matches the integer pattern with a blank that [int] does
    not skip or with more digits than the limit, or matches the dice
    pattern with a numeral of more digits than the limit or with N <= 0 or
    M <= 0; and whenever it raises, it raises a [ValueError] and leaves the
    session as it was. *)
Theorem roll_contract (s : string) (lbl : option string) (sess : SessionState) :
  randint_in_range R ->
  (forall w1 ds w2,
     Formula.integer_pattern s w1 ds w2 ->
     Formula.plain_blanks w1 -> Formula.plain_blanks w2 -> Formula.short ds ->
     let n := Text.int_of_digits ds in
     0 <= n /\
     roll s lbl sess =
       (Ok n, logged sess {| formula := Text.str_of_Z n; result := n; rolls := [];
                             modifier := 0; label := lbl |} (rng sess)))
  /\
  (forall cs ss ms,
     Formula.dice_pattern s cs ss ms -> Formula.numerals_short cs ss ms ->
     let N := Formula.count_of cs in
     let M := Text.int_of_digits ss in
     let K := Formula.modifier_of ms in
     1 <= N -> 1 <= M ->
     exists total rs g,
       roll s lbl sess =
         (Ok total,
          logged sess {| formula := Text.strip s; result := total; rolls := rs;
                         modifier := K; label := lbl |} g) /\
       total = sum_Z rs + K /\ Z.of_nat (length rs) = N /\
       N * 1 + K <= total <= N * M + K)
  /\
  ((exists e sess', roll s lbl sess = (Raise e, sess')) <-> rejected s)
  /\
  (forall e sess',
     roll s lbl sess = (Raise e, sess') -> is_value_error e /\ sess' = sess).
Proof.
  intros HR. split; [|split; [|split]].
  - intros w1 ds w2 Hp H1 H2 H3 n. split.
    + destruct Hp as (_ & _ & [_ Hd] & _). now apply FormulaFacts.int_of_digits_nonneg.
    + now apply roll_integer_groups with w1 w2.
  - intros cs ss ms Hp Hshort N M K HN HM.
    destruct (roll_dice_groups s lbl sess cs ss ms Hp Hshort HN HM)
      as (rs & g & Hrun & Hlen & Hrange).
    exists (sum_Z rs + K), rs, g. repeat split; auto;
      pose proof (sum_Z_bounds M rs (Hrange HR)); nia.
  - split.
    + intros (e & sess' & H). now apply roll_raises in H.
    + intros H. exists (rejection s), sess. apply roll_raises. auto.
  - intros e sess' H. apply roll_raises in H. destruct H as (_ & -> & ->).
    split; [apply rejection_is_value_error|reflexivity].
Qed.

End DiceProperties.

(* ===================================================================== *)
(** * Properties of the status ledger                                     *)
(* ===================================================================== *)

Module DictFacts.
Section DictFacts.
Context {V : Type}.
Implicit Types (d : Dict.t V) (k : string) (v : V).

Lemma get_set_eq k v d : Dict.get k (Dict.set k v d) = Some v.
Proof.
  induction d as [|[k' v'] d IH]; cbn.
  - now rewrite String.eqb_refl.
  - destruct (String.eqb k k') eqn:E; cbn; rewrite E; auto.
Qed.

Lemma get_set_ne k k' v d : k <> k' -> Dict.get k' (Dict.set k v d) = Dict.get k' d.
Proof.
  intros Hne. induction d as [|[k0 v0] d IH]; cbn.
  - destruct (String.eqb_spec k' k); congruence.
  - destruct (String.eqb_spec k k0) as [->|]; cbn.
    + destruct (String.eqb_spec k' k0); congruence.
    + destruct (String.eqb_spec k' k0); congruence.
Qed.

Lemma set_set k v1 v2 d : Dict.set k v2 (Dict.set k v1 d) = Dict.set k v2 d.
Proof.
  induction d as [|[k' v'] d IH]; cbn.
  - now rewrite String.eqb_refl.
  - destruct (String.eqb k k') eqn:E; cbn; rewrite E; congruence.
Qed.

Lemma get_In k v d : Dict.get k d = Some v -> In (k, v) d.
Proof.
  induction d as [|[k' v'] d IH]; cbn; [discriminate|].
  destruct (String.eqb_spec k k') as [->|].
  - intros [= ->]. now left.
  - intros H. right. auto.
Qed.

Lemma get_None k d : ~ In k (Dict.keys d) -> Dict.get k d = None.
Proof.
  induction d as [|[k' v'] d IH]; cbn; [reflexivity|].
  intros H. destruct (String.eqb_spec k k') as [->|]; [tauto|]. apply IH. tauto.
Qed.

Lemma In_get k v d : List.NoDup (Dict.keys d) -> In (k, v) d -> Dict.get k d = Some v.
Proof.
  induction d as [|[k' v'] d IH]; cbn; [tauto|].
  intros Hnd [H|H].
  - injection H as -> ->. now rewrite String.eqb_refl.
  - apply List.NoDup_cons_iff in Hnd. destruct Hnd as [Hk Hnd].
    destruct (String.eqb_spec k k') as [->|]; [|auto].
    exfalso. apply Hk. change k' with (fst (k', v)). now apply in_map.
Qed.

(** Writing a key of the tail whose head part does not hold it. *)
Lemma set_app k v v0 d1 d2 :
  ~ In k (Dict.keys d1) ->
  Dict.set k v (d1 ++ (k, v0) :: d2) = d1 ++ (k, v) :: d2.
Proof.
  induction d1 as [|[k' v'] d1 IH]; cbn; intros H.
  - now rewrite String.eqb_refl.
  - destruct (String.eqb_spec k k') as [->|]; [tauto|]. f_equal. apply IH. tauto.
Qed.

Lemma pop_app k v0 d1 d2 :
  ~ In k (Dict.keys d1) ->
  Dict.pop k (d1 ++ (k, v0) :: d2) = d1 ++ d2.
Proof.
  induction d1 as [|[k' v'] d1 IH]; cbn; intros H.
  - now rewrite String.eqb_refl.
  - destruct (String.eqb_spec k k') as [->|]; [tauto|]. f_equal. apply IH. tauto.
Qed.

Lemma keys_set k v d x :
  In x (Dict.keys (Dict.set k v d)) -> x = k \/ In x (Dict.keys d).
Proof.
  induction d as [|[k' v'] d IH]; cbn; [intuition congruence|].
  destruct (String.eqb k k'); cbn; tauto.
Qed.

Lemma set_NoDup k v d :
  List.NoDup (Dict.keys d) -> List.NoDup (Dict.keys (Dict.set k v d)).
Proof.
  induction d as [|[k' v'] d IH]; cbn; intros Hnd.
  - constructor; [intros []|constructor].
  - destruct (String.eqb_spec k k') as [->|Hne]; cbn; [exact Hnd|].
    apply List.NoDup_cons_iff in Hnd. destruct Hnd as [Hk Hnd].
    apply List.NoDup_cons_iff. split; [|auto].
    intros H. apply keys_set in H. destruct H as [H|H]; [congruence|exact (Hk H)].
Qed.

Lemma set_Forall (P : string * V -> Prop) k v d :
  List.Forall P d -> P (k, v) -> List.Forall P (Dict.set k v d).
Proof.
  induction d as [|[k' v'] d IH]; cbn; intros HF HP.
  - repeat constructor. exact HP.
  - apply List.Forall_cons_iff in HF. destruct HF as [H0 HF].
    destruct (String.eqb_spec k k') as [<-|]; constructor; auto.
Qed.

Lemma set_same k v d : Dict.get k d = Some v -> Dict.set k v d = d.
Proof.
  induction d as [|[k' v'] d IH]; cbn; [discriminate|].
  destruct (String.eqb_spec k k') as [->|]; [now intros [= ->]|].
  intros H. f_equal. auto.
Qed.

Lemma set_absent k v d : Dict.get k d = None -> Dict.set k v d = d ++ [(k, v)].
Proof.
  induction d as [|[k' v'] d IH]; cbn; [reflexivity|].
  destruct (String.eqb_spec k k') as [->|]; [discriminate|].
  intros H. f_equal. auto.
Qed.

End DictFacts.
End DictFacts.

Lemma normalize_canonical name : canonical name -> normalize_status name = Ok name.
Proof.
  unfold canonical. cbn. intros H.
  repeat (destruct H as [<-|H]; [reflexivity|]). destruct H.
Qed.

Lemma normalize_is_canonical name c : normalize_status name = Ok c -> canonical c.
Proof.
  unfold normalize_status.
  destruct (Dict.get _ STATUS_CANONICAL) as [c'|] eqn:E; [|discriminate].
  intros [= <-]. apply DictFacts.get_In in E.
  unfold canonical, canonical_names. change c' with (snd (Text.lower (Text.strip name), c')).
  now apply in_map.
Qed.

Lemma valid_ledger_get L name e :
  valid_ledger L -> Dict.get name L = Some e -> canonical name /\ valid_entry e.
Proof.
  intros [_ HF] Hg. apply DictFacts.get_In in Hg.
  rewrite List.Forall_forall in HF. exact (HF _ Hg).
Qed.

(** ** Applying a status *)

Lemma apply_status_twice L name lvl dur :
  (forall c e, normalize_status name = Ok c -> Dict.get c L = Some e -> 0 <= stacks e) ->
  and_then (apply_status L name 1 lvl dur)
           (fun L1 => apply_status L1 name 1 lvl dur)
  = apply_status L name 2 lvl dur.
Proof.
  intros Hst. unfold apply_status.
  destruct (normalize_status name) as [c|err] eqn:Hn; [|reflexivity].
  cbn [and_then]. rewrite DictFacts.get_set_eq, DictFacts.set_set. cbn.
  assert (H0 : 0 <= stacks match Dict.get c L with
                           | Some e => e
                           | None => {| stacks := 0; level := 0; duration := None |}
                           end).
  { destruct (Dict.get c L) as [e|] eqn:Hg; [eauto|cbn; lia]. }
  set (entry := match Dict.get c L with Some e => e | None => _ end) in *.
  do 2 f_equal. f_equal.
  - lia.
  - lia.
  - destruct (match dur with None => default_duration c | Some d => Some d end) as [d|];
      [|reflexivity].
    destruct (duration entry) as [ex|]; f_equal; lia.
Qed.

Lemma apply_status_merge L name st lvl dur L' c e :
  apply_status L name st lvl dur = Ok L' ->
  normalize_status name = Ok c ->
  Dict.get c L = Some e ->
  Dict.get c L' =
    Some {| stacks := Z.max 1 (stacks e + st);
            level := Z.max (level e) lvl;
            duration := match given_or_default c dur, duration e with
                        | Some d, Some x => Some (Z.max x d)
                        | Some d, None => Some d
                        | None, existing => existing
                        end |}.
Proof.
  unfold apply_status, given_or_default. intros H Hn Hg. rewrite Hn, Hg in H.
  injection H as <-. now rewrite DictFacts.get_set_eq.
Qed.

(** C6. Status apply algebra, as the code has it: on a ledger that respects
    the entry invariants, applying a status twice with stacks = 1 gives the
    same ledger as applying it once with stacks = 2 (same level and duration
    arguments); and any application to an existing entry adds the stacks
    (a non-negative number of them), takes the max of the levels, so that
    the level never decreases, and
    takes as duration the max of the existing and the given-or-default one
    when the existing one is a number, so that a numeric duration stays
    numeric and never decreases; an entry held indefinitely (duration None)
    takes the given-or-default duration when there is one. *)
Theorem apply_status_algebra (L : Ledger) (name : string) (lvl : Z) (dur : option Z) :
  valid_ledger L ->
  and_then (apply_status L name 1 lvl dur)
           (fun L1 => apply_status L1 name 1 lvl dur)
  = apply_status L name 2 lvl dur
  /\
  (forall st lvl' dur' L' c e,
      apply_status L name st lvl' dur' = Ok L' ->
      normalize_status name = Ok c ->
      Dict.get c L = Some e ->
      exists e', Dict.get c L' = Some e' /\
                 (0 <= st -> stacks e' = stacks e + st) /\
                 level e' = Z.max (level e) lvl' /\
                 level e <= level e' /\
                 match duration e with
                 | Some x =>
                     duration e' =
                       Some (match given_or_default c dur' with
                             | Some d => Z.max x d
                             | None => x
                             end) /\
                     duration_le (duration e) (duration e')
                 | None => duration e' = given_or_default c dur'
                 end).
Proof.
  intros Hv. split.
  - apply apply_status_twice. intros c e _ Hg.
    destruct (valid_ledger_get _ _ _ Hv Hg) as [_ [Hs _]]. lia.
  - intros st lvl' dur' L' c e H Hn Hg.
    destruct (valid_ledger_get _ _ _ Hv Hg) as [_ [Hs _]].
    rewrite (apply_status_merge _ _ _ _ _ _ _ _ H Hn Hg).
    eexists. split; [reflexivity|]. cbn [stacks level duration].
    repeat split; try lia.
    destruct (duration e) as [x|]; destruct (given_or_default c dur') as [d|];
      cbn; repeat split; try reflexivity; lia.
Qed.

(** The entry invariants hold of what an application with a level of at
    least 1 leaves. *)
Lemma apply_status_keeps_valid L name st lvl dur L' :
  valid_ledger L -> 1 <= lvl ->
  apply_status L name st lvl dur = Ok L' ->
  valid_ledger L'.
Proof.
  intros [Hnd HF] Hlvl H. unfold apply_status in H.
  destruct (normalize_status name) as [c|err] eqn:Hn; [|discriminate].
  injection H as <-. split.
  - now apply DictFacts.set_NoDup.
  - apply DictFacts.set_Forall; [exact HF|]. cbn. split.
    + exact (normalize_is_canonical name c Hn).
    + split; cbn; lia.
Qed.

(** Counterexample to C6 as stated, an effect held indefinitely: applying
    Concentration with a duration of 2 to a ledger that holds it with
    duration None leaves it with 2 ticks, where it had no end. *)
Lemma apply_status_shortens_indefinite :
  valid_ledger indefinite_ledger /\
  Dict.get "Concentration" indefinite_ledger
    = Some {| stacks := 1; level := 1; duration := None |} /\
  apply_status indefinite_ledger "Concentration" 1 1 (Some 2)
    = Ok [ ("Concentration"%string,
            {| stacks := 2; level := 1; duration := Some 2 |}) ] /\
  ~ duration_le None (Some 2).
Proof.
  split; [|split; [reflexivity|split; [reflexivity|intros H; exact H]]].
  split.
  - repeat constructor; cbn; intuition discriminate.
  - repeat constructor; cbn; auto 20; lia.
Qed.

(** ** Ticking *)

Lemma tick_item_canonical tick_key name e updated hp_delta expired :
  canonical name ->
  tick_item tick_key name e (updated, hp_delta, expired) =
  Ok (match entry_after tick_key name e with
      | Some e' => Dict.set name e' updated
      | None => Dict.pop name updated
      end,
      hp_delta - entry_damage tick_key name e,
      expired ++ match entry_after tick_key name e with
                 | Some _ => []
                 | None => [name]
                 end).
Proof.
  intros Hc. unfold tick_item, entry_after, entry_damage.
  rewrite (normalize_canonical _ Hc).
  destruct (String.eqb tick_key "turn") eqn:Ht.
  - assert (Hd : String.eqb tick_key "day" = false).
    { apply String.eqb_eq in Ht. now subst. }
    rewrite Hd, !andb_false_r, !andb_true_r.
    destruct (String.eqb name "Bleeding"); [|
    destruct (String.eqb name "Ignited"); [|
    destruct (String.eqb name "Asphyxiation"); [|
    destruct (String.eqb name "Toxin")]]];
      cbn; destruct (duration e) as [d|]; try destruct (d - 1 <=? 0);
      rewrite ?app_nil_r, ?Z.sub_0_r; try reflexivity; destruct e; reflexivity.
  - rewrite !andb_false_r.
    destruct (String.eqb name "Disease" && String.eqb tick_key "day");
      cbn; destruct (duration e) as [d|];
      rewrite ?app_nil_r, ?Z.sub_0_r; reflexivity.
Qed.

Lemma keys_entries_after tick_key L name :
  In name (Dict.keys (entries_after tick_key L)) -> In name (Dict.keys L).
Proof.
  induction L as [|[n e] L IH]; cbn; [tauto|].
  unfold Dict.keys in *. rewrite map_app, in_app_iff.
  destruct (entry_after tick_key n e); cbn; tauto.
Qed.

Lemma tick_loop_valid tick_key (items done : Ledger) hp_delta expired :
  List.NoDup (Dict.keys (done ++ items)) ->
  List.Forall (fun item => canonical (fst item)) items ->
  tick_loop tick_key items (done ++ items, hp_delta, expired) =
  Ok (done ++ entries_after tick_key items,
      hp_delta - total_damage tick_key items,
      expired ++ expired_names tick_key items).
Proof.
  revert done hp_delta expired.
  induction items as [|[name e] items IH]; intros done hp_delta expired Hnd Hc.
  - cbn. unfold total_damage. cbn. now rewrite Z.sub_0_r, !app_nil_r.
  - cbn [tick_loop].
    apply List.Forall_cons_iff in Hc. destruct Hc as [Hname Hc]. cbn [fst] in Hname.
    rewrite (tick_item_canonical _ _ _ _ _ _ Hname).
    assert (Hfresh : ~ In name (Dict.keys done)).
    { unfold Dict.keys in *. rewrite map_app in Hnd. cbn in Hnd.
      apply List.NoDup_remove_2 in Hnd. rewrite in_app_iff in Hnd. tauto. }
    assert (Hnd' : List.NoDup (Dict.keys (done ++ items))).
    { unfold Dict.keys in *. rewrite map_app in *. cbn in Hnd.
      now apply List.NoDup_remove_1 in Hnd. }
    unfold total_damage, entries_after, expired_names. cbn [flat_map map sum_Z fold_right].
    fold (entries_after tick_key items). fold (expired_names tick_key items).
    change (fold_right Z.add 0 (map (fun '(name, e) => entry_damage tick_key name e) items))
      with (total_damage tick_key items).
    destruct (entry_after tick_key name e) as [e'|] eqn:He.
    + rewrite (DictFacts.set_app _ _ _ _ _ Hfresh).
      replace (done ++ (name, e') :: items) with ((done ++ [(name, e')]) ++ items)
        by now rewrite <- app_assoc.
      rewrite IH; auto.
      * rewrite app_nil_r, <- app_assoc. cbn [app]. do 2 f_equal. f_equal. lia.
      * unfold Dict.keys in *. rewrite !map_app in *. cbn. rewrite <- app_assoc. exact Hnd.
    + rewrite (DictFacts.pop_app _ _ _ _ Hfresh).
      rewrite IH; auto.
      rewrite <- app_assoc. cbn [app]. do 2 f_equal. f_equal. lia.
Qed.

Lemma tick_statuses_valid L tick_type :
  valid_ledger L ->
  tick_statuses L tick_type =
  Ok (entries_after (Text.lower (Text.strip tick_type)) L,
      - total_damage (Text.lower (Text.strip tick_type)) L,
      expired_names (Text.lower (Text.strip tick_type)) L).
Proof.
  intros [Hnd HF]. unfold tick_statuses.
  pose proof (tick_loop_valid (Text.lower (Text.strip tick_type)) L [] 0 []) as H.
  apply H; [exact Hnd|].
  eapply List.Forall_impl; [|exact HF]. cbn. tauto.
Qed.

Lemma entry_damage_nonneg tick_key name e : 0 <= entry_damage tick_key name e.
Proof.
  unfold entry_damage.
  repeat match goal with |- context [if ?b then _ else _] => destruct b end; nia.
Qed.

Lemma total_damage_nonneg tick_key L : 0 <= total_damage tick_key L.
Proof.
  unfold total_damage. induction L as [|[n e] L IH]; cbn; [lia|].
  pose proof (entry_damage_nonneg tick_key n e). fold sum_Z in *. unfold sum_Z in *. lia.
Qed.

Lemma get_entries_after tick_key L name e :
  List.NoDup (Dict.keys L) ->
  Dict.get name L = Some e ->
  Dict.get name (entries_after tick_key L) = entry_after tick_key name e.
Proof.
  induction L as [|[n e0] L IH]; cbn; [discriminate|].
  intros Hnd. apply List.NoDup_cons_iff in Hnd. destruct Hnd as [Hn Hnd].
  destruct (String.eqb_spec name n) as [->|Hne].
  - intros [= ->]. destruct (entry_after tick_key n e) as [e'|]; cbn.
    + now rewrite String.eqb_refl.
    + apply DictFacts.get_None. intros H. now apply keys_entries_after in H.
  - intros Hg. destruct (entry_after tick_key n e0) as [e'|]; cbn.
    + destruct (String.eqb_spec name n); [congruence|auto].
    + auto.
Qed.

Lemma in_expired_names tick_key L name e :
  In (name, e) L -> entry_after tick_key name e = None ->
  In name (expired_names tick_key L).
Proof.
  intros Hin He. unfold expired_names. apply in_flat_map.
  exists (name, e). split; [exact Hin|]. rewrite He. now left.
Qed.

Lemma entry_damage_turn name e :
  valid_entry e -> entry_damage "turn" name e = turn_damage name e.
Proof.
  intros [Hs Hl]. unfold entry_damage, turn_damage. cbn [String.eqb Ascii.eqb].
  rewrite !andb_true_r, andb_false_r.
  rewrite !Z.max_r by lia. reflexivity.
Qed.

Lemma total_damage_turn L :
  valid_ledger L ->
  total_damage "turn" L = sum_Z (map (fun '(name, e) => turn_damage name e) L).
Proof.
  intros [_ HF]. unfold total_damage. induction L as [|[n e] L IH]; cbn; [reflexivity|].
  apply List.Forall_cons_iff in HF. destruct HF as [[_ He] HF]. cbn in He.
  rewrite (entry_damage_turn _ _ He). f_equal. now apply IH.
Qed.

(** The entry invariants hold of what a tick leaves. *)
Lemma tick_statuses_keeps_valid L tick_type L' hp_delta expired :
  valid_ledger L ->
  tick_statuses L tick_type = Ok (L', hp_delta, expired) ->
  valid_ledger L'.
Proof.
  intros Hv H. rewrite (tick_statuses_valid L tick_type Hv) in H.
  injection H as <- _ _. destruct Hv as [Hnd HF].
  set (tick_key := Text.lower (Text.strip tick_type)). split.
  - induction L as [|[n e] L IH]; cbn; [constructor|].
    cbn in Hnd. apply List.NoDup_cons_iff in Hnd. destruct Hnd as [Hn Hnd].
    apply List.Forall_cons_iff in HF. destruct HF as [_ HF].
    destruct (entry_after tick_key n e); cbn; [|auto].
    apply List.NoDup_cons_iff. split; [|auto].
    intros Hin. apply Hn. exact (keys_entries_after tick_key L n Hin).
  - clear Hnd. induction L as [|[n e] L IH]; cbn; [constructor|].
    apply List.Forall_cons_iff in HF. destruct HF as [[Hc [Hs Hl]] HF]. cbn in Hc, Hs, Hl.
    destruct (entry_after tick_key n e) as [e'|] eqn:He; cbn; [|auto].
    constructor; [|auto]. cbn. split; [exact Hc|].
    unfold entry_after in He. unfold valid_entry.
    destruct (String.eqb n "Disease" && String.eqb tick_key "day");
      destruct (duration e); try destruct (String.eqb tick_key "turn");
      try destruct (_ <=? 0); try discriminate;
      injection He as <-; cbn; lia.
Qed.

(** C5. Status tick postcondition.  On a ledger that respects the entry
    invariants, a "turn" tick returns: an HP delta equal to minus the sum,
    over the entries, of stacks*level for Bleeding, 2*level for Ignited and
    Asphyxiation and level for Toxin; every entry with a numeric duration d
    either decremented to d - 1 or, when d - 1 reaches 0, removed and named
    in the expired list.  For every tick type the HP delta is <= 0 and an
    entry with duration None is still in the ledger, with duration None. *)
Theorem tick_statuses_postcondition (L : Ledger) :
  valid_ledger L ->
  (exists L' expired,
      tick_statuses L "turn" =
        Ok (L', - sum_Z (map (fun '(name, e) => turn_damage name e) L), expired) /\
      forall name e, Dict.get name L = Some e ->
        match duration e with
        | Some d =>
            if d <=? 1 then Dict.get name L' = None /\ In name expired
            else Dict.get name L' =
                   Some {| stacks := stacks e; level := level e; duration := Some (d - 1) |}
        | None => Dict.get name L' = Some e /\ ~ In name expired
        end)
  /\
  (forall tick_type, exists L' hp_delta expired,
      tick_statuses L tick_type = Ok (L', hp_delta, expired) /\
      hp_delta <= 0 /\
      forall name e, Dict.get name L = Some e -> duration e = None ->
        exists e', Dict.get name L' = Some e' /\ duration e' = None).
Proof.
  intros Hv. split.
  - exists (entries_after "turn" L), (expired_names "turn" L). split.
    + rewrite (tick_statuses_valid L "turn" Hv).
      change (Text.lower (Text.strip "turn")) with "turn"%string.
      now rewrite (total_damage_turn L Hv).
    + intros name e Hg. destruct Hv as [Hnd HF].
      rewrite (get_entries_after "turn" L name e Hnd Hg).
      unfold entry_after. cbn [String.eqb Ascii.eqb]. rewrite andb_false_r.
      destruct (duration e) as [d|] eqn:Hd.
      * replace (d - 1 <=? 0) with (d <=? 1)
          by (destruct (Z.leb_spec d 1), (Z.leb_spec (d - 1) 0); lia || reflexivity).
        destruct (d <=? 1) eqn:Hle; [|reflexivity].
        split; [reflexivity|].
        apply (in_expired_names "turn" L name e); [now apply DictFacts.get_In|].
        unfold entry_after. rewrite Hd. cbn [String.eqb Ascii.eqb].
        replace (d - 1 <=? 0) with true
          by (symmetry; apply Z.leb_le; apply Z.leb_le in Hle; lia).
        reflexivity.
      * split; [reflexivity|].
        unfold expired_names. rewrite in_flat_map. intros [[n e0] [Hin Hx]].
        destruct (entry_after "turn" n e0) eqn:Ha; [destruct Hx|].
        destruct Hx as [Hx|[]]. subst n.
        rewrite (DictFacts.In_get _ _ _ Hnd Hin) in Hg. injection Hg as ->.
        unfold entry_after in Ha. rewrite Hd in Ha. discriminate.
  - intros tick_type. eexists _, _, _. split; [apply (tick_statuses_valid L tick_type Hv)|].
    split.
    + pose proof (total_damage_nonneg (Text.lower (Text.strip tick_type)) L). lia.
    + intros name e Hg Hd. destruct Hv as [Hnd HF].
      rewrite (get_entries_after _ L name e Hnd Hg).
      unfold entry_after. rewrite Hd.
      eexists. split; [reflexivity|].
      destruct (_ && _); cbn; congruence.
Qed.

(* ===================================================================== *)
(** * Properties of the router                                            *)
(* ===================================================================== *)

Lemma resolve_protocol_value (p : ProtocolId) :
  _resolve_protocol_id (protocol_value p) = Some p.
Proof. destruct p; reflexivity. Qed.

Lemma resolve_protocol_sound (v : string) (p : ProtocolId) :
  _resolve_protocol_id v = Some p -> protocol_value p = v.
Proof.
  unfold _resolve_protocol_id. intros H.
  apply find_some in H. destruct H as [_ H].
  now apply String.eqb_eq in H.
Qed.

Lemma resolve_protocol_none (v : string) :
  _resolve_protocol_id v = None <-> (forall p, protocol_value p <> v).
Proof.
  split.
  - intros H p Hp. rewrite <- Hp, resolve_protocol_value in H. discriminate.
  - intros H. destruct (_resolve_protocol_id v) as [p|] eqn:E; [|reflexivity].
    apply resolve_protocol_sound in E. now apply H in E.
Qed.

Lemma is_safe_spec (p : ProtocolId) : is_safe p = true <-> In p SAFE_PROTOCOLS.
Proof.
  split.
  - destruct p; cbn; intros H; try discriminate; tauto.
  - cbn. intros H.
    repeat (destruct H as [H|H]; [subst p; reflexivity|]). destruct H.
Qed.

Lemma route_out_of_character envelope session_state :
  out_of_character envelope ->
  route_envelope envelope session_state =
    {| protocol_id := PROTO_CLARIFICATION; freeze_time := true; execute := false;
       reason := Some "ooc"%string; dev_report := None;
       ooc_questions := Some (TurnEnvelope.ooc_questions envelope) |}.
Proof.
  unfold out_of_character, route_envelope. intros [H|H].
  - rewrite H. reflexivity.
  - destruct (TurnEnvelope.ooc_questions envelope); [congruence|].
    now rewrite orb_true_r.
Qed.

Lemma route_in_character envelope session_state :
  ~ out_of_character envelope ->
  route_envelope envelope session_state =
    match _resolve_protocol_id (TurnEnvelope.protocol_id envelope) with
    | None =>
        if _dev_mode_enabled (session_dict session_state) then
          {| protocol_id := PROTO_RULE_EDGE_CASE; freeze_time := true; execute := false;
             reason := Some "unknown_protocol"%string;
             dev_report := Some [("error", "Unknown protocol_id");
                                 ("protocol_id", TurnEnvelope.protocol_id envelope)]%string;
             ooc_questions := None |}
        else
          {| protocol_id := PROTO_CLARIFICATION; freeze_time := true; execute := false;
             reason := Some "unknown_protocol"%string; dev_report := None;
             ooc_questions :=
               Some ["Protocol not recognized. Can you restate your request?"%string] |}
    | Some pid =>
        if match TurnEnvelope.confidence envelope with low => true | _ => false end
           && negb (is_safe pid)
        then
          {| protocol_id := PROTO_CLARIFICATION; freeze_time := true; execute := false;
             reason := Some "low_confidence"%string; dev_report := None;
             ooc_questions :=
               Some ["I need a bit more detail to proceed safely. What should I focus on?"%string] |}
        else
          {| protocol_id := pid;
             freeze_time := match time_policy (PROTOCOL_REGISTRY pid) with
                            | freeze => true | advance => false end;
             execute := true; reason := Some "ok"%string; dev_report := None;
             ooc_questions := None |}
    end.
Proof.
  unfold out_of_character, route_envelope, session_dict. intros H.
  destruct (TurnEnvelope.mode envelope) eqn:Hm;
    destruct (TurnEnvelope.ooc_questions envelope) eqn:Hq; cbn [orb negb];
    try reflexivity; exfalso; apply H; auto; right; congruence.
Qed.

Lemma out_of_character_dec envelope :
  {out_of_character envelope} + {~ out_of_character envelope}.
Proof.
  unfold out_of_character.
  destruct (TurnEnvelope.mode envelope); destruct (TurnEnvelope.ooc_questions envelope);
    try (left; (now left) || (now right)); right; intros [H|H]; congruence.
Defined.

(** C8. Router priority cascade, as the code has it: (1) an
    out-of-character envelope (mode "ooc" or questions present) gives a
    non-executing, frozen decision whatever the protocol id; (2) a protocol
    id outside the registry never executes: with developer mode off it
    routes to the clarification protocol, non-executing and frozen, with the
    restate question, and with developer mode on it gives the diagnostic
    decision "unknown_protocol" under the rule-edge-case protocol,
    non-executing and frozen, with a developer report; (3) low confidence on
    a resolved protocol outside the safe set forces clarification, frozen
    and non-executing; (4) otherwise the resolved protocol executes under
    the time policy of its registry entry. *)
Theorem route_envelope_cascade envelope session_state :
  let d := route_envelope envelope session_state in
  let id := TurnEnvelope.protocol_id envelope in
  (out_of_character envelope ->
     execute d = false /\ freeze_time d = true /\
     protocol_id d = PROTO_CLARIFICATION /\
     ooc_questions d = Some (TurnEnvelope.ooc_questions envelope))
  /\
  ((forall p, protocol_value p <> id) ->
   _dev_mode_enabled (session_dict session_state) = false ->
     frozen_clarification d /\
     (~ out_of_character envelope ->
        ooc_questions d =
          Some ["Protocol not recognized. Can you restate your request?"%string]))
  /\
  ((forall p, protocol_value p <> id) ->
   _dev_mode_enabled (session_dict session_state) = true ->
   ~ out_of_character envelope ->
     protocol_id d = PROTO_RULE_EDGE_CASE /\ execute d = false /\
     freeze_time d = true /\ reason d = Some "unknown_protocol"%string /\
     dev_report d = Some [("error", "Unknown protocol_id"); ("protocol_id", id)]%string)
  /\
  (forall p, protocol_value p = id ->
     TurnEnvelope.confidence envelope = low -> ~ In p SAFE_PROTOCOLS ->
     frozen_clarification d)
  /\
  (forall p, protocol_value p = id -> ~ out_of_character envelope ->
     ~ (TurnEnvelope.confidence envelope = low /\ ~ In p SAFE_PROTOCOLS) ->
     protocol_id d = p /\ execute d = true /\
     (freeze_time d = true <-> time_policy (PROTOCOL_REGISTRY p) = freeze)).
Proof.
  cbv zeta. unfold frozen_clarification.
  destruct (out_of_character_dec envelope) as [Hooc|Hooc].
  - rewrite (route_out_of_character _ _ Hooc). cbn.
    repeat split; auto; tauto.
  - rewrite (route_in_character _ _ Hooc).
    split; [tauto|]. split; [|split; [|split]].
    + intros Hnone Hdev.
      apply resolve_protocol_none in Hnone. rewrite Hnone, Hdev. cbn. auto.
    + intros Hnone Hdev _.
      apply resolve_protocol_none in Hnone. rewrite Hnone, Hdev. cbn. auto.
    + intros p Hp Hlow Hunsafe.
      rewrite <- Hp, resolve_protocol_value, Hlow.
      destruct (is_safe p) eqn:Hs; [apply is_safe_spec in Hs; tauto|].
      cbn. auto.
    + intros p Hp _ Hok.
      rewrite <- Hp, resolve_protocol_value.
      destruct (match TurnEnvelope.confidence envelope with low => true | _ => false end
                && negb (is_safe p)) eqn:Hc.
      * exfalso. apply andb_prop in Hc. destruct Hc as [Hl Hs]. apply Hok. split.
        -- destruct (TurnEnvelope.confidence envelope); congruence.
        -- intros Hin. apply is_safe_spec in Hin. rewrite Hin in Hs. discriminate.
      * cbn. repeat split; destruct (time_policy (PROTOCOL_REGISTRY p)); congruence.
Qed.

Lemma not_out_of_character_gm envelope :
  TurnEnvelope.mode envelope = gm -> TurnEnvelope.ooc_questions envelope = [] ->
  ~ out_of_character envelope.
Proof. intros Hm Hq [H|H]; congruence. Qed.

Lemma route_envelope_cascade_witness :
  (execute (route_envelope ooc_envelope None) = false /\
   freeze_time (route_envelope ooc_envelope None) = true)
  /\ frozen_clarification (route_envelope unknown_envelope None)
  /\ frozen_clarification (route_envelope unsure_envelope None)
  /\ (protocol_id (route_envelope routine_envelope None) = PROTO_ROUTINE /\
      execute (route_envelope routine_envelope None) = true).
Proof.
  split; [|split; [|split]].
  - destruct (route_envelope_cascade ooc_envelope None) as (H & _).
    destruct H as (H1 & H2 & _); [left; reflexivity|]. split; assumption.
  - destruct (route_envelope_cascade unknown_envelope None) as (_ & H & _).
    apply H; [|reflexivity].
    intros p; destruct p; cbn; discriminate.
  - destruct (route_envelope_cascade unsure_envelope None) as (_ & _ & _ & H & _).
    apply (H PROTO_CATASTROPHIC); [reflexivity|reflexivity|].
    cbn. intros H0. repeat (destruct H0 as [H0|H0]; [discriminate|]). destruct H0.
  - destruct (route_envelope_cascade routine_envelope None) as (_ & _ & _ & _ & H).
    destruct (H PROTO_ROUTINE) as (H1 & H2 & _); [reflexivity| |  |split; assumption].
    + apply not_out_of_character_gm; reflexivity.
    + intros [H0 _]. discriminate.
Defined.

(** Counterexample to C8 as stated, a protocol id outside the registry when
    developer mode is on: the envelope is not out of character, developer
    mode is not off, the confidence is not low, and yet the decision does
    not execute (it is the diagnostic decision). *)
Lemma unknown_protocol_in_dev_mode_does_not_execute :
  ~ out_of_character unknown_envelope /\
  (forall p, protocol_value p <> TurnEnvelope.protocol_id unknown_envelope) /\
  _dev_mode_enabled (session_dict dev_session_state) = true /\
  TurnEnvelope.confidence unknown_envelope <> low /\
  execute (route_envelope unknown_envelope dev_session_state) = false /\
  protocol_id (route_envelope unknown_envelope dev_session_state)
    = PROTO_RULE_EDGE_CASE.
Proof.
  split; [apply not_out_of_character_gm; reflexivity|].
  split; [intros p; destruct p; cbn; discriminate|].
  repeat split. discriminate.
Qed.

(* ===================================================================== *)
(** * Sessions as objects: independence and replay                        *)
(* ===================================================================== *)

Section Objects.
Context {R : PRNG}.

(** Calls on other sessions do not show: a session answers a program as it
    answers its own calls alone. *)
Lemma run_program_frame (a : nat) (evs : list (nat * Call)) :
  forall (h : Heap) (sess : SessionState),
    h !! a = Some sess ->
    results_of a (fst (run_program evs h)) = map Some (fst (run_calls (calls_of a evs) sess))
    /\ snd (run_program evs h) !! a = Some (snd (run_calls (calls_of a evs) sess)).
Proof.
  induction evs as [|[x c] evs IH]; intros h sess Hh.
  - cbn. auto.
  - cbn [run_program]. unfold call_on, calls_of, results_of.
    cbn [List.filter fst].
    destruct (Nat.eqb_spec x a) as [->|Hne].
    + rewrite Hh. cbn [map snd run_calls].
      destruct (perform c sess) as [r sess1].
      specialize (IH (<[a := sess1]> h) sess1 (lookup_insert_eq h a sess1)).
      destruct (run_program evs (<[a := sess1]> h)) as [out h2].
      destruct (run_calls (calls_of a evs) sess1) as [rs sess2] eqn:Erun.
      unfold calls_of in Erun. rewrite Erun in *.
      cbn [fst snd List.filter map] in *. rewrite Nat.eqb_refl. cbn [map snd].
      destruct IH as [IH1 IH2]. unfold results_of in IH1. split; [now f_equal|exact IH2].
    + destruct (h !! x) as [sx|] eqn:Hx.
      * destruct (perform c sx) as [r sx1].
        assert (Ha : <[x := sx1]> h !! a = Some sess) by (now rewrite lookup_insert_ne).
        specialize (IH _ _ Ha).
        destruct (run_program evs (<[x := sx1]> h)) as [out h2].
        cbn [fst snd List.filter] in *.
        destruct (Nat.eqb_spec x a); [contradiction|]. exact IH.
      * specialize (IH _ _ Hh).
        destruct (run_program evs h) as [out h2].
        cbn [fst snd List.filter] in *.
        destruct (Nat.eqb_spec x a); [contradiction|]. exact IH.
Qed.

Lemma create_lookup (s : Z) (h : Heap) :
  snd (create s h) !! fst (create s h) = Some (new_session s)
  /\ h !! fst (create s h) = None.
Proof.
  unfold create. cbn [fst snd]. split; [apply lookup_insert_eq|].
  apply not_elem_of_dom. apply is_fresh.
Qed.

(** C1. Dice-ledger determinism: two sessions created with the same seed,
    in a process that may hold other sessions, and fed the same sequence of
    roll calls in any interleaving, return the same totals (or raise the
    same errors) and end with the same log; both are what that sequence
    gives on a session of that seed alone. *)
Theorem dice_ledger_determinism (s : Z) (h0 : Heap)
    (evs : list (nat * Call)) (cs : list Call) :
  let a := fst (create s h0) in
  let h1 := snd (create s h0) in
  let b := fst (create s h1) in
  let h2 := snd (create s h1) in
  calls_of a evs = cs -> calls_of b evs = cs ->
  a <> b /\
  results_of a (fst (run_program evs h2)) = results_of b (fst (run_program evs h2)) /\
  results_of a (fst (run_program evs h2)) = map Some (fst (run_calls cs (new_session s))) /\
  (turn_log <$> snd (run_program evs h2) !! a)
    = (turn_log <$> snd (run_program evs h2) !! b) /\
  (turn_log <$> snd (run_program evs h2) !! a)
    = Some (turn_log (snd (run_calls cs (new_session s)))).
Proof.
  intros a h1 b h2 Ha Hb.
  destruct (create_lookup s h0) as [Ha1 Ha0].
  destruct (create_lookup s h1) as [Hb2 Hb1].
  fold a h1 in Ha1, Ha0. fold b h2 in Hb2. fold b in Hb1.
  assert (Hab : a <> b).
  { intros E. rewrite <- E in Hb1. rewrite Ha1 in Hb1. discriminate. }
  assert (Ha2 : h2 !! a = Some (new_session s)).
  { unfold h2, create. cbn [snd]. fold b. rewrite lookup_insert_ne; auto. }
  destruct (run_program_frame a evs h2 _ Ha2) as [Ra La].
  destruct (run_program_frame b evs h2 _ Hb2) as [Rb Lb].
  rewrite Ha in Ra, La. rewrite Hb in Rb, Lb.
  rewrite Ra, Rb, La, Lb. cbn. auto.
Qed.

End Objects.

(** ** Replay by discarded draws *)

Section Replay.
Context {R : PRNG}.

Lemma count_rolls_from (log : list RollEntry) (acc : Z) :
  fold_left (fun draws entry => draws + Z.of_nat (length (rolls entry))) log acc
  = acc + Z.of_nat (dice_total log).
Proof.
  revert acc. induction log as [|e log IH]; intros acc;
    cbn [fold_left dice_total fold_right]; [lia|].
  rewrite IH. fold (dice_total log). lia.
Qed.

Lemma count_rolls_total (log : list RollEntry) :
  _count_rolls log = Z.of_nat (dice_total log).
Proof. unfold _count_rolls. now rewrite count_rolls_from. Qed.

Lemma dice_total_app (l1 l2 : list RollEntry) :
  dice_total (l1 ++ l2) = (dice_total l1 + dice_total l2)%nat.
Proof.
  induction l1 as [|e l1 IH]; [reflexivity|].
  change (dice_total ((e :: l1) ++ l2))
    with (length (rolls e) + dice_total (l1 ++ l2))%nat.
  rewrite IH. unfold dice_total. cbn [fold_right]. lia.
Qed.

Lemma skip_add (n m : nat) (g : generator) : skip (n + m) g = skip m (skip n g).
Proof. revert g. induction n as [|n IH]; intros g; cbn; auto. Qed.

Lemma discard_draws_skip (n : nat) (sess : SessionState) :
  discard_draws n sess = (Ok tt, with_rng sess (skip n (rng sess))).
Proof.
  revert sess. induction n as [|n IH]; intros sess.
  - cbn. now rewrite with_rng_same.
  - cbn [discard_draws skip]. unfold bind, random.
    destruct (next_random (rng sess)) as [x g]. rewrite IH. reflexivity.
Qed.

Lemma consume_rolls_skip (k : Z) (sess : SessionState) :
  _consume_rolls k sess = (Ok tt, with_rng sess (skip (Z.to_nat k) (rng sess))).
Proof. apply discard_draws_skip. Qed.

Hypothesis one_draw : one_draw_per_randint R.

Lemma roll_dice_skip (n : nat) (sides : Z) (sess : SessionState) :
  exists rs, roll_dice n sides sess = (Ok rs, with_rng sess (skip n (rng sess)))
             /\ length rs = n.
Proof.
  revert sess. induction n as [|n IH]; intros sess.
  - exists []. cbn. now rewrite with_rng_same.
  - cbn [roll_dice skip]. unfold bind at 1. unfold randint at 1.
    pose proof (one_draw 1 sides (rng sess)) as Hd.
    destruct (next_randint 1 sides (rng sess)) as [r g]. cbn [snd] in Hd. subst g.
    fold (with_rng sess (snd (next_random (rng sess)))).
    destruct (IH (with_rng sess (snd (next_random (rng sess))))) as (rs & Hrun & Hlen).
    unfold bind at 1. rewrite Hrun. exists (r :: rs). cbn. split; [reflexivity|congruence].
Qed.

Lemma perform_advances (c : Call) (sess : SessionState) :
  exists k, advanced sess (snd (perform c sess)) k.
Proof.
  destruct c as [lbl|dice_str lbl]; cbn [perform].
  - exists 1%nat. unfold roll_d20, bind, randint, _log_roll, ret.
    pose proof (one_draw 1 20 (rng sess)) as Hd.
    destruct (next_randint 1 20 (rng sess)) as [r g]. cbn [snd] in *. subst g.
    eexists. split; reflexivity.
  - destruct (Pattern.match_integer dice_str) eqn:Hint.
    { rewrite (roll_integer_pattern dice_str lbl sess Hint).
      destruct (Text.py_int (Text.chars dice_str)).
      - exists 0%nat. eexists. split; reflexivity.
      - exists 0%nat, []. cbn. rewrite app_nil_r. now destruct sess. }
    destruct (Pattern.match_dice dice_str) as [[[ct st] mt]|] eqn:Hd.
    2:{ unfold roll. rewrite Hint, Hd.
        exists 0%nat, []. cbn. rewrite app_nil_r. now destruct sess. }
    rewrite (roll_dice_pattern dice_str lbl sess ct st mt Hint Hd).
    destruct (_ && _).
    2:{ exists 0%nat, []. cbn. rewrite app_nil_r. now destruct sess. }
    destruct (_ || _).
    { exists 0%nat, []. cbn. rewrite app_nil_r. now destruct sess. }
    set (count := Z.to_nat _).
    destruct (roll_dice_skip count (Text.int_of_digits st) sess) as (rs & Hrun & Hlen).
    exists count. unfold bind at 1. rewrite Hrun. cbn.
    eexists. split; [reflexivity|]. cbn. lia.
Qed.

Lemma run_calls_advances (cs : list Call) (sess : SessionState) :
  exists k, advanced sess (snd (run_calls cs sess)) k.
Proof.
  revert sess. induction cs as [|c cs IH]; intros sess.
  - exists 0%nat, []. cbn. rewrite app_nil_r. now destruct sess.
  - cbn [run_calls].
    destruct (perform_advances c sess) as (k1 & new1 & H1 & Hk1).
    destruct (perform c sess) as [r sess1]. cbn [snd] in H1.
    destruct (IH sess1) as (k2 & new2 & H2 & Hk2).
    destruct (run_calls cs sess1) as [rs sess2]. cbn [snd] in *.
    exists (k1 + k2)%nat, (new1 ++ new2). split.
    + rewrite H2, H1. cbn. now rewrite skip_add, app_assoc.
    + rewrite dice_total_app. lia.
Qed.

(** The replay contract, for a generator that spends one [random()] draw
    per [randint]: after any calls on a fresh session, discarding as many
    draws as the log counts component dice brings a fresh generator to the
    same state. *)
Lemma replay_one_draw (s : Z) (cs : list Call) :
  let played := snd (run_calls cs (new_session s)) in
  rng (snd (_consume_rolls (_count_rolls (turn_log played)) (new_session s)))
  = rng played.
Proof.
  cbv zeta. destruct (run_calls_advances cs (new_session s)) as (k & new & H & Hk).
  rewrite H. cbn [turn_log rng new_session app].
  rewrite consume_rolls_skip, count_rolls_total, Nat2Z.id, Hk. reflexivity.
Qed.

End Replay.

(** ** The interpreter's [randint] keeps to its range *)

Module CPythonFacts.
Import CPython.

Lemma u32_nonneg (x : Z) : 0 <= u32 x.
Proof. unfold u32. apply Z.land_nonneg. right. lia. Qed.

Lemma genrand_nonneg (s : state) : 0 <= fst (genrand_uint32 s).
Proof. unfold genrand_uint32. cbn [fst]. apply u32_nonneg. Qed.

Lemma getrandbits_words_nonneg (words : nat) (k : Z) (s : state) :
  0 <= fst (getrandbits_words words k s).
Proof.
  revert k s. induction words as [|w IH]; intros k s; cbn [getrandbits_words]; [cbn; lia|].
  pose proof (genrand_nonneg s) as Hr.
  destruct (genrand_uint32 s) as [r s1]. cbn [fst] in Hr.
  specialize (IH (k - 32) s1).
  destruct (getrandbits_words w (k - 32) s1) as [hi s2]. cbn [fst] in *.
  assert (0 <= Z.shiftl hi 32) by (now apply Z.shiftl_nonneg).
  destruct (k <? 32); [|lia].
  assert (0 <= Z.shiftr r (32 - k)) by (now apply Z.shiftr_nonneg). lia.
Qed.

Lemma getrandbits_nonneg (k : Z) (s : state) : 0 <= fst (getrandbits k s).
Proof.
  unfold getrandbits. destruct (k <=? 32).
  - pose proof (genrand_nonneg s) as Hr.
    destruct (genrand_uint32 s) as [r s1]. cbn [fst] in *. now apply Z.shiftr_nonneg.
  - apply getrandbits_words_nonneg.
Qed.

Lemma randbelow_loop_range (fuel : nat) (n k : Z) (s : state) :
  0 < n -> 0 <= fst (randbelow_loop fuel n k s) < n.
Proof.
  intros Hn. revert s. induction fuel as [|fuel IH]; intros s; cbn [randbelow_loop];
    pose proof (getrandbits_nonneg k s) as Hr;
    destruct (getrandbits k s) as [r s1]; cbn [fst] in Hr;
    destruct (Z.ltb_spec r n); cbn [fst]; try lia.
  apply IH.
Qed.

Lemma randint_range : randint_in_range CPython.rng.
Proof.
  intros a b s Hab. cbn [next_randint CPython.rng]. unfold randint.
  destruct (Z.leb_spec (b + 1 - a) 0); [lia|].
  unfold randbelow.
  pose proof (randbelow_loop_range randbelow_fuel (b + 1 - a) (bit_length (b + 1 - a)) s) as Hr.
  destruct (randbelow_loop _ _ _ s) as [r s1]. cbn [fst] in *. lia.
Qed.

End CPythonFacts.

(* ===================================================================== *)
(** * Properties of the combat resolver                                   *)
(* ===================================================================== *)

Lemma apply_damage_with_block_spec (base_ap hp_ damage_ block_ap : Z) :
  _apply_damage_with_block base_ap hp_ damage_ block_ap =
  (Z.min (Z.max 0 (base_ap + block_ap - damage_)) base_ap,
   Z.max 0 (hp_ - Z.max 0 (damage_ - (base_ap + block_ap)))).
Proof. reflexivity. Qed.

Section CombatProperties.
Context {R : PRNG}.

Lemma roll_damage_integer (d : string) (n bonus_ : Z) (crit_ : bool) (sess : SessionState)
    (dmg : Z) (sess' : SessionState) :
  Formula.bare_integer d n ->
  _roll_damage d bonus_ crit_ sess = (Ok dmg, sess') ->
  dmg = bonus_
  /\ sess' = logged sess {| formula := Text.str_of_Z n; result := n; rolls := [];
                            modifier := 0; label := None |} (rng sess)
  /\ roll d None sess = (Ok n, sess').
Proof.
  intros H. unfold _roll_damage, bind at 1.
  destruct (roll_integer d None sess n H) as [Hr|Hr]; rewrite Hr; [|discriminate].
  unfold bind, get_log, logged, ret. cbn [turn_log]. rewrite last_snoc.
  cbn [rolls modifier sum_Z fold_right].
  destruct crit_; intros [= <- <-]; repeat split; lia.
Qed.

Lemma roll_damage_dice (d : string) (N M K bonus_ : Z) (crit_ : bool) (sess : SessionState) :
  Formula.dice_formula d N M K -> 1 <= N -> 1 <= M ->
  exists rs g,
    roll d None sess =
      (Ok (sum_Z rs + K),
       logged sess {| formula := Text.strip d; result := sum_Z rs + K; rolls := rs;
                      modifier := K; label := None |} g)
    /\ _roll_damage d bonus_ crit_ sess =
         (Ok (sum_Z rs * (if crit_ then 2 else 1) + K + bonus_),
          logged sess {| formula := Text.strip d; result := sum_Z rs + K; rolls := rs;
                         modifier := K; label := None |} g)
    /\ Z.of_nat (length rs) = N
    /\ (randint_in_range R -> List.Forall (fun x => 1 <= x <= M) rs).
Proof.
  intros H HN HM.
  destruct (roll_dice_formula d None sess N M K H HN HM) as (rs & g & Hr & Hlen & Hrange).
  exists rs, g. split; [exact Hr|]. split; [|split; [exact Hlen|exact Hrange]].
  unfold _roll_damage, bind at 1. rewrite Hr.
  unfold bind, get_log, logged, ret. cbn [turn_log]. rewrite last_snoc. reflexivity.
Qed.

(** What a returned [resolve_attack] has computed. *)
Lemma resolve_attack_returns attacker defender called_shot effect reaction
    reaction_bonus reaction_ap attack_override counter_override sess r attacker' defender' sess' :
  resolve_attack attacker defender called_shot effect reaction
    reaction_bonus reaction_ap attack_override counter_override sess
    = (Ok (r, attacker', defender'), sess') ->
  let block_ap := if reaction_is reaction "block" then reaction_ap else 0 in
  target_ar r = armor_rating defender + _dodge_bonus reaction reaction_bonus
  /\ attack_total r = attack_roll r + skill attacker + attr attacker + attack_bonus attacker
                      - (if called_shot then CALLED_SHOT_PENALTY else 0)
  /\ hit r = (target_ar r <=? attack_total r)
  /\ crit r = (19 <=? attack_roll r)
  /\ ap_before r = ap defender + block_ap
  /\ hp_before r = hp defender
  /\ ap defender' = ap_after r
  /\ hp defender' = hp_after r
  /\ exists sess1,
       attack_roll_step attack_override sess = (Ok (attack_roll r), sess1)
       /\ if hit r then
            exists w sess2,
              weapon attacker = Some w
              /\ _roll_damage (Weapon.damage w) (Weapon.bonus w + damage_bonus attacker)
                   (crit r) sess1 = (Ok (damage r), sess2)
              /\ (ap_after r, hp_after r) =
                   (if negb (block_ap =? 0)
                    then _apply_damage_with_block (ap defender) (hp defender) (damage r) block_ap
                    else _apply_damage (ap defender) (hp defender) (damage r))
          else damage r = 0 /\ ap_after r = ap defender /\ hp_after r = hp defender.
Proof.
  unfold resolve_attack. cbv zeta.
  destruct (called_shot && negb _); [discriminate|].
  fold (attack_roll_step attack_override).
  unfold bind at 1.
  destruct (attack_roll_step attack_override sess) as [[roll_|e] sess1]; [|discriminate].
  remember (roll_ + skill attacker + attr attacker + attack_bonus attacker
            - (if called_shot then CALLED_SHOT_PENALTY else 0)) as total eqn:Htotal.
  remember (armor_rating defender + _dodge_bonus reaction reaction_bonus)
    as target eqn:Htarget.
  remember (if reaction_is reaction "block" then reaction_ap else 0)
    as block_ap eqn:Hblock.
  destruct (target <=? total) eqn:Hhit.
  - destruct (weapon attacker) as [w|]; [|discriminate].
    unfold bind at 1. unfold bind at 1.
    destruct (_roll_damage (Weapon.damage w) (Weapon.bonus w + damage_bonus attacker)
                (19 <=? roll_) sess1) as [[dmg|e] sess2] eqn:Hdmg; [|discriminate].
    destruct (if negb (block_ap =? 0)
              then _apply_damage_with_block (ap defender) (hp defender) dmg block_ap
              else _apply_damage (ap defender) (hp defender) dmg) as [a h] eqn:Hah.
    unfold bind at 1.
    match goal with
    | |- context [(if called_shot then ?x else ?y) sess2] =>
        destruct ((if called_shot then x else y) sess2) as [[st|e] sess3]
    end; [|discriminate].
    cbn [ret negb]. unfold bind at 1.
    rewrite andb_false_r. cbn [ret].
    intros [= <- <- <- <-]. cbn.
    repeat split; auto. exists sess1. split; [reflexivity|].
    exists w, sess2. repeat split; [exact Hdmg|symmetry; exact Hah].
  - unfold bind at 1. cbn [ret]. unfold bind at 1.
    destruct (reaction_is reaction "counter" && negb false) eqn:Hc.
    + unfold bind at 1.
      destruct (_resolve_counter counter_override attacker defender sess1)
        as [[[c a']|e] sess2]; [|discriminate].
      cbn [ret]. intros [= <- <- <- <-]. cbn.
      repeat split; auto. exists sess1. split; [reflexivity|]. auto.
    + cbn [ret]. intros [= <- <- <- <-]. cbn.
      repeat split; auto. exists sess1. split; [reflexivity|]. auto.
Qed.

(** The session that a returned attack which hit leaves: the one of the
    damage roll, made on the session that the attack roll left. *)
Lemma resolve_attack_hit_session attacker defender called_shot effect reaction
    reaction_bonus reaction_ap attack_override counter_override sess r attacker' defender' sess' :
  resolve_attack attacker defender called_shot effect reaction
    reaction_bonus reaction_ap attack_override counter_override sess
    = (Ok (r, attacker', defender'), sess') ->
  hit r = true ->
  exists w sess1,
    weapon attacker = Some w
    /\ attack_roll_step attack_override sess = (Ok (attack_roll r), sess1)
    /\ _roll_damage (Weapon.damage w) (Weapon.bonus w + damage_bonus attacker)
         (crit r) sess1 = (Ok (damage r), sess').
Proof.
  unfold resolve_attack. cbv zeta.
  destruct (called_shot && negb _); [discriminate|].
  fold (attack_roll_step attack_override).
  unfold bind at 1.
  destruct (attack_roll_step attack_override sess) as [[roll_|e] sess1]; [|discriminate].
  destruct (_ <=? _) eqn:Hhit.
  - destruct (weapon attacker) as [w|]; [|discriminate].
    unfold bind at 1. unfold bind at 1.
    destruct (_roll_damage (Weapon.damage w) (Weapon.bonus w + damage_bonus attacker)
                (19 <=? roll_) sess1) as [[dmg|e] sess2] eqn:Hdmg; [|discriminate].
    destruct (if negb (_ =? 0) then _ else _) as [a h].
    unfold bind at 1.
    assert (Hst : forall (c : Sess Ledger),
              (exists v, c = lift v) ->
              exists v, c sess2 = (v, sess2)).
    { intros c (v & ->). now exists v. }
    match goal with
    | |- context [(if called_shot then ?x else ?y) sess2] =>
        destruct (Hst (if called_shot then x else y)) as (v & Hv);
          [destruct called_shot; eexists; reflexivity|rewrite Hv]
    end.
    destruct v as [st|e]; [|discriminate].
    cbn [ret negb]. unfold bind at 1.
    rewrite andb_false_r. cbn [ret].
    intros [= <- <- <- <-] _. cbn.
    exists w, sess1. repeat split. exact Hdmg.
  - unfold bind at 1. cbn [ret]. unfold bind at 1.
    destruct (reaction_is reaction "counter" && negb false).
    + unfold bind at 1.
      destruct (_resolve_counter counter_override attacker defender sess1)
        as [[[c a']|e] sess2]; [|discriminate].
      cbn [ret]. intros [= <- <- <- <-]. cbn. discriminate.
    + cbn [ret]. intros [= <- <- <- <-]. cbn. discriminate.
Qed.

(** C10. On every hit with a weapon whose damage formula is a bare
    non-negative integer n, the damage dealt is the weapon's flat bonus plus
    the attacker's damage bonus and nothing else, critical or not: the roll
    itself returns n, but it logs an empty dice list and modifier 0, and the
    damage is recomputed from that entry. *)
Theorem integer_formula_damage_is_bonus_only attacker defender called_shot effect
    reaction reaction_bonus reaction_ap attack_override counter_override sess
    r attacker' defender' sess' w n :
  resolve_attack attacker defender called_shot effect reaction
    reaction_bonus reaction_ap attack_override counter_override sess
    = (Ok (r, attacker', defender'), sess') ->
  weapon attacker = Some w ->
  Formula.bare_integer (Weapon.damage w) n ->
  hit r = true ->
  damage r = Weapon.bonus w + damage_bonus attacker
  /\ exists sess1 sess2,
       roll (Weapon.damage w) None sess1 = (Ok n, sess2)
       /\ _roll_damage (Weapon.damage w) (Weapon.bonus w + damage_bonus attacker)
            (crit r) sess1 = (Ok (damage r), sess2)
       /\ last (turn_log sess2) =
            Some {| formula := Text.str_of_Z n; result := n; rolls := [];
                    modifier := 0; label := None |}.
Proof.
  intros Hrun Hw Hint Hhit.
  destruct (resolve_attack_returns _ _ _ _ _ _ _ _ _ _ _ _ _ _ Hrun)
    as (_ & _ & _ & _ & _ & _ & _ & _ & sess1 & _ & Hdmg).
  rewrite Hhit in Hdmg. destruct Hdmg as (w' & sess2 & Hw' & Hdmg & _).
  rewrite Hw in Hw'. injection Hw' as <-.
  destruct (roll_damage_integer (Weapon.damage w) n
              (Weapon.bonus w + damage_bonus attacker) (crit r) sess1 _ _ Hint Hdmg)
    as (Hdamage & Hsess & Hroll).
  split; [exact Hdamage|].
  exists sess1, sess2. repeat split; auto.
  rewrite Hsess. unfold logged. cbn [turn_log]. apply last_snoc.
Qed.

(** X28. The postcondition of an attack made with a dice weapon (N d M and
    an optional modifier K, each numeral of at most 4300 digits, N >= 1,
    M >= 1) on a defender with non-negative AP and HP: the attack total is
    the roll plus the bonuses less the called-shot penalty; the attack hits
    exactly when the total reaches the armor rating plus the dodge bonus and
    is critical exactly when the roll is 19 or 20.  On a hit, the attack
    roll is made first (the override, or a d20 on the session), then the
    weapon formula is rolled once, unlabelled, on the session that the
    attack roll left: the session returned is that one with one entry
    appended, which holds the N dice rolled (each between 1 and M when
    [randint] respects its range), the modifier K of the formula and their
    total; and the damage is the sum of those dice, doubled on a critical,
    plus K, plus the weapon bonus and the damage bonus of the attacker; it
    goes through AP before HP.  On a miss nothing changes.  AP and HP are
    never negative afterwards. *)
Lemma resolve_attack_dice_postcondition attacker defender called_shot effect
    reaction reaction_bonus reaction_ap attack_override counter_override sess
    r attacker' defender' sess' :
  resolve_attack attacker defender called_shot effect reaction
    reaction_bonus reaction_ap attack_override counter_override sess
    = (Ok (r, attacker', defender'), sess') ->
  0 <= ap defender -> 0 <= hp defender ->
  (forall w, weapon attacker = Some w ->
     exists N M K, Formula.dice_formula (Weapon.damage w) N M K /\ 1 <= N /\ 1 <= M) ->
  let threshold := armor_rating defender + _dodge_bonus reaction reaction_bonus in
  attack_total r = attack_roll r + skill attacker + attr attacker + attack_bonus attacker
                   - (if called_shot then CALLED_SHOT_PENALTY else 0)
  /\ (hit r = true <-> threshold <= attack_total r)
  /\ (crit r = true <-> 19 <= attack_roll r)
  /\ (hit r = true ->
        exists w N M K rs sess1 g,
          weapon attacker = Some w
          /\ Formula.dice_formula (Weapon.damage w) N M K
          /\ attack_roll_step attack_override sess = (Ok (attack_roll r), sess1)
          /\ roll (Weapon.damage w) None sess1 = (Ok (sum_Z rs + K), sess')
          /\ sess' = {| seed := seed sess1;
                        turn_log := turn_log sess1 ++
                          [{| formula := Text.strip (Weapon.damage w);
                              result := sum_Z rs + K; rolls := rs;
                              modifier := K; label := None |}];
                        rng := g |}
          /\ Z.of_nat (length rs) = N
          /\ (randint_in_range R -> List.Forall (fun x => 1 <= x <= M) rs)
          /\ damage r = (if crit r then 2 * sum_Z rs + K else sum_Z rs + K)
                        + Weapon.bonus w + damage_bonus attacker)
  /\ (hit r = true ->
        hp_after r = Z.max 0 (hp defender - Z.max 0 (damage r - ap_before r))
        /\ ap_after r <= Z.max 0 (ap_before r - damage r))
  /\ (hit r = false ->
        damage r = 0 /\ ap_after r = ap defender /\ hp_after r = hp defender)
  /\ 0 <= ap_after r /\ 0 <= hp_after r
  /\ ap defender' = ap_after r /\ hp defender' = hp_after r.
Proof.
  intros Hrun Hap Hhp Hweapon threshold.
  destruct (resolve_attack_returns _ _ _ _ _ _ _ _ _ _ _ _ _ _ Hrun)
    as (Htar & Htot & Hhit & Hcrit & Hapb & Hhpb & Hapd & Hhpd & sess0 & _ & Hdmg).
  fold threshold in Htar. rewrite Htar in Hhit.
  split; [exact Htot|]. split; [rewrite Hhit; apply Z.leb_le|].
  split; [rewrite Hcrit; apply Z.leb_le|].
  destruct (hit r) eqn:Hh.
  - destruct (resolve_attack_hit_session _ _ _ _ _ _ _ _ _ _ _ _ _ _ Hrun Hh)
      as (w & sess1 & Hw & Hstep & Hd).
    destruct Hdmg as (w' & sess2 & _ & _ & Hah).
    destruct (Hweapon w Hw) as (N & M & K & Hf & HN & HM).
    destruct (roll_damage_dice (Weapon.damage w) N M K
                (Weapon.bonus w + damage_bonus attacker) (crit r) sess1 Hf HN HM)
      as (rs & g & Hroll & Hd' & Hlen & Hrange).
    rewrite Hd' in Hd. injection Hd as Hdamage Hsess.
    assert (Habs : hp_after r = Z.max 0 (hp defender - Z.max 0 (damage r - ap_before r))
                   /\ ap_after r <= Z.max 0 (ap_before r - damage r)
                   /\ 0 <= ap_after r /\ 0 <= hp_after r).
    { rewrite Hapb. destruct (negb (_ =? 0)) eqn:Hb.
      - rewrite apply_damage_with_block_spec in Hah. injection Hah as -> ->. lia.
      - apply negb_false_iff, Z.eqb_eq in Hb. rewrite Hb.
        unfold _apply_damage in Hah. injection Hah as -> ->. lia. }
    destruct Habs as (H1 & H2 & H3 & H4).
    repeat split; auto; try discriminate.
    intros _. exists w, N, M, K, rs, sess1, g.
    split; [exact Hw|]. split; [exact Hf|]. split; [exact Hstep|].
    split; [rewrite <- Hsess; exact Hroll|]. split; [now rewrite <- Hsess|].
    split; [exact Hlen|]. split; [exact Hrange|].
    rewrite <- Hdamage. destruct (crit r); lia.
  - destruct Hdmg as (Hd & Ha & Hh').
    repeat split; auto; try discriminate; lia.
Qed.

(** X29. A block reaction in [resolve_attack]: the AP reported before the
    attack is the defender's AP plus the block AP, and HP is shielded by
    that sum; with a block AP that is not zero the AP returned is what is
    left of the sum, capped at the defender's own AP; the AP returned never
    exceeds the defender's own whenever the block AP is not zero or the
    damage is not negative. *)
Lemma block_reaction_semantics attacker defender called_shot effect
    reaction_bonus b attack_override counter_override sess
    r attacker' defender' sess' :
  resolve_attack attacker defender called_shot effect (Some "block"%string)
    reaction_bonus b attack_override counter_override sess
    = (Ok (r, attacker', defender'), sess') ->
  ap_before r = ap defender + b
  /\ ap defender' = ap_after r
  /\ (hit r = true ->
        hp_after r = Z.max 0 (hp defender - Z.max 0 (damage r - (ap defender + b))))
  /\ (hit r = true -> b <> 0 ->
        ap_after r = Z.min (Z.max 0 (ap defender + b - damage r)) (ap defender))
  /\ (0 <= ap defender -> b <> 0 \/ 0 <= damage r -> ap_after r <= ap defender).
Proof.
  intros Hrun.
  destruct (resolve_attack_returns _ _ _ _ _ _ _ _ _ _ _ _ _ _ Hrun)
    as (_ & _ & _ & _ & Hapb & _ & Hapd & _ & sess1 & _ & Hdmg).
  cbn [reaction_is] in Hapb, Hdmg. rewrite String.eqb_refl in Hapb, Hdmg.
  split; [exact Hapb|]. split; [exact Hapd|].
  destruct (hit r).
  - destruct Hdmg as (w & sess2 & _ & _ & Hah).
    destruct (Z.eqb_spec b 0) as [->|Hb]; cbn [negb] in Hah.
    + unfold _apply_damage in Hah. injection Hah as -> ->.
      repeat split; try congruence; lia.
    + rewrite apply_damage_with_block_spec in Hah. injection Hah as -> ->.
      repeat split; intros; lia.
  - destruct Hdmg as (_ & -> & _). repeat split; try discriminate; intros; lia.
Qed.

End CombatProperties.

(* ===================================================================== *)
(** * Properties of the turn pipeline                                     *)
(* ===================================================================== *)

Lemma clarify_has_no_diff intent errors questions :
  TurnResult.state_diff (_clarify_turn_result intent errors questions) = [].
Proof. reflexivity. Qed.

Lemma plain_result_has_no_diff i o n q qs e :
  TurnResult.state_diff (plain_result i o n q qs e) = [].
Proof. reflexivity. Qed.

Lemma maybe_create_project_no_diff envelope creator r :
  _maybe_create_project envelope creator = Some r -> TurnResult.state_diff r = [].
Proof.
  unfold _maybe_create_project.
  destruct (TurnEnvelope.gm_plan envelope) as [[qs|]|]; try discriminate.
  destruct creator as [[u|e]|]; intros H; injection H as <-; reflexivity.
Qed.

Section TurnProperties.
Context {R : PRNG}.

Lemma execute_intent_pipeline_diff session character intent errors player_text r :
  _execute_intent_pipeline session character intent errors player_text = Ok r ->
  diff_only_when_executed r.
Proof.
  unfold _execute_intent_pipeline, diff_only_when_executed.
  destruct (_validate_impossible_action intent (era session) player_text).
  { intros H; injection H as <-. now right. }
  destruct (_ensure_resources character) as [actions reactions].
  destruct (_validate_intent intent (era session) actions available_actions) eqn:Hv.
  { destruct (Intent.action_type intent); intros H; injection H as <-; now right. }
  destruct ((run _consume_rolls (roll_index session);
             _execute_mechanics (_intent_to_turn_intent intent)) _) as [[o|e] s'].
  - destruct (Intent.action_type intent); intros H; injection H as <-;
      (now right) || (now left).
  - destruct (Intent.action_type intent); intros H;
      try discriminate; injection H as <-; now right.
Qed.

Lemma execute_turn_diff session character player_text llm_client override creator r :
  execute_turn_for_state session character player_text llm_client override creator = Ok r ->
  diff_only_when_executed r.
Proof.
  unfold execute_turn_for_state.
  destruct (_is_memory_recall_request player_text).
  { intros H; injection H as <-. now right. }
  destruct (has_scene_text session); cbn [negb].
  2:{ intros H; injection H as <-. now right. }
  destruct override as [intent|].
  { apply execute_intent_pipeline_diff. }
  destruct (generate_turn_envelope llm_client) as [envelope|e].
  2:{ intros H; injection H as <-. now right. }
  set (decision := route_envelope envelope _).
  assert (Hrest :
    (if freeze_time decision || negb (execute decision)
     then Ok (_clarify_turn_result
                (clarifying (opt_str (str_or (reason decision) (Some "clarification"%string))))
                []
                match ooc_questions decision with
                | Some (q :: qs) => q :: qs
                | _ => ["Choose an action to proceed."%string]
                end)
     else match match TurnEnvelope.gm_plan envelope with
                | Some _ => _maybe_create_project envelope creator
                | None => None
                end with
          | Some project_result => Ok project_result
          | None =>
              let '(intent, errors) := _extract_intent_or_fallback llm_client in
              _execute_intent_pipeline session character intent errors player_text
          end) = Ok r -> diff_only_when_executed r).
  { destruct (freeze_time decision || negb (execute decision)).
    { intros H; injection H as <-. now right. }
    destruct (match TurnEnvelope.gm_plan envelope with
              | Some _ => _maybe_create_project envelope creator
              | None => None
              end) as [pr|] eqn:Hp.
    - intros H; injection H as <-. right.
      destruct (TurnEnvelope.gm_plan envelope); [|discriminate].
      now apply maybe_create_project_no_diff in Hp.
    - destruct (_extract_intent_or_fallback llm_client) as [intent errors].
      apply execute_intent_pipeline_diff. }
  destruct (protocol_id decision); try exact Hrest;
    try (intros H; injection H as <-; now right).
  - unfold _content_gap_result. destruct (negb (session_dev_mode session));
      intros H; injection H as <-; now right.
  - unfold _rule_edge_case_result. destruct (session_dev_mode session);
      intros H; injection H as <-; now right.
Qed.

Lemma dice_formula_1d6 : Formula.dice_formula "1d6" 1 6 0.
Proof.
  exists ["1"%char], ["6"%char], None. split.
  - exists [], "d"%char, []. repeat split; discriminate.
  - repeat split.
Qed.

Lemma execute_mechanics_returns (intent : Intent.t) (sess : SessionState) :
  exists outcome_ sess',
    _execute_mechanics (_intent_to_turn_intent intent) sess = (Ok outcome_, sess').
Proof.
  destruct intent as [a pu iu dl rs tl]. destruct a; cbn; eauto.
  unfold _execute_mechanics. cbn [TurnIntent.action String.eqb Ascii.eqb Bool.eqb].
  unfold bind at 1. unfold roll_d20, bind at 1. unfold randint at 1.
  destruct (next_randint 1 20 (rng sess)) as [r g]. cbn [_log_roll bind ret].
  unfold bind at 1. cbn [TurnIntent.weapon_damage].
  match goal with |- context [if ?b then roll _ _ else _] => destruct b end.
  - match goal with |- context [roll "1d6" None ?s] =>
      destruct (roll_dice_formula "1d6" None s 1 6 0 dice_formula_1d6) as (rs' & g' & Hr & _);
        [lia|lia|rewrite Hr]
    end. cbn. eauto.
  - cbn. eauto.
Qed.

(** The pipeline always returns a result: no branch of the model raises. *)
Lemma execute_turn_returns session character player_text llm_client override creator :
  exists r,
    execute_turn_for_state session character player_text llm_client override creator = Ok r.
Proof.
  assert (Hpipe : forall intent errors,
            exists r, _execute_intent_pipeline session character intent errors player_text
                      = Ok r).
  { intros intent errors. unfold _execute_intent_pipeline.
    destruct (_validate_impossible_action _ _ _); [eauto|].
    destruct (_ensure_resources character) as [actions reactions].
    assert (Hmech : exists o s',
              (run _consume_rolls (roll_index session);
               _execute_mechanics (_intent_to_turn_intent intent))
                (new_session match rng_seed session with Some s => s | None => 0 end)
              = (Ok o, s')).
    { unfold bind. rewrite consume_rolls_skip.
      apply execute_mechanics_returns. }
    destruct Hmech as (o & s' & Hmech). rewrite Hmech.
    destruct (_validate_intent _ _ _ _); destruct (Intent.action_type intent); eauto. }
  unfold execute_turn_for_state.
  destruct (_is_memory_recall_request _); [eauto|].
  destruct (negb _); [eauto|].
  destruct override; [apply Hpipe|].
  destruct (generate_turn_envelope llm_client) as [envelope|]; [|eauto].
  set (decision := route_envelope envelope _).
  assert (Hrest :
    exists r,
    (if freeze_time decision || negb (execute decision)
     then Ok (_clarify_turn_result
                (clarifying (opt_str (str_or (reason decision) (Some "clarification"%string))))
                []
                match ooc_questions decision with
                | Some (q :: qs) => q :: qs
                | _ => ["Choose an action to proceed."%string]
                end)
     else match match TurnEnvelope.gm_plan envelope with
                | Some _ => _maybe_create_project envelope creator
                | None => None
                end with
          | Some project_result => Ok project_result
          | None =>
              let '(intent, errors) := _extract_intent_or_fallback llm_client in
              _execute_intent_pipeline session character intent errors player_text
          end) = Ok r).
  { destruct (_ || _); [eauto|].
    destruct (match TurnEnvelope.gm_plan envelope with Some _ => _ | None => _ end); [eauto|].
    destruct (_extract_intent_or_fallback llm_client). apply Hpipe. }
  destruct (protocol_id decision); eauto.
Qed.

(** C9. Pipeline clarification invariant: every result the turn pipeline
    returns with needs_clarification = true has an empty state diff. *)
Theorem clarification_has_empty_state_diff
    session character player_text llm_client override creator r :
  execute_turn_for_state session character player_text llm_client override creator = Ok r ->
  TurnResult.needs_clarification r = true ->
  TurnResult.state_diff r = [].
Proof.
  intros Hrun Hneeds.
  destruct (execute_turn_diff _ _ _ _ _ _ _ Hrun) as [H|H]; [congruence|exact H].
Qed.

End TurnProperties.

(* ===================================================================== *)
(** * Further properties of the engine                                    *)
(* ===================================================================== *)

(** ** Text *)

Module TextFacts.
Import Text Formula.

Lemma lower_char_classes (c : ascii) :
  lower_char (lower_char c) = lower_char c /\ is_space (lower_char c) = is_space c.
Proof. destruct c as [[] [] [] [] [] [] [] []]; vm_compute; split; reflexivity. Qed.

Lemma chars_text l : chars (text l) = l.
Proof. apply list_ascii_of_string_of_list_ascii. Qed.

Lemma text_chars s : text (chars s) = s.
Proof. apply string_of_list_ascii_of_string. Qed.

Lemma drop_while_lower l :
  drop_while is_space (map lower_char l) = map lower_char (drop_while is_space l).
Proof.
  induction l as [|c l IH]; cbn; [reflexivity|].
  destruct (lower_char_classes c) as [_ ->]. destruct (is_space c); auto.
Qed.

Lemma strip_chars_lower l :
  strip_chars (map lower_char l) = map lower_char (strip_chars l).
Proof.
  unfold strip_chars.
  now rewrite drop_while_lower, <- map_rev, drop_while_lower, map_rev.
Qed.

(** What [strip] leaves neither starts nor ends with a blank. *)
Lemma strip_chars_trimmed l :
  stops is_space (strip_chars l) /\ stops is_space (rev (strip_chars l)).
Proof.
  unfold strip_chars. set (m := drop_while is_space l).
  pose proof (FormulaFacts.drop_while_stops is_space l) as Hm. fold m in Hm.
  pose proof (FormulaFacts.take_drop is_space (rev m)) as Hsplit.
  pose proof (FormulaFacts.drop_while_stops is_space (rev m)) as Hr.
  set (r' := drop_while is_space (rev m)) in *.
  split; [|now rewrite rev_involutive].
  assert (Hm' : m = rev r' ++ rev (take_while is_space (rev m))).
  { rewrite <- rev_app_distr, Hsplit. now rewrite rev_involutive. }
  destruct (rev r') as [|c t] eqn:E; [exact I|].
  rewrite Hm' in Hm. exact Hm.
Qed.

Lemma strip_chars_fixed l :
  stops is_space l -> stops is_space (rev l) -> strip_chars l = l.
Proof.
  intros H1 H2. unfold strip_chars.
  rewrite (FormulaFacts.drop_while_id is_space l H1).
  rewrite (FormulaFacts.drop_while_id is_space (rev l) H2).
  apply rev_involutive.
Qed.

Lemma strip_strip s : strip (strip s) = strip s.
Proof.
  unfold strip. rewrite chars_text. f_equal.
  destruct (strip_chars_trimmed (chars s)). now apply strip_chars_fixed.
Qed.

Lemma lower_lower s : lower (lower s) = lower s.
Proof.
  unfold lower. rewrite chars_text, map_map. f_equal.
  apply map_ext. intros c. apply lower_char_classes.
Qed.

Lemma strip_lower s : strip (lower s) = lower (strip s).
Proof. unfold strip, lower. now rewrite !chars_text, strip_chars_lower. Qed.

(** [strip] of text framed by blanks. *)
Lemma strip_chars_framed w1 core w2 :
  blanks w1 -> blanks w2 -> core <> [] ->
  stops is_space core -> stops is_space (rev core) ->
  strip_chars (w1 ++ core ++ w2) = core.
Proof.
  intros H1 H2 Hne Hc Hr. unfold strip_chars.
  assert (Hcw : stops is_space (core ++ w2)) by (destruct core; [congruence|exact Hc]).
  rewrite (FormulaFacts.drop_while_app is_space w1 _ H1 Hcw).
  rewrite rev_app_distr.
  assert (H2' : forallb is_space (rev w2) = true)
    by (now rewrite FormulaFacts.forallb_reverse).
  assert (Hrs : stops is_space (rev core ++ [])) by (now rewrite app_nil_r).
  pose proof (FormulaFacts.drop_while_app is_space (rev w2) (rev core ++ []) H2' Hrs) as Hd.
  rewrite app_nil_r in Hd. rewrite Hd. apply rev_involutive.
Qed.

(** [str(n)] is the decimal numeral of n. *)
Lemma uint_digits (d : Decimal.uint) :
  forallb is_digit (chars (NilEmpty.string_of_uint d)) = true.
Proof. induction d; cbn; auto. Qed.

Lemma uint_value_acc (d : Decimal.uint) : forall acc : positive,
  fold_left (fun a c => 10 * a + digit_value c)
    (chars (NilEmpty.string_of_uint d)) (Z.pos acc)
  = Z.pos (Pos.of_uint_acc d acc).
Proof.
  induction d; intros acc;
    cbn [NilEmpty.string_of_uint chars list_ascii_of_string fold_left Pos.of_uint_acc];
    [reflexivity|..]; rewrite <- IHd; f_equal;
    match goal with
    | |- context [digit_value ?c] =>
        let v := eval vm_compute in (digit_value c) in change (digit_value c) with v
    end; lia.
Qed.

Lemma uint_value (d : Decimal.uint) :
  int_of_digits (chars (NilEmpty.string_of_uint d)) = Z.of_N (Pos.of_uint d).
Proof.
  unfold int_of_digits.
  induction d;
    cbn [NilEmpty.string_of_uint chars list_ascii_of_string fold_left Pos.of_uint];
    [reflexivity|exact IHd|..]; apply (uint_value_acc d).
Qed.

Lemma str_of_Z_digits (n : Z) :
  0 <= n ->
  digits (chars (str_of_Z n)) /\ int_of_digits (chars (str_of_Z n)) = n.
Proof.
  intros Hn. destruct n as [|p|p]; [| |lia].
  - split; [split; [discriminate|reflexivity]|reflexivity].
  - unfold str_of_Z. cbn [Z.to_int NilZero.string_of_int].
    pose proof (Unsigned.to_uint_nonnil p) as Hnil.
    assert (Hs : NilZero.string_of_uint (Pos.to_uint p)
                 = NilEmpty.string_of_uint (Pos.to_uint p)).
    { unfold NilZero.string_of_uint. destruct (Pos.to_uint p); congruence. }
    rewrite Hs. split; [split|].
    + destruct (Pos.to_uint p); [congruence|..]; discriminate.
    + apply uint_digits.
    + now rewrite uint_value, Unsigned.of_to.
Qed.

Lemma uint_length (d : Decimal.uint) :
  length (chars (NilEmpty.string_of_uint d)) = Decimal.nb_digits d.
Proof. induction d; cbn; auto. Qed.

Lemma digits_uint (ds : list ascii) :
  forallb is_digit ds = true ->
  exists d, chars (NilEmpty.string_of_uint d) = ds.
Proof.
  induction ds as [|c ds IH]; intros H; [now exists Decimal.Nil|].
  cbn [forallb] in H. apply andb_prop in H. destruct H as [Hc H].
  destruct (IH H) as (d & <-).
  destruct c as [[] [] [] [] [] [] [] []]; try discriminate Hc;
    first [ now exists (Decimal.D0 d) | now exists (Decimal.D1 d)
          | now exists (Decimal.D2 d) | now exists (Decimal.D3 d)
          | now exists (Decimal.D4 d) | now exists (Decimal.D5 d)
          | now exists (Decimal.D6 d) | now exists (Decimal.D7 d)
          | now exists (Decimal.D8 d) | now exists (Decimal.D9 d) ].
Qed.

(** The numeral of an integer is no longer than any numeral that stands for
    it. *)
Lemma str_of_Z_shortest (ds : list ascii) :
  digits ds ->
  (length (chars (str_of_Z (int_of_digits ds))) <= length ds)%nat.
Proof.
  intros [Hne Hd]. destruct (digits_uint ds Hd) as (d & <-).
  rewrite uint_value, uint_length.
  assert (Hnil : d <> Decimal.Nil) by (intros ->; now apply Hne).
  pose proof (Unsigned.to_of d) as Hto.
  pose proof (DecimalFacts.nb_digits_unorm d Hnil) as Hle.
  destruct (Pos.of_uint d) as [|p].
  - cbn. destruct d; [congruence|..]; cbn; lia.
  - cbn [Z.of_N]. unfold str_of_Z. cbn [Z.to_int NilZero.string_of_int].
    cbn [N.to_uint] in Hto.
    pose proof (Unsigned.to_uint_nonnil p) as Hp.
    assert (Hs : NilZero.string_of_uint (Pos.to_uint p)
                 = NilEmpty.string_of_uint (Pos.to_uint p)).
    { unfold NilZero.string_of_uint. destruct (Pos.to_uint p); congruence. }
    rewrite Hs, uint_length, Hto. exact Hle.
Qed.

Lemma str_of_Z_short (ds : list ascii) :
  digits ds -> short ds -> short (chars (str_of_Z (int_of_digits ds))).
Proof.
  intros Hd Hs. pose proof (str_of_Z_shortest ds Hd) as Hle.
  unfold short, within_limit in *. apply Z.leb_le in Hs. apply Z.leb_le. lia.
Qed.

Lemma chars_append (a b : string) : chars (String.append a b) = chars a ++ chars b.
Proof.
  unfold chars. induction a as [|c a IH]; [reflexivity|].
  change (c :: list_ascii_of_string (String.append a b)
          = c :: list_ascii_of_string a ++ list_ascii_of_string b).
  now rewrite IH.
Qed.

Lemma starts_with_app p : forall l1 l2,
  starts_with p l1 = true -> starts_with p (l1 ++ l2) = true.
Proof.
  induction p as [|c p IH]; intros l1 l2; [reflexivity|].
  destruct l1 as [|d l1]; cbn; [discriminate|].
  intros H. apply andb_prop in H. destruct H as [-> H]. cbn. now apply IH.
Qed.

Lemma contains_chars_app n l1 l2 :
  contains_chars n l1 = true -> contains_chars n (l1 ++ l2) = true.
Proof.
  induction l1 as [|c l1 IH]; cbn [contains_chars app].
  - rewrite orb_false_r. intros H. destruct n; [|discriminate].
    destruct l2; reflexivity.
  - intros H. apply orb_prop in H. destruct H as [H|H].
    + change (c :: l1 ++ l2) with ((c :: l1) ++ l2).
      rewrite (starts_with_app n (c :: l1) l2 H). reflexivity.
    + rewrite (IH H). apply orb_true_r.
Qed.

(** A needle found in the lower-cased text is found when more text follows. *)
Lemma contains_lower_append needle a b :
  contains needle (lower a) = true ->
  contains needle (lower (String.append a b)) = true.
Proof.
  unfold contains. fold (chars (lower a)). fold (chars (lower (String.append a b))).
  unfold lower. rewrite !chars_text, chars_append, map_app.
  apply contains_chars_app.
Qed.

End TextFacts.

(** ** Status ledger *)

(** X1. Canonical names.  A name that [normalize_status] accepts is sent to
    one of the ten names of the vocabulary; the result is a fixed point, and
    neither the case of the letters nor blanks around the name matter. *)
Theorem normalize_status_canonical_form (name c : string) :
  normalize_status name = Ok c ->
  canonical c /\
  normalize_status c = Ok c /\
  normalize_status (Text.lower name) = Ok c /\
  normalize_status (Text.strip name) = Ok c.
Proof.
  intros H. pose proof (normalize_is_canonical name c H) as Hc.
  split; [exact Hc|]. split; [now apply normalize_canonical|].
  unfold normalize_status in *.
  rewrite TextFacts.strip_lower, TextFacts.lower_lower, TextFacts.strip_strip.
  destruct (Dict.get (Text.lower (Text.strip name)) STATUS_CANONICAL);
    [|discriminate].
  injection H as <-. split; reflexivity.
Qed.

Lemma ramp_entry_escalates c trigger_key amount e :
  valid_entry e -> 0 <= amount ->
  let e' := ramp_entry c trigger_key amount e in
  valid_entry e' /\ stacks e <= stacks e' /\ level e <= level e' /\
  (forall d, duration e = Some d -> exists d', duration e' = Some d' /\ d <= d').
Proof.
  intros [Hs Hl] Ha. unfold ramp_entry, valid_entry, duration_or_zero.
  repeat match goal with
         | |- context [if ?b then _ else _] => destruct b
         end;
    try destruct (default_duration c);
    cbn; (repeat split; try lia);
    intros d Hd; rewrite Hd; eexists; (split; [reflexivity|lia]).
Qed.

(** X2. Ramping escalates.  On a ledger that respects the entry invariants
    and with a non-negative amount, [ramp_status] leaves a ledger that
    respects them; the stacks and the level of the ramped entry never go
    down, a numeric duration stays numeric and never goes down, and the
    entries of the other statuses are left as they were. *)
Theorem ramp_status_escalates (L : Ledger) (name trigger : string) (amount : Z)
    (L' : Ledger) (c : string) (e : StatusEntry) :
  valid_ledger L -> 0 <= amount ->
  ramp_status L name trigger amount = Ok L' ->
  normalize_status name = Ok c ->
  Dict.get c L = Some e ->
  valid_ledger L' /\
  (exists e', Dict.get c L' = Some e' /\
     stacks e <= stacks e' /\ level e <= level e' /\
     (forall d, duration e = Some d ->
        exists d', duration e' = Some d' /\ d <= d')) /\
  (forall n, n <> c -> Dict.get n L' = Dict.get n L).
Proof.
  intros Hv Ha H Hn Hg. unfold ramp_status in H. rewrite Hn, Hg in H.
  injection H as <-.
  destruct (valid_ledger_get _ _ _ Hv Hg) as [Hc He].
  destruct (ramp_entry_escalates c (Text.lower (Text.strip trigger)) amount e He Ha)
    as (He' & Hs & Hl & Hd).
  destruct Hv as [Hnd HF]. split; [|split].
  - split; [now apply DictFacts.set_NoDup|].
    apply DictFacts.set_Forall; [exact HF|]. split; [exact Hc|exact He'].
  - eexists. split; [apply DictFacts.get_set_eq|]. auto.
  - intros n Hne. apply DictFacts.get_set_ne. congruence.
Qed.

(** X3. A trigger word that [ramp_status] does not know.  An entry that is
    there is left as it was, the whole ledger with it; but a status that is
    not in the ledger is added to it, with 1 stack, level 1 and no
    duration. *)
Theorem ramp_status_unknown_trigger (L : Ledger) (name trigger : string)
    (amount : Z) (c : string) :
  one_of (Text.lower (Text.strip trigger)) RAMP_TRIGGERS = false ->
  normalize_status name = Ok c ->
  ramp_status L name trigger amount =
    Ok (match Dict.get c L with
        | Some _ => L
        | None => L ++ [(c, {| stacks := 1; level := 1; duration := None |})]
        end).
Proof.
  intros Ht Hn. unfold ramp_status. rewrite Hn.
  set (t := Text.lower (Text.strip trigger)) in *.
  assert (Hsame : forall e, ramp_entry c t amount e = e).
  { intros e. unfold ramp_entry, one_of in *. cbn [existsb] in *.
    repeat (apply orb_false_elim in Ht; destruct Ht as [? Ht]).
    repeat match goal with
           | H : String.eqb t _ = false |- _ => rewrite H; clear H
           end.
    now rewrite !andb_false_r. }
  rewrite Hsame. f_equal.
  destruct (Dict.get c L) as [e|] eqn:Hg.
  - now apply DictFacts.set_same.
  - now apply DictFacts.set_absent.
Qed.

(** One "turn" tick, entry by entry. *)
Lemma tick_turn_once L :
  valid_ledger L ->
  exists L' hp_delta expired,
    tick_statuses L "turn" = Ok (L', hp_delta, expired) /\ valid_ledger L' /\
    forall name e, Dict.get name L = Some e ->
      Dict.get name L' =
        match duration e with
        | Some d =>
            if d <=? 1 then None
            else Some {| stacks := stacks e; level := level e; duration := Some (d - 1) |}
        | None => Some e
        end.
Proof.
  intros Hv. pose proof (tick_statuses_valid L "turn" Hv) as Hrun.
  change (Text.lower (Text.strip "turn")) with "turn"%string in Hrun.
  do 3 eexists. split; [exact Hrun|]. split.
  - exact (tick_statuses_keeps_valid _ _ _ _ _ Hv Hrun).
  - intros name e Hg. destruct Hv as [Hnd _].
    rewrite (get_entries_after "turn" L name e Hnd Hg).
    unfold entry_after. cbn [String.eqb Ascii.eqb Bool.eqb]. rewrite andb_false_r.
    destruct (duration e) as [d|]; [|reflexivity].
    now replace (d - 1 <=? 0) with (d <=? 1)
      by (destruct (Z.leb_spec d 1), (Z.leb_spec (d - 1) 0); lia || reflexivity).
Qed.

Lemma tick_turns_survives (k : nat) : forall L name e d,
  valid_ledger L -> Dict.get name L = Some e -> duration e = Some d ->
  Z.of_nat k < d ->
  exists L', tick_turns k L = Ok L' /\ valid_ledger L' /\
    Dict.get name L' =
      Some {| stacks := stacks e; level := level e; duration := Some (d - Z.of_nat k) |}.
Proof.
  induction k as [|k IH]; intros L name e d Hv Hg Hd Hk.
  - exists L. cbn [tick_turns]. split; [reflexivity|]. split; [exact Hv|].
    rewrite Hg. f_equal. destruct e as [st lv du]. cbn in *. subst du.
    do 2 f_equal. lia.
  - destruct (tick_turn_once L Hv) as (L1 & hp_delta & expired & Hrun & Hv1 & Hent).
    cbn [tick_turns]. rewrite Hrun.
    pose proof (Hent name e Hg) as Hg1. rewrite Hd in Hg1.
    replace (d <=? 1) with false in Hg1 by (symmetry; apply Z.leb_gt; lia).
    destruct (IH L1 name _ (d - 1) Hv1 Hg1 eq_refl) as (L' & Hk' & Hv' & Hg'); [lia|].
    exists L'. split; [exact Hk'|]. split; [exact Hv'|].
    rewrite Hg'. cbn [stacks level]. do 3 f_equal. lia.
Qed.

Lemma tick_turns_expires (k : nat) : forall L name e,
  valid_ledger L -> Dict.get name L = Some e ->
  duration e = Some (Z.of_nat (S k)) ->
  exists L', tick_turns (S k) L = Ok L' /\ Dict.get name L' = None.
Proof.
  induction k as [|k IH]; intros L name e Hv Hg Hd;
    destruct (tick_turn_once L Hv) as (L1 & hp_delta & expired & Hrun & Hv1 & Hent);
    pose proof (Hent name e Hg) as Hg1; rewrite Hd in Hg1.
  - exists L1. cbn [tick_turns]. rewrite Hrun. split; [reflexivity|exact Hg1].
  - replace (Z.of_nat (S (S k)) <=? 1) with false in Hg1
      by (symmetry; apply Z.leb_gt; lia).
    destruct (IH L1 name _ Hv1 Hg1) as (L' & Hk' & Hg').
    { cbn [duration]. f_equal. lia. }
    exists L'. split; [|exact Hg'].
    change (tick_turns (S (S k)) L) with
      (match tick_statuses L "turn" with
       | Ok (L0, _, _) => tick_turns (S k) L0
       | Raise err => Raise err
       end).
    now rewrite Hrun.
Qed.

(** X4. Expiry on schedule.  On a ledger that respects the entry invariants,
    an entry with d >= 1 ticks remaining is still there after any k < d
    "turn" ticks, with the same stacks and level and d - k ticks remaining,
    and is gone after the d-th. *)
Theorem status_expires_on_schedule (L : Ledger) (name : string) (e : StatusEntry)
    (d : Z) (k : nat) :
  valid_ledger L -> Dict.get name L = Some e -> duration e = Some d -> 1 <= d ->
  (Z.of_nat k < d ->
     exists L', tick_turns k L = Ok L' /\
       Dict.get name L' =
         Some {| stacks := stacks e; level := level e;
                 duration := Some (d - Z.of_nat k) |}) /\
  (exists L', tick_turns (Z.to_nat d) L = Ok L' /\ Dict.get name L' = None).
Proof.
  intros Hv Hg Hd H1. split.
  - intros Hk. destruct (tick_turns_survives k L name e d Hv Hg Hd Hk)
      as (L' & Hrun & _ & Hg'). eauto.
  - destruct (Z.to_nat d) as [|n] eqn:En; [lia|].
    apply (tick_turns_expires n L name e Hv Hg). rewrite Hd. f_equal. lia.
Qed.

(** The entries of one key, summed. *)
Lemma sum_at_key (f : StatusEntry -> Z) (k : string) (L : Ledger) :
  List.NoDup (Dict.keys L) ->
  sum_Z (map (fun '(n, e) => if String.eqb n k then f e else 0) L)
  = match Dict.get k L with Some e => f e | None => 0 end.
Proof.
  induction L as [|[n e] L IH]; cbn; [reflexivity|]. intros Hnd.
  apply List.NoDup_cons_iff in Hnd. destruct Hnd as [Hn Hnd].
  fold (sum_Z (map (fun '(n0, e0) => if String.eqb n0 k then f e0 else 0) L)).
  rewrite (IH Hnd), (String.eqb_sym k n).
  destruct (String.eqb_spec n k) as [->|]; [|lia].
  rewrite (DictFacts.get_None k L Hn). lia.
Qed.

(** X5. Ticks that are not "turn" ticks.  On a ledger that respects the
    entry invariants nothing expires and no duration changes; a "day" tick
    raises the level of Disease by one and takes the new level from HP, and
    leaves every other entry as it was; any other tick type changes nothing
    and takes nothing. *)
Theorem tick_statuses_off_turn (L : Ledger) (tick_type : string) :
  valid_ledger L ->
  let tick_key := Text.lower (Text.strip tick_type) in
  tick_key <> "turn"%string ->
  exists L',
    tick_statuses L tick_type =
      Ok (L',
          (if String.eqb tick_key "day"
           then match Dict.get "Disease" L with
                | Some e => - (level e + 1)
                | None => 0
                end
           else 0),
          []) /\
    (forall name e, Dict.get name L = Some e ->
       Dict.get name L' =
         Some (if String.eqb name "Disease" && String.eqb tick_key "day"
               then {| stacks := stacks e; level := level e + 1;
                       duration := duration e |}
               else e)) /\
    (String.eqb tick_key "day" = false -> L' = L).
Proof.
  intros Hv tick_key Hkey. rewrite (tick_statuses_valid L tick_type Hv). fold tick_key.
  assert (Hturn : String.eqb tick_key "turn" = false) by now apply String.eqb_neq.
  assert (Hafter : forall name e, valid_entry e ->
            entry_after tick_key name e =
              Some (if String.eqb name "Disease" && String.eqb tick_key "day"
                    then {| stacks := stacks e; level := level e + 1;
                            duration := duration e |}
                    else e)).
  { intros name e [_ Hl]. unfold entry_after. rewrite Hturn.
    replace (Z.max 1 (level e)) with (level e) by lia.
    destruct (duration e); reflexivity. }
  destruct Hv as [Hnd HF].
  assert (Hdmg : total_damage tick_key L =
                 if String.eqb tick_key "day"
                 then match Dict.get "Disease" L with
                      | Some e => level e + 1
                      | None => 0
                      end
                 else 0).
  { unfold total_damage. destruct (String.eqb tick_key "day") eqn:Hday.
    - rewrite <- (sum_at_key (fun e => level e + 1) "Disease" L Hnd).
      f_equal. clear Hnd. induction L as [|[n e] L IH]; cbn; [reflexivity|].
      apply List.Forall_cons_iff in HF. destruct HF as [[_ [_ Hl]] HF]. cbn in Hl.
      rewrite (IH HF). f_equal. unfold entry_damage. rewrite Hturn, Hday.
      rewrite !andb_false_r, andb_true_r.
      destruct (String.eqb n "Disease"); lia.
    - clear Hnd. induction L as [|[n e] L IH]; cbn; [reflexivity|].
      apply List.Forall_cons_iff in HF. destruct HF as [_ HF].
      fold (sum_Z (map (fun '(n0, e0) => entry_damage tick_key n0 e0) L)).
      rewrite (IH HF). unfold entry_damage. rewrite Hturn, Hday.
      now rewrite !andb_false_r. }
  assert (Hexp : expired_names tick_key L = []).
  { clear Hnd Hdmg. induction L as [|[n e] L IH]; cbn; [reflexivity|].
    apply List.Forall_cons_iff in HF. destruct HF as [[_ He] HF]. cbn in He.
    rewrite (Hafter n e He). cbn. now apply IH. }
  exists (entries_after tick_key L). split; [|split].
  - rewrite Hdmg, Hexp. do 2 f_equal.
    destruct (String.eqb tick_key "day"); [|reflexivity].
    now destruct (Dict.get "Disease" L).
  - intros name e Hg. rewrite (get_entries_after tick_key L name e Hnd Hg).
    apply Hafter.
    rewrite List.Forall_forall in HF. apply DictFacts.get_In in Hg.
    exact (proj2 (HF _ Hg)).
  - intros Hday. clear Hnd Hdmg Hexp.
    induction L as [|[n e] L IH]; cbn; [reflexivity|].
    apply List.Forall_cons_iff in HF. destruct HF as [[_ He] HF]. cbn in He.
    rewrite (Hafter n e He), Hday, andb_false_r. cbn. f_equal. now apply IH.
Qed.

Lemma total_dex_penalty_fold (L : Ledger) : forall acc,
  List.Forall (fun item => canonical (fst item)) L ->
  fold_left (fun acc '(name, entry) =>
               match acc, normalize_status name with
               | Ok p, Ok canonical =>
                   if String.eqb canonical "Cold"
                   then Ok (p + Z.max 1 (level entry)) else Ok p
               | Raise e, _ => Raise e
               | _, Raise e => Raise e
               end) L (Ok acc)
  = Ok (acc + sum_Z (map (fun '(n, e) =>
                            if String.eqb n "Cold" then Z.max 1 (level e) else 0) L)).
Proof.
  induction L as [|[n e] L IH]; intros acc HF; cbn [fold_left map].
  - cbn. f_equal. lia.
  - apply List.Forall_cons_iff in HF. destruct HF as [Hc HF]. cbn [fst] in Hc.
    rewrite (normalize_canonical n Hc).
    cbn [sum_Z fold_right].
    fold (sum_Z (map (fun '(n0, e0) =>
                        if String.eqb n0 "Cold" then Z.max 1 (level e0) else 0) L)).
    destruct (String.eqb n "Cold"); rewrite (IH _ HF); f_equal; lia.
Qed.

Lemma cold_level_penalty (L : Ledger) :
  valid_ledger L ->
  total_dex_penalty L =
    Ok (match Dict.get "Cold" L with Some e => level e | None => 0 end).
Proof.
  intros Hv. unfold total_dex_penalty.
  rewrite total_dex_penalty_fold.
  - destruct Hv as [Hnd HF].
    rewrite (sum_at_key (fun e => Z.max 1 (level e)) "Cold" L Hnd). f_equal.
    destruct (Dict.get "Cold" L) as [e|] eqn:Hg; [|reflexivity].
    destruct (valid_ledger_get L "Cold" e (conj Hnd HF) Hg) as [_ [_ Hl]]. lia.
  - destruct Hv as [_ HF]. eapply List.Forall_impl; [|exact HF]. cbn. tauto.
Qed.

(** X6. The dexterity penalty.  On a ledger that respects the entry
    invariants [total_dex_penalty] does not raise: it is the level of the
    Cold entry, and 0 when the ledger has none. *)
Theorem total_dex_penalty_is_cold_level (L : Ledger) :
  valid_ledger L ->
  total_dex_penalty L =
    Ok (match Dict.get "Cold" L with Some e => level e | None => 0 end)
  /\
  (forall e, Dict.get "Cold" L = Some e -> 1 <= level e).
Proof.
  intros Hv. split; [now apply cold_level_penalty|].
  intros e Hg. now destruct (valid_ledger_get L "Cold" e Hv Hg) as [_ [_ Hl]].
Qed.

(** X7. The entry invariants are kept.  From a ledger with canonical names,
    one entry per name, stacks >= 1 and level >= 1, an application with a
    level of at least 1 (whatever the stacks and the duration given) and a
    tick of any type leave such a ledger. *)
Theorem status_ledger_invariants_kept (L : Ledger) :
  valid_ledger L ->
  (forall name st lvl dur L',
     1 <= lvl -> apply_status L name st lvl dur = Ok L' -> valid_ledger L') /\
  (forall tick_type, exists L' hp_delta expired,
     tick_statuses L tick_type = Ok (L', hp_delta, expired) /\ valid_ledger L').
Proof.
  intros Hv. split.
  - intros name st lvl dur L' Hl H.
    exact (apply_status_keeps_valid L name st lvl dur L' Hv Hl H).
  - intros tick_type. pose proof (tick_statuses_valid L tick_type Hv) as Hrun.
    do 3 eexists. split; [exact Hrun|].
    exact (tick_statuses_keeps_valid _ _ _ _ _ Hv Hrun).
Qed.

(** ** Dice ledger *)

Section DiceFurther.
Context {R : PRNG}.

(** X17. The d20.  [roll_d20] never raises; it returns the number that one
    [randint(1, 20)] on the generator of the session draws, between 1 and 20
    when [randint] respects its range; it leaves the session with the
    generator as that one draw left it and with exactly one entry appended:
    formula "1d20", the number drawn as total and as only die, modifier 0,
    the label given. *)
Theorem roll_d20_contract (lbl : option string) (sess : SessionState) :
  randint_in_range R ->
  let r := fst (next_randint 1 20 (rng sess)) in
  let g := snd (next_randint 1 20 (rng sess)) in
  roll_d20 lbl sess =
    (Ok r, {| seed := seed sess;
              turn_log := turn_log sess ++
                [{| formula := "1d20"; result := r; rolls := [r];
                    modifier := 0; label := lbl |}];
              rng := g |}) /\
  1 <= r <= 20.
Proof.
  intros HR r g. pose proof (HR 1 20 (rng sess)) as Hb. cbv zeta in Hb.
  subst r g. unfold roll_d20, bind, randint, _log_roll, ret.
  destruct (next_randint 1 20 (rng sess)) as [r g]. cbn in *.
  split; [reflexivity|lia].
Qed.

Lemma drawn_app ms1 ms2 g : drawn (ms1 ++ ms2) g = drawn ms2 (drawn ms1 g).
Proof. unfold drawn. apply fold_left_app. Qed.

Lemma roll_dice_drawn (n : nat) (sides : Z) : forall sess,
  exists rs,
    roll_dice n sides sess = (Ok rs, with_rng sess (drawn (repeat sides n) (rng sess))) /\
    length rs = n.
Proof.
  induction n as [|n IH]; intros sess.
  - exists []. cbn. now rewrite with_rng_same.
  - cbn [roll_dice repeat]. unfold bind at 1, randint at 1.
    destruct (next_randint 1 sides (rng sess)) as [r g] eqn:Er.
    fold (with_rng sess g).
    destruct (IH (with_rng sess g)) as (rs & Hrun & Hlen).
    unfold bind at 1. rewrite Hrun. cbn.
    exists (r :: rs). split; [|cbn; now rewrite Hlen].
    rewrite Er. cbn [snd]. reflexivity.
Qed.

(** One call: what it appends and what it draws. *)
Lemma perform_appends (c : Call) (sess : SessionState) :
  exists new ms,
    snd (perform c sess) =
      {| seed := seed sess; turn_log := turn_log sess ++ new;
         rng := drawn ms (rng sess) |} /\
    map result new = returned [fst (perform c sess)] /\
    length ms = dice_total new /\
    List.Forall entry_adds_up new.
Proof.
  assert (Hnone : forall e, returned [@Raise Z e] = [] /\
            sess = {| seed := seed sess; turn_log := turn_log sess ++ [];
                      rng := drawn [] (rng sess) |}).
  { intros e. split; [reflexivity|]. rewrite app_nil_r. now destruct sess. }
  destruct c as [lbl|dice_str lbl]; cbn [perform].
  - unfold roll_d20, bind, randint, _log_roll, ret.
    destruct (next_randint 1 20 (rng sess)) as [r g] eqn:Er. cbn [fst snd].
    exists [{| formula := "1d20"; result := r; rolls := [r]; modifier := 0;
               label := lbl |}], [20].
    unfold drawn. cbn. rewrite Er. repeat split; auto.
    constructor; [|constructor]. left. cbn. lia.
  - destruct (Pattern.match_integer dice_str) eqn:Hint.
    { rewrite (roll_integer_pattern dice_str lbl sess Hint).
      destruct (Text.py_int (Text.chars dice_str)) as [n|].
      - exists [{| formula := Text.str_of_Z n; result := n; rolls := [];
                   modifier := 0; label := lbl |}], [].
        cbn. repeat split; auto. constructor; [|constructor]. right. auto.
      - exists [], []. cbn [fst snd]. destruct (Hnone (rejection dice_str)).
        repeat split; auto. }
    destruct (Pattern.match_dice dice_str) as [[[ct st] mt]|] eqn:Hd.
    2:{ unfold roll. rewrite Hint, Hd. exists [], []. cbn [fst snd raise].
        destruct (Hnone (invalid_dice dice_str)). repeat split; auto. }
    rewrite (roll_dice_pattern dice_str lbl sess ct st mt Hint Hd).
    destruct (_ && _).
    2:{ exists [], []. cbn [fst snd].
        destruct (Hnone (rejection dice_str)). repeat split; auto. }
    destruct (_ || _).
    { exists [], []. cbn [fst snd raise].
      destruct (Hnone (invalid_dice dice_str)). repeat split; auto. }
    set (count := Z.to_nat _).
    destruct (roll_dice_drawn count (Text.int_of_digits st) sess) as (rs & Hrun & Hlen).
    match goal with
    | |- context [snd (?t sess)] =>
        assert (Hroll : t sess =
                  (Ok (sum_Z rs + Formula.modifier_of mt),
                   {| seed := seed sess;
                      turn_log := turn_log sess ++
                        [{| formula := Text.strip dice_str;
                            result := sum_Z rs + Formula.modifier_of mt; rolls := rs;
                            modifier := Formula.modifier_of mt; label := lbl |}];
                      rng := drawn (repeat (Text.int_of_digits st) count) (rng sess) |}))
          by (unfold bind at 1; rewrite Hrun; reflexivity);
        rewrite Hroll
    end.
    do 2 eexists. split; [reflexivity|]. split; [reflexivity|]. split.
    + rewrite repeat_length. unfold dice_total. cbn [fold_right rolls]. lia.
    + constructor; [|constructor]. left. reflexivity.
Qed.

Lemma run_calls_appends (cs : list Call) : forall sess,
  exists new ms,
    snd (run_calls cs sess) =
      {| seed := seed sess; turn_log := turn_log sess ++ new;
         rng := drawn ms (rng sess) |} /\
    map result new = returned (fst (run_calls cs sess)) /\
    length ms = dice_total new /\
    List.Forall entry_adds_up new.
Proof.
  induction cs as [|c cs IH]; intros sess.
  - exists [], []. cbn. rewrite app_nil_r. destruct sess. repeat split; constructor.
  - cbn [run_calls].
    destruct (perform_appends c sess) as (new1 & ms1 & Hs1 & Hr1 & Hl1 & Ha1).
    destruct (perform c sess) as [r sess1]. cbn [fst snd] in *.
    destruct (IH sess1) as (new2 & ms2 & Hs2 & Hr2 & Hl2 & Ha2).
    destruct (run_calls cs sess1) as [rs sess2]. cbn [fst snd] in *.
    exists (new1 ++ new2), (ms1 ++ ms2). split; [|split; [|split]].
    + rewrite Hs2, Hs1. cbn. now rewrite drawn_app, app_assoc.
    + rewrite map_app, Hr1, Hr2. unfold returned. cbn. now rewrite app_nil_r.
    + rewrite length_app, dice_total_app. lia.
    + apply List.Forall_app. auto.
Qed.

(** X18. The roll log only grows.  Whatever calls are made on a session,
    in whatever order, and whichever of them raise, its seed stays and its
    log is the log before followed by one entry for each call that
    returned, in order, with the total returned; a call that raises appends
    nothing.  In each entry appended the total is the sum of the dice plus
    the modifier, or there are no dice and no modifier (the entry of an
    integer formula). *)
Theorem roll_log_only_grows (cs : list Call) (sess : SessionState) :
  exists new,
    seed (snd (run_calls cs sess)) = seed sess /\
    turn_log (snd (run_calls cs sess)) = turn_log sess ++ new /\
    map result new = returned (fst (run_calls cs sess)) /\
    List.Forall entry_adds_up new.
Proof.
  destruct (run_calls_appends cs sess) as (new & ms & Hs & Hr & _ & Ha).
  exists new. rewrite Hs. auto.
Qed.

(** X19. What the generator has been asked.  After any calls, the generator
    of the session is the one it had, asked for one [randint(1, m)] per
    component die of the entries appended, and for nothing else: a d20 call
    asks once, a roll of N d M asks N times, an integer formula and a call
    that raises never ask. *)
Theorem generator_draws_match_the_log (cs : list Call) (sess : SessionState) :
  exists new ms,
    turn_log (snd (run_calls cs sess)) = turn_log sess ++ new /\
    rng (snd (run_calls cs sess)) = drawn ms (rng sess) /\
    Z.of_nat (length ms) = _count_rolls new.
Proof.
  destruct (run_calls_appends cs sess) as (new & ms & Hs & _ & Hl & _).
  exists new, ms. rewrite Hs. cbn. repeat split.
  rewrite Hl. symmetry. apply count_rolls_total.
Qed.

Lemma stops_app (p : ascii -> bool) l r :
  l <> [] -> Formula.stops p l -> Formula.stops p (l ++ r).
Proof. destruct l; [congruence|auto]. Qed.

Lemma dice_pattern_strip s cs ss ms :
  Formula.dice_pattern s cs ss ms -> Formula.dice_pattern (Text.strip s) cs ss ms.
Proof.
  intros (w1 & d & w2 & Hs & H1 & Hd & H2 & Hg).
  pose proof Hg as (Hc & Hss & Hm).
  set (core := cs ++ d :: ss ++ Formula.modifier_chars ms).
  assert (Hs' : Text.chars s = w1 ++ core ++ w2).
  { rewrite Hs. unfold core. now rewrite <- !app_assoc, <- app_comm_cons, <- app_assoc. }
  assert (Hne : core <> []) by (unfold core; destruct cs; discriminate).
  assert (Hfirst : Formula.stops Text.is_space core).
  { unfold core. destruct cs as [|c cs]; cbn.
    - FormulaFacts.classes d.
    - unfold Formula.all_digits in Hc. cbn in Hc. apply andb_prop in Hc.
      destruct Hc as [Hc _]. FormulaFacts.classes c. }
  assert (Hrev : forall ds, Formula.digits ds -> rev ds <> []).
  { intros ds [Hn _] E. apply Hn.
    apply (f_equal (@rev ascii)) in E. now rewrite rev_involutive in E. }
  assert (Hlast : Formula.stops Text.is_space (rev core)).
  { unfold core. rewrite rev_app_distr. cbn [rev]. rewrite rev_app_distr, <- !app_assoc.
    destruct ms as [t|]; cbn [Formula.modifier_chars rev app].
    - destruct Hm as (sg & ds & -> & _ & Hds). cbn [rev]. rewrite <- app_assoc.
      apply stops_app; [now apply Hrev|now apply FormulaFacts.digits_last].
    - apply stops_app; [now apply Hrev|now apply FormulaFacts.digits_last]. }
  exists [], d, [].
  repeat split; auto; try apply Hss.
  unfold Text.strip. rewrite TextFacts.chars_text, Hs'.
  rewrite (TextFacts.strip_chars_framed w1 core w2 H1 H2 Hne Hfirst Hlast).
  unfold core. cbn [app]. now rewrite app_nil_r.
Qed.

Lemma dice_formula_strip s N M K :
  Formula.dice_formula s N M K -> Formula.dice_formula (Text.strip s) N M K.
Proof.
  intros (cs & ss & ms & Hp & Hshort & HN & HM & HK).
  exists cs, ss, ms. repeat split; auto; try apply Hshort.
  now apply dice_pattern_strip.
Qed.

Lemma integer_pattern_str (ds : list ascii) :
  Formula.digits ds -> Formula.short ds ->
  let t := Text.chars (Text.str_of_Z (Text.int_of_digits ds)) in
  Formula.integer_pattern (Text.str_of_Z (Text.int_of_digits ds)) [] t [] /\
  Formula.short t /\ Text.int_of_digits t = Text.int_of_digits ds.
Proof.
  intros Hd Hs t.
  destruct (TextFacts.str_of_Z_digits (Text.int_of_digits ds)) as [Hdt Hv].
  { apply FormulaFacts.int_of_digits_nonneg, Hd. }
  split; [|split; [now apply TextFacts.str_of_Z_short|exact Hv]].
  repeat split; try apply Hdt. cbn [app]. now rewrite app_nil_r.
Qed.

(** What [roll] accepted. *)
Lemma roll_accepts s lbl sess v sess' :
  roll s lbl sess = (Ok v, sess') ->
  (exists w1 ds w2,
     Formula.integer_pattern s w1 ds w2 /\ Formula.plain_blanks w1 /\
     Formula.plain_blanks w2 /\ Formula.short ds /\ v = Text.int_of_digits ds) \/
  exists N M K, Formula.dice_formula s N M K /\ 1 <= N /\ 1 <= M.
Proof.
  destruct (Pattern.match_integer s) eqn:Hint.
  - rewrite (roll_integer_pattern s lbl sess Hint).
    destruct (Text.py_int (Text.chars s)) as [n|] eqn:Hn; [|discriminate].
    intros [= <- _]. left. now apply FormulaFacts.match_integer_read.
  - destruct (Pattern.match_dice s) as [[[ct st] mt]|] eqn:Hd.
    + rewrite (roll_dice_pattern s lbl sess ct st mt Hint Hd).
      pose proof (FormulaFacts.match_dice_sound _ _ _ _ Hd) as Hf.
      destruct (Text.within_limit ct && Text.within_limit st
                && Text.within_limit (Formula.modifier_digits mt)) eqn:Hlim;
        [|discriminate].
      apply andb_prop in Hlim. destruct Hlim as [Hlim H3].
      apply andb_prop in Hlim. destruct Hlim as [H1 H2].
      destruct ((Formula.count_of ct <=? 0) || (Text.int_of_digits st <=? 0)) eqn:Hle;
        [discriminate|].
      intros _. right. apply orb_false_elim in Hle. destruct Hle as [Hc Hs].
      apply Z.leb_gt in Hc, Hs. exists (Formula.count_of ct), (Text.int_of_digits st),
        (Formula.modifier_of mt).
      split; [|lia]. exists ct, st, mt. repeat split; auto.
    + unfold roll. rewrite Hint, Hd. discriminate.
Qed.

(** X20. Logged formulas replay.  The formula that a roll logs (the string
    without the blanks around it, or the numeral of the integer) is one
    that [roll] accepts again, on any session and with any label: it logs
    the same formula with the same modifier and as many dice, and for an
    integer formula it returns the same total. *)
Theorem logged_formula_replays s lbl sess v sess' :
  roll s lbl sess = (Ok v, sess') ->
  exists e,
    turn_log sess' = turn_log sess ++ [e] /\ result e = v /\
    forall lbl2 sess2,
      exists v2 e2 g2,
        roll (formula e) lbl2 sess2 = (Ok v2, logged sess2 e2 g2) /\
        formula e2 = formula e /\ modifier e2 = modifier e /\
        length (rolls e2) = length (rolls e) /\
        (rolls e = [] -> v2 = v).
Proof.
  intros Hrun.
  destruct (roll_accepts s lbl sess v sess' Hrun)
    as [(w1 & ds & w2 & Hp & H1 & H2 & H3 & ->)|(N & M & K & Hf & HN & HM)].
  - rewrite (roll_integer_groups s lbl sess w1 ds w2 Hp H1 H2 H3) in Hrun.
    injection Hrun as <-.
    eexists. split; [reflexivity|]. split; [reflexivity|].
    intros lbl2 sess2. cbn [formula modifier rolls].
    destruct Hp as (_ & _ & Hd & _).
    destruct (integer_pattern_str ds Hd H3) as (Hpt & Hst & Hvt).
    rewrite (roll_integer_groups _ lbl2 sess2 _ _ _ Hpt eq_refl eq_refl Hst), Hvt.
    do 3 eexists. split; [reflexivity|]. repeat split.
  - destruct (roll_dice_formula s lbl sess N M K Hf HN HM) as (rs & g & Hr & Hlen & _).
    rewrite Hr in Hrun. injection Hrun as <- <-.
    eexists. split; [reflexivity|]. split; [reflexivity|].
    intros lbl2 sess2. cbn [formula modifier rolls].
    destruct (roll_dice_formula _ lbl2 sess2 N M K (dice_formula_strip s N M K Hf) HN HM)
      as (rs2 & g2 & Hr2 & Hlen2 & _).
    rewrite Hr2. do 3 eexists. split; [reflexivity|]. cbn [formula modifier rolls].
    split; [apply TextFacts.strip_strip|]. split; [reflexivity|]. split; [lia|].
    intros ->. cbn in Hlen. lia.
Qed.

End DiceFurther.

(** ** Combat *)

(** X8. Absorption.  With non-negative AP, HP and damage, [_apply_damage]
    never raises AP or HP and never leaves one negative; what they lose
    together is the damage, as far as there is AP and HP to lose; and HP is
    touched only when no AP is left. *)
Theorem apply_damage_accounting (ap_ hp_ damage_ : Z) :
  0 <= ap_ -> 0 <= hp_ -> 0 <= damage_ ->
  let '(ap', hp') := _apply_damage ap_ hp_ damage_ in
  0 <= ap' <= ap_ /\ 0 <= hp' <= hp_ /\
  (ap_ - ap') + (hp_ - hp') = Z.min damage_ (ap_ + hp_) /\
  (hp' < hp_ -> ap' = 0).
Proof. intros Ha Hh Hd. unfold _apply_damage. lia. Qed.

(** X9. A block never hurts.  With non-negative base AP, block AP and
    damage, the defender who blocks keeps at least the AP and the HP of the
    one who does not, and never more AP than the base: what is left of the
    block AP is lost. *)
Theorem block_never_hurts (base_ap hp_ damage_ block_ap : Z) :
  0 <= base_ap -> 0 <= block_ap -> 0 <= damage_ ->
  let '(ap1, hp1) := _apply_damage_with_block base_ap hp_ damage_ block_ap in
  let '(ap0, hp0) := _apply_damage base_ap hp_ damage_ in
  ap0 <= ap1 <= base_ap /\ hp0 <= hp1 /\
  (damage_ <= block_ap -> ap1 = base_ap /\ hp1 = Z.max 0 hp_).
Proof.
  intros Ha Hb Hd. unfold _apply_damage_with_block, _apply_damage. lia.
Qed.

Section CombatFurther.
Context {R : PRNG}.

Lemma with_same_ap_hp_statuses (c : CombatantState) :
  with_ap_hp_statuses c (ap c) (hp c) (statuses c) = c.
Proof. now destruct c. Qed.

(** X10. The called-shot effect is checked before anything is rolled, and
    only for a called shot.  A called shot with an effect outside the three
    known ones raises and leaves the session as it was; without a called
    shot the effect given is ignored altogether. *)
Theorem called_shot_effect_check attacker defender (effect : string)
    reaction reaction_bonus reaction_ap attack_override counter_override sess :
  (one_of effect CALLED_SHOT_EFFECTS = false ->
   resolve_attack attacker defender true (Some effect) reaction
     reaction_bonus reaction_ap attack_override counter_override sess
   = (Raise (ValueError "Unknown called shot effect."), sess))
  /\
  resolve_attack attacker defender false (Some effect) reaction
    reaction_bonus reaction_ap attack_override counter_override sess
  = resolve_attack attacker defender false None reaction
      reaction_bonus reaction_ap attack_override counter_override sess.
Proof.
  split.
  - intros H. unfold resolve_attack, one_of in *. now rewrite H.
  - unfold resolve_attack. cbv zeta. cbn [andb]. unfold bind.
    destruct (match truthy attack_override with
              | Some v => ret v
              | None => roll_d20 None
              end sess) as [[roll_|e] sess1]; [|reflexivity].
    rewrite !andb_false_r.
    destruct (_ <=? _); [|reflexivity].
    destruct (weapon attacker) as [w|]; [|reflexivity].
    destruct (_roll_damage _ _ _ sess1) as [[dmg|e] sess2]; reflexivity.
Qed.

(** X11. A miss.  When the attack misses, the defender is returned as they
    were, no damage is dealt and no called-shot effect is reported; unless
    the reaction is a counter, the attacker is returned as they were too,
    and the session is as the attack roll left it: no other die is
    rolled. *)
Theorem miss_changes_nothing attacker defender called_shot effect reaction
    reaction_bonus reaction_ap attack_override counter_override sess
    r attacker' defender' sess' :
  resolve_attack attacker defender called_shot effect reaction
    reaction_bonus reaction_ap attack_override counter_override sess
    = (Ok (r, attacker', defender'), sess') ->
  hit r = false ->
  defender' = defender /\ damage r = 0 /\ called_shot_effect r = None /\
  ap_after r = ap defender /\ hp_after r = hp defender /\
  (reaction_is reaction "counter" = false ->
     attacker' = attacker /\ counter r = None /\
     attack_roll_step attack_override sess = (Ok (attack_roll r), sess')).
Proof.
  unfold resolve_attack. cbv zeta.
  destruct (called_shot && negb _); [discriminate|].
  fold (attack_roll_step attack_override).
  unfold bind at 1.
  destruct (attack_roll_step attack_override sess) as [[roll_|e] sess1]; [|discriminate].
  remember (roll_ + skill attacker + attr attacker + attack_bonus attacker
            - (if called_shot then CALLED_SHOT_PENALTY else 0)) as total eqn:Htotal.
  remember (armor_rating defender + _dodge_bonus reaction reaction_bonus)
    as target eqn:Htarget.
  destruct (target <=? total) eqn:Hhit.
  - destruct (weapon attacker) as [w|]; [|discriminate].
    unfold bind at 1. unfold bind at 1.
    destruct (_roll_damage _ _ _ sess1) as [[dmg|e] sess2]; [|discriminate].
    destruct (if negb _ then _ else _) as [a h].
    unfold bind at 1.
    match goal with
    | |- context [(if called_shot then ?x else ?y) sess2] =>
        destruct ((if called_shot then x else y) sess2) as [[st|e] sess3]
    end; [|discriminate].
    cbn [ret negb]. unfold bind at 1. rewrite andb_false_r. cbn [ret].
    intros [= <- <- <- <-]. cbn. discriminate.
  - unfold bind at 1. cbn [ret]. unfold bind at 1.
    destruct (reaction_is reaction "counter") eqn:Hc; cbn [andb negb].
    + unfold bind at 1.
      destruct (_resolve_counter counter_override attacker defender sess1)
        as [[[c a']|e] sess2]; [|discriminate].
      cbn [ret]. intros [= <- <- <- <-] _. cbn.
      rewrite with_same_ap_hp_statuses. repeat split; discriminate.
    + cbn [ret]. intros [= <- <- <- <-] _. cbn.
      rewrite with_same_ap_hp_statuses. repeat split.
Qed.

Lemma resolve_counter_returns counter_override attacker defender sess c attacker' sess' :
  _resolve_counter counter_override attacker defender sess = (Ok (c, attacker'), sess') ->
  CounterResult.triggered c = true /\
  CounterResult.ap_before c = ap attacker /\ CounterResult.hp_before c = hp attacker /\
  attacker' = with_ap_hp_statuses attacker (CounterResult.ap_after c)
                (CounterResult.hp_after c) (statuses attacker) /\
  CounterResult.attack_total c =
    CounterResult.attack_roll c + skill defender + attr defender + attack_bonus defender /\
  CounterResult.hit c = (armor_rating attacker <=? CounterResult.attack_total c) /\
  (if CounterResult.hit c
   then (CounterResult.ap_after c, CounterResult.hp_after c)
        = _apply_damage (ap attacker) (hp attacker) (CounterResult.damage c)
   else CounterResult.damage c = 0 /\ CounterResult.ap_after c = ap attacker /\
        CounterResult.hp_after c = hp attacker).
Proof.
  unfold _resolve_counter. cbv zeta. unfold bind at 1.
  destruct (match truthy counter_override with
            | Some v => ret v
            | None => roll_d20 None
            end sess) as [[roll_|e] sess1]; [|discriminate].
  destruct (armor_rating attacker <=?
            roll_ + skill defender + attr defender + attack_bonus defender) eqn:Hhit.
  - unfold bind at 1. unfold bind at 1.
    destruct (_roll_damage _ _ _ sess1) as [[dmg|e] sess2]; [|discriminate].
    destruct (_apply_damage (ap attacker) (hp attacker) dmg) as [a h] eqn:Hah.
    cbn [ret]. intros [= <- <- <-]. cbn. rewrite Hhit. repeat split. now rewrite Hah.
  - unfold bind at 1. cbn [ret]. intros [= <- <- <-]. cbn. rewrite Hhit. repeat split.
Qed.

(** X12. The counter reaction.  A counter strike is made exactly when the
    reaction is "counter" and the attack misses; otherwise the attacker is
    returned as they were.  The counter is the defender's attack on the
    attacker's plain armor rating, and changes only the attacker's AP and
    HP: by [_apply_damage] when it hits, not at all when it misses. *)
Theorem counter_reaction attacker defender called_shot effect reaction
    reaction_bonus reaction_ap attack_override counter_override sess
    r attacker' defender' sess' :
  resolve_attack attacker defender called_shot effect reaction
    reaction_bonus reaction_ap attack_override counter_override sess
    = (Ok (r, attacker', defender'), sess') ->
  (counter r <> None <-> reaction_is reaction "counter" = true /\ hit r = false) /\
  (counter r = None -> attacker' = attacker) /\
  (forall c, counter r = Some c ->
     CounterResult.triggered c = true /\
     attacker' = with_ap_hp_statuses attacker (CounterResult.ap_after c)
                   (CounterResult.hp_after c) (statuses attacker) /\
     CounterResult.attack_total c =
       CounterResult.attack_roll c + skill defender + attr defender
       + attack_bonus defender /\
     CounterResult.hit c = (armor_rating attacker <=? CounterResult.attack_total c) /\
     (if CounterResult.hit c
      then (CounterResult.ap_after c, CounterResult.hp_after c)
           = _apply_damage (ap attacker) (hp attacker) (CounterResult.damage c)
      else CounterResult.damage c = 0 /\ attacker' = attacker)).
Proof.
  unfold resolve_attack. cbv zeta.
  destruct (called_shot && negb _); [discriminate|].
  unfold bind at 1.
  destruct (match truthy attack_override with
            | Some v => ret v
            | None => roll_d20 None
            end sess) as [[roll_|e] sess1]; [|discriminate].
  remember (roll_ + skill attacker + attr attacker + attack_bonus attacker
            - (if called_shot then CALLED_SHOT_PENALTY else 0)) as total eqn:Htotal.
  remember (armor_rating defender + _dodge_bonus reaction reaction_bonus)
    as target eqn:Htarget.
  destruct (target <=? total) eqn:Hhit.
  - destruct (weapon attacker) as [w|]; [|discriminate].
    unfold bind at 1. unfold bind at 1.
    destruct (_roll_damage _ _ _ sess1) as [[dmg|e] sess2]; [|discriminate].
    destruct (if negb _ then _ else _) as [a h].
    unfold bind at 1.
    match goal with
    | |- context [(if called_shot then ?x else ?y) sess2] =>
        destruct ((if called_shot then x else y) sess2) as [[st|e] sess3]
    end; [|discriminate].
    cbn [ret negb]. unfold bind at 1. rewrite andb_false_r. cbn [ret].
    intros [= <- <- <- <-]. cbn. repeat split; try congruence; try tauto.
    intros [_ H]. discriminate.
  - unfold bind at 1. cbn [ret]. unfold bind at 1.
    destruct (reaction_is reaction "counter") eqn:Hc; cbn [andb negb].
    + unfold bind at 1.
      destruct (_resolve_counter counter_override attacker defender sess1)
        as [[[c a']|e] sess2] eqn:Hcounter; [|discriminate].
      cbn [ret]. intros [= <- <- <- <-]. cbn.
      destruct (resolve_counter_returns _ _ _ _ _ _ _ Hcounter)
        as (Ht & Hab & Hhb & Ha' & Htot & Hh & Hdmg).
      split; [split; [auto|discriminate]|]. split; [discriminate|].
      intros c0 [= <-]. repeat split; auto.
      destruct (CounterResult.hit c); [exact Hdmg|].
      destruct Hdmg as (Hd & Hap & Hhp). split; [exact Hd|].
      rewrite Ha', Hap, Hhp. apply with_same_ap_hp_statuses.
    + cbn [ret]. intros [= <- <- <- <-]. cbn.
      split; [split; [congruence|intros [H _]; discriminate]|].
      split; [reflexivity|discriminate].
Qed.

(** X13. What an attack may change.  The defender is returned with new AP,
    HP and statuses and nothing else changed.  The statuses change only on
    a hit with a called shot: "stun_attempt" applies Stun and "slow" applies
    Cold, each with one stack, level 1 and a duration of 1, while "disarm"
    (the effect of a called shot that names none) leaves them as they were;
    the effect is reported only on such a hit. *)
Theorem attack_changes_ap_hp_statuses attacker defender called_shot effect reaction
    reaction_bonus reaction_ap attack_override counter_override sess
    r attacker' defender' sess' :
  resolve_attack attacker defender called_shot effect reaction
    reaction_bonus reaction_ap attack_override counter_override sess
    = (Ok (r, attacker', defender'), sess') ->
  let named := match effect with Some e => e | None => "disarm"%string end in
  defender' = with_ap_hp_statuses defender (ap_after r) (hp_after r) (statuses defender') /\
  called_shot_effect r = (if hit r && called_shot then Some named else None) /\
  (if hit r && called_shot then
     if String.eqb named "stun_attempt"
     then apply_status (statuses defender) "Stun" 1 1 (Some 1) = Ok (statuses defender')
     else if String.eqb named "slow"
     then apply_status (statuses defender) "Cold" 1 1 (Some 1) = Ok (statuses defender')
     else statuses defender' = statuses defender
   else statuses defender' = statuses defender).
Proof.
  unfold resolve_attack. cbv zeta.
  destruct (called_shot && negb _); [discriminate|].
  unfold bind at 1.
  destruct (match truthy attack_override with
            | Some v => ret v
            | None => roll_d20 None
            end sess) as [[roll_|e] sess1]; [|discriminate].
  remember (roll_ + skill attacker + attr attacker + attack_bonus attacker
            - (if called_shot then CALLED_SHOT_PENALTY else 0)) as total eqn:Htotal.
  remember (armor_rating defender + _dodge_bonus reaction reaction_bonus)
    as target eqn:Htarget.
  destruct (target <=? total) eqn:Hhit.
  - destruct (weapon attacker) as [w|]; [|discriminate].
    unfold bind at 1. unfold bind at 1.
    destruct (_roll_damage _ _ _ sess1) as [[dmg|e] sess2]; [|discriminate].
    destruct (if negb _ then _ else _) as [a h].
    unfold bind at 1.
    destruct called_shot.
    + unfold lift, _apply_called_shot_effect.
      destruct effect as [eff|]; cbn [andb].
      * destruct (String.eqb eff "stun_attempt") eqn:E1;
          [|destruct (String.eqb eff "slow") eqn:E2].
        -- destruct (apply_status (statuses defender) "Stun" 1 1 (Some 1))
             as [st|e]; [|discriminate].
           cbn [ret negb]. unfold bind at 1. rewrite andb_false_r. cbn [ret].
           intros [= <- <- <- <-]. cbn -[String.eqb apply_status]. repeat split.
        -- destruct (apply_status (statuses defender) "Cold" 1 1 (Some 1))
             as [st|e]; [|discriminate].
           cbn [ret negb]. unfold bind at 1. rewrite andb_false_r. cbn [ret].
           intros [= <- <- <- <-]. cbn -[String.eqb apply_status]. repeat split.
        -- cbn [ret negb]. unfold bind at 1. rewrite andb_false_r. cbn [ret].
           intros [= <- <- <- <-]. cbn -[String.eqb apply_status]. repeat split.
      * cbn [String.eqb Ascii.eqb Bool.eqb ret negb]. unfold bind at 1.
        rewrite andb_false_r. cbn [ret].
        intros [= <- <- <- <-]. cbn. repeat split.
    + cbn [ret negb andb]. unfold bind at 1. rewrite andb_false_r. cbn [ret].
      intros [= <- <- <- <-]. cbn. repeat split.
  - unfold bind at 1. cbn [ret]. unfold bind at 1.
    destruct (reaction_is reaction "counter" && negb false).
    + unfold bind at 1.
      destruct (_resolve_counter counter_override attacker defender sess1)
        as [[[c a']|e] sess2]; [|discriminate].
      cbn [ret]. intros [= <- <- <- <-]. cbn. repeat split.
    + cbn [ret]. intros [= <- <- <- <-]. cbn. repeat split.
Qed.

(** X14. The end of a turn.  For a combatant whose statuses respect the
    entry invariants and whose HP is not negative, [end_turn] returns the
    combatant with the ticked statuses, which respect the invariants, and
    with HP lowered by what the tick takes, never below 0 and never above
    what it was; AP and everything else are as they were. *)
Theorem end_turn_never_heals (combatant : CombatantState) (tick_type : string) :
  valid_ledger (statuses combatant) -> 0 <= hp combatant ->
  exists updated hp_delta expired,
    end_turn combatant tick_type = Ok (updated, hp_delta, expired) /\
    tick_statuses (statuses combatant) tick_type
      = Ok (statuses updated, hp_delta, expired) /\
    valid_ledger (statuses updated) /\
    hp_delta <= 0 /\
    hp updated = Z.max 0 (hp combatant + hp_delta) /\
    0 <= hp updated <= hp combatant /\
    updated = with_ap_hp_statuses combatant (ap combatant) (hp updated)
                (statuses updated).
Proof.
  intros Hv Hhp. unfold end_turn.
  pose proof (tick_statuses_valid (statuses combatant) tick_type Hv) as Hrun.
  rewrite Hrun. do 3 eexists. split; [reflexivity|]. cbn [statuses hp with_ap_hp_statuses].
  pose proof (total_damage_nonneg (Text.lower (Text.strip tick_type))
                (statuses combatant)) as Hd.
  split; [reflexivity|]. split.
  - exact (tick_statuses_keeps_valid _ _ _ _ _ Hv Hrun).
  - repeat split; lia.
Qed.

Lemma roll_initiative_returns (combatant : CombatantState) (bonus_ : Z) sess :
  valid_ledger (statuses combatant) ->
  let r := fst (next_randint 1 20 (rng sess)) in
  roll_initiative combatant bonus_ sess =
    (Ok (r + initiative_base combatant + bonus_),
     logged sess {| formula := "1d20"; result := r; rolls := [r]; modifier := 0;
                    label := None |} (snd (next_randint 1 20 (rng sess)))).
Proof.
  intros Hv. unfold roll_initiative, lift, bind at 1.
  rewrite (cold_level_penalty (statuses combatant) Hv).
  unfold roll_d20, bind, randint, _log_roll, ret, logged, initiative_base.
  destruct (next_randint 1 20 (rng sess)) as [r g]. cbn. do 2 f_equal. lia.
Qed.

(** X15. Initiative.  For a combatant whose statuses respect the entry
    invariants, [roll_initiative] rolls one d20, logged without a label, and
    returns it plus the dexterity, less the level of Cold, plus the
    initiative bonuses: between 1 and 20 above that base when [randint]
    respects its range.  With a status name outside the vocabulary it
    raises before rolling, and the session is as it was. *)
Theorem roll_initiative_contract (combatant : CombatantState) (bonus_ : Z) sess :
  randint_in_range R ->
  (valid_ledger (statuses combatant) ->
   exists r g,
     roll_initiative combatant bonus_ sess =
       (Ok (r + initiative_base combatant + bonus_),
        logged sess {| formula := "1d20"; result := r; rolls := [r]; modifier := 0;
                       label := None |} g) /\
     1 <= r <= 20) /\
  (forall e, total_dex_penalty (statuses combatant) = Raise e ->
     roll_initiative combatant bonus_ sess = (Raise e, sess)).
Proof.
  intros HR. split.
  - intros Hv. do 2 eexists. split; [apply roll_initiative_returns; exact Hv|].
    pose proof (HR 1 20 (rng sess)) as Hb. cbv zeta in Hb. apply Hb. lia.
  - intros e He. unfold roll_initiative, lift, bind at 1. now rewrite He.
Qed.

Lemma insert_by_initiative_perm x l :
  Permutation (insert_by_initiative x l) (x :: l).
Proof.
  induction l as [|y l IH]; cbn; [reflexivity|].
  destruct (snd x <? snd y); [|reflexivity].
  rewrite IH. apply perm_swap.
Qed.

Lemma sorted_by_initiative_perm l : Permutation (sorted_by_initiative l) l.
Proof.
  induction l as [|x l IH]; cbn; [reflexivity|].
  rewrite insert_by_initiative_perm. now constructor.
Qed.

Lemma insert_by_initiative_sorted x l :
  non_increasing (map snd l) -> non_increasing (map snd (insert_by_initiative x l)).
Proof.
  induction l as [|y l IH]; cbn [insert_by_initiative map non_increasing]; [auto|].
  intros [Hy Hl]. destruct (Z.ltb_spec (snd x) (snd y)) as [Hlt|Hge].
  - cbn [map non_increasing]. split; [|now apply IH].
    destruct l as [|z l]; cbn [insert_by_initiative map] in *.
    + lia.
    + destruct (snd x <? snd z); cbn [map]; lia.
  - cbn [map non_increasing]. repeat split; auto.
Qed.

Lemma sorted_by_initiative_sorted l : non_increasing (map snd (sorted_by_initiative l)).
Proof.
  induction l as [|x l IH]; cbn; [exact I|]. now apply insert_by_initiative_sorted.
Qed.

Lemma roll_initiatives_returns (combatants : list CombatantState) : forall sess,
  List.Forall (fun c => valid_ledger (statuses c)) combatants ->
  exists rolled new g,
    roll_initiatives combatants sess =
      (Ok rolled, {| seed := seed sess; turn_log := turn_log sess ++ new; rng := g |}) /\
    map fst rolled = combatants /\
    length new = length combatants /\
    List.Forall (fun e => formula e = "1d20"%string /\ label e = None) new /\
    (randint_in_range R ->
     List.Forall (fun item => 1 <= snd item - initiative_base (fst item) <= 20) rolled).
Proof.
  induction combatants as [|c cs IH]; intros sess HF.
  - exists [], [], (rng sess). cbn. rewrite app_nil_r. destruct sess.
    repeat split; constructor.
  - apply List.Forall_cons_iff in HF. destruct HF as [Hc HF].
    cbn [roll_initiatives]. unfold bind at 1.
    rewrite (roll_initiative_returns c 0 sess Hc). cbv zeta.
    set (r := fst (next_randint 1 20 (rng sess))).
    set (sess1 := logged sess _ _).
    destruct (IH sess1 HF) as (rolled & new & g & Hrun & Hfst & Hlen & Hform & Hrange).
    unfold bind at 1. rewrite Hrun. cbn [ret].
    exists ((c, r + initiative_base c + 0) :: rolled),
           ({| formula := "1d20"; result := r; rolls := [r]; modifier := 0;
               label := None |} :: new), g.
    split; [|split; [|split; [|split]]].
    + cbn. now rewrite <- app_assoc.
    + cbn. now rewrite Hfst.
    + cbn. now rewrite Hlen.
    + constructor; [split; reflexivity|exact Hform].
    + intros HR. constructor; [|auto]. cbn [fst snd].
      pose proof (HR 1 20 (rng sess)) as Hb. cbv zeta in Hb. fold r in Hb. lia.
Qed.

(** X16. The initiative order.  For combatants whose statuses respect the
    entry invariants, [initiative_order] rolls one unlabelled d20 for each,
    in the order given, and returns every combatant once, paired with their
    initiative, in non-increasing order of initiative; each initiative is
    between 1 and 20 above the combatant's base when [randint] respects its
    range. *)
Theorem initiative_order_sorts (combatants : list CombatantState) sess :
  randint_in_range R ->
  List.Forall (fun c => valid_ledger (statuses c)) combatants ->
  exists order new g,
    initiative_order combatants sess =
      (Ok order, {| seed := seed sess; turn_log := turn_log sess ++ new; rng := g |}) /\
    Permutation (map fst order) combatants /\
    non_increasing (map snd order) /\
    length new = length combatants /\
    List.Forall (fun e => formula e = "1d20"%string /\ label e = None) new /\
    List.Forall (fun item => 1 <= snd item - initiative_base (fst item) <= 20) order.
Proof.
  intros HR HF.
  destruct (roll_initiatives_returns combatants sess HF)
    as (rolled & new & g & Hrun & Hfst & Hlen & Hform & Hrange).
  exists (sorted_by_initiative rolled), new, g.
  unfold initiative_order, bind at 1. rewrite Hrun. cbn [ret].
  split; [reflexivity|]. split; [|split; [|split; [|split]]]; auto.
  - rewrite <- Hfst. apply Permutation_map, sorted_by_initiative_perm.
  - apply sorted_by_initiative_sorted.
  - eapply Permutation_Forall; [|exact (Hrange HR)].
    symmetry. apply sorted_by_initiative_perm.
Qed.

End CombatFurther.

(** ** Router *)

(** X21. What a routed decision never does.  A decision that does not
    execute freezes time; a decision executes only for an in-character
    envelope whose protocol id is in the registry, under that very protocol,
    never with low confidence outside the safe set, and then carries reason
    "ok", no questions and no developer report; time is left to advance only
    by an executing decision whose protocol has the "advance" policy; and a
    developer report is only made in developer mode, for an id outside the
    registry, on a decision that does not execute. *)
Theorem routed_decision_invariants envelope session_state :
  let d := route_envelope envelope session_state in
  (execute d = false -> freeze_time d = true /\ reason d <> Some "ok"%string) /\
  (execute d = true ->
     ~ out_of_character envelope /\
     protocol_value (protocol_id d) = TurnEnvelope.protocol_id envelope /\
     (TurnEnvelope.confidence envelope = low -> In (protocol_id d) SAFE_PROTOCOLS) /\
     reason d = Some "ok"%string /\ ooc_questions d = None /\ dev_report d = None) /\
  (freeze_time d = false ->
     execute d = true /\ time_policy (PROTOCOL_REGISTRY (protocol_id d)) = advance) /\
  (dev_report d <> None ->
     _dev_mode_enabled (session_dict session_state) = true /\ execute d = false /\
     forall p, protocol_value p <> TurnEnvelope.protocol_id envelope).
Proof.
  cbv zeta.
  destruct (out_of_character_dec envelope) as [Hooc|Hooc].
  - rewrite (route_out_of_character _ _ Hooc). cbn.
    repeat split; intros; congruence.
  - rewrite (route_in_character _ _ Hooc).
    destruct (_resolve_protocol_id (TurnEnvelope.protocol_id envelope)) as [pid|] eqn:Hres.
    + pose proof (resolve_protocol_sound _ _ Hres) as Hval.
      destruct (match TurnEnvelope.confidence envelope with low => true | _ => false end
                && negb (is_safe pid)) eqn:Hc; cbn.
      * repeat split; intros; congruence.
      * split; [discriminate|]. split; [|split].
        -- intros _. repeat split; auto.
           intros Hlow. rewrite Hlow in Hc. cbn in Hc.
           apply negb_false_iff in Hc. now apply is_safe_spec.
        -- intros Hf. split; [reflexivity|].
           destruct (time_policy (PROTOCOL_REGISTRY pid)); congruence.
        -- congruence.
    + pose proof (proj1 (resolve_protocol_none _) Hres) as Hnone.
      destruct (_dev_mode_enabled (session_dict session_state)); cbn;
        repeat split; intros; try congruence; auto.
Qed.

(** ** Turn pipeline *)

(** X25. Suggested actions.  [_build_suggested_actions] always returns
    between three and five suggestions; each is one of the six candidates,
    and is of an available action type unless it is the "Explore the area"
    fallback that pads a short list; the candidates kept are in the order of
    the candidate list; with no action available the result is the fallback
    three times. *)
Theorem suggested_actions_bounds (available_actions : list string) :
  let result := _build_suggested_actions available_actions in
  let filtered :=
    List.filter (fun item => one_of (Suggestion.action_type item) available_actions)
      suggestion_candidates in
  (3 <= length result <= 5)%nat /\
  (forall item, In item result ->
     In item suggestion_candidates /\
     (one_of (Suggestion.action_type item) available_actions = true \/
      item = suggestion_fallback)) /\
  (exists padding,
     result = firstn 5 (filtered ++ padding) /\
     List.Forall (fun item => item = suggestion_fallback) padding /\
     length padding = (3 - length filtered)%nat) /\
  (available_actions = [] ->
     result = [suggestion_fallback; suggestion_fallback; suggestion_fallback]).
Proof.
  cbv zeta. split; [|split; [|split]].
  - unfold _build_suggested_actions, suggestion_candidates. cbn [List.filter Suggestion.action_type].
    repeat match goal with
           | |- context [one_of ?a available_actions] =>
               destruct (one_of a available_actions)
           end; cbn; lia.
  - intros item. unfold _build_suggested_actions, suggestion_candidates.
    cbn [List.filter Suggestion.action_type].
    destruct (one_of "explore" available_actions) eqn:E1;
    destruct (one_of "interact" available_actions) eqn:E2;
    destruct (one_of "move" available_actions) eqn:E3;
    destruct (one_of "attack" available_actions) eqn:E4;
    destruct (one_of "scene_request" available_actions) eqn:E5;
    destruct (one_of "ask_gm" available_actions) eqn:E6;
    cbn; intros H;
    repeat (destruct H as [<-|H]; [cbn; split; [tauto|auto]|]); destruct H.
  - unfold _build_suggested_actions, suggestion_candidates.
    cbn [List.filter Suggestion.action_type].
    repeat match goal with
           | |- context [one_of ?a available_actions] =>
               destruct (one_of a available_actions)
           end;
      cbn [pad_suggestions length Nat.ltb Nat.leb app];
      match goal with
      | |- exists padding, firstn 5 ?l = _ /\ _ /\ length padding = ?n =>
          exists (repeat suggestion_fallback n)
      end; cbn; (split; [reflexivity|split; [repeat constructor|reflexivity]]).
  - intros ->. reflexivity.
Qed.

Section TurnFurther.
Context {R : PRNG}.

(** X26. Fast-forwarding a session.  [_consume_rolls] never raises and
    never logs: it only moves the generator.  Consuming a and then b draws
    is consuming a + b, and an index that is not positive consumes
    nothing. *)
Theorem consume_rolls_composes (a b : Z) (sess : SessionState) :
  0 <= a -> 0 <= b ->
  (run _consume_rolls a; _consume_rolls b) sess = _consume_rolls (a + b) sess /\
  (exists g, _consume_rolls (a + b) sess = (Ok tt, with_rng sess g)) /\
  (forall k, k <= 0 -> _consume_rolls k sess = (Ok tt, sess)).
Proof.
  intros Ha Hb. split; [|split].
  - unfold bind. rewrite !consume_rolls_skip. unfold with_rng. cbn [seed turn_log rng].
    now rewrite Z2Nat.inj_add, skip_add by lia.
  - eexists. apply consume_rolls_skip.
  - intros k Hk. rewrite consume_rolls_skip.
    replace (Z.to_nat k) with 0%nat by lia. cbn [skip]. now rewrite with_rng_same.
Qed.

(** The attack branch of [_execute_mechanics] with a dice weapon. *)
Lemma attack_mechanics_run (intent : TurnIntent.t) (sess : SessionState)
    (N M K : Z) :
  TurnIntent.action intent = "attack"%string ->
  Formula.dice_formula (TurnIntent.weapon_damage intent) N M K -> 1 <= N -> 1 <= M ->
  exists a dmg new g,
    let total := a + TurnIntent.skill_bonus intent + TurnIntent.attr_bonus intent in
    let hit_ := TurnIntent.target_ar intent <=? total in
    _execute_mechanics intent sess =
      (Ok [ ("hit", JBool hit_); ("attack_roll", JNum a); ("attack_total", JNum total);
            ("target_ar", JNum (TurnIntent.target_ar intent)); ("damage", JNum dmg);
            ("target", json_opt_str (TurnIntent.target_label intent)) ]%string,
       {| seed := seed sess; turn_log := turn_log sess ++ new; rng := g |}) /\
    (if hit_
     then map formula new = ["1d20"%string; Text.strip (TurnIntent.weapon_damage intent)] /\
          map result new = [a; dmg] /\ _count_rolls new = 1 + N /\
          map label new = [None; None] /\ map modifier new = [0; K]
     else dmg = 0 /\ map formula new = ["1d20"%string] /\ map result new = [a] /\
          _count_rolls new = 1 /\ map label new = [None] /\ g = snd (next_randint 1 20 (rng sess))) /\
    (randint_in_range R ->
     1 <= a <= 20 /\ (hit_ = true -> N + K <= dmg <= N * M + K)) /\
    a = fst (next_randint 1 20 (rng sess)).
Proof.
  intros Hact Hf HN HM. unfold _execute_mechanics. rewrite Hact.
  cbn [String.eqb Ascii.eqb Bool.eqb andb]. unfold bind at 1.
  unfold roll_d20, bind at 1, randint at 1.
  destruct (next_randint 1 20 (rng sess)) as [a g1] eqn:Ea.
  cbn [_log_roll bind ret]. unfold bind at 1.
  cbn [seed turn_log rng].
  set (total := a + TurnIntent.skill_bonus intent + TurnIntent.attr_bonus intent).
  match goal with |- context [(if _ then _ else _) ?s] => set (sess1 := s) end.
  assert (Hrange : randint_in_range R -> 1 <= a <= 20).
  { intros HR. pose proof (HR 1 20 (rng sess)) as Hb. cbv zeta in Hb.
    rewrite Ea in Hb. cbn in Hb. lia. }
  destruct (TurnIntent.target_ar intent <=? total) eqn:Hhit.
  - destruct (roll_dice_formula (TurnIntent.weapon_damage intent) None sess1 N M K Hf HN HM)
      as (rs & g2 & Hroll & Hlen & Hrs).
    rewrite Hroll. cbn [ret].
    exists a, (sum_Z rs + K),
      [{| formula := "1d20"; result := a; rolls := [a]; modifier := 0; label := None |};
       {| formula := Text.strip (TurnIntent.weapon_damage intent);
          result := sum_Z rs + K; rolls := rs; modifier := K; label := None |}], g2.
    cbv zeta. fold total. rewrite Hhit. split; [|split; [|split]].
    + unfold logged, sess1. cbn [seed turn_log]. now rewrite <- app_assoc.
    + repeat split. unfold _count_rolls. cbn. lia.
    + intros HR. split; [auto|]. intros _.
      pose proof (sum_Z_bounds M rs (Hrs HR)) as Hsum. rewrite Hlen in Hsum. lia.
    + reflexivity.
  - cbn [ret].
    exists a, 0,
      [{| formula := "1d20"; result := a; rolls := [a]; modifier := 0; label := None |}], g1.
    cbv zeta. fold total. rewrite Hhit. split; [reflexivity|]. split; [|split].
    + repeat split.
    + intros HR. split; [auto|discriminate].
    + reflexivity.
Qed.

(** X22. The attack of the turn pipeline.  For an attack with a dice weapon
    (N d M and an optional modifier K, each numeral of at most 4300 digits,
    the most that [int] reads; N >= 1, M >= 1), [_execute_mechanics] never
    raises.  It rolls one d20, the number that [randint(1, 20)] draws from
    the generator of the session, between 1 and 20; the attack hits exactly
    when the roll plus the skill and attribute bonuses reaches the target's
    armor rating.  On a hit the weapon formula is rolled and logged next and
    its total, between N + K and N * M + K, is the damage; on a miss nothing
    more is rolled and the damage is 0.  The entries appended carry no label
    (their label is None). *)
Theorem execute_mechanics_attack (intent : TurnIntent.t) (sess : SessionState)
    (N M K : Z) :
  randint_in_range R ->
  TurnIntent.action intent = "attack"%string ->
  Formula.dice_formula (TurnIntent.weapon_damage intent) N M K -> 1 <= N -> 1 <= M ->
  exists dmg new g,
    let a := fst (next_randint 1 20 (rng sess)) in
    let total := a + TurnIntent.skill_bonus intent + TurnIntent.attr_bonus intent in
    let hit_ := TurnIntent.target_ar intent <=? total in
    _execute_mechanics intent sess =
      (Ok [ ("hit", JBool hit_); ("attack_roll", JNum a); ("attack_total", JNum total);
            ("target_ar", JNum (TurnIntent.target_ar intent)); ("damage", JNum dmg);
            ("target", json_opt_str (TurnIntent.target_label intent)) ]%string,
       {| seed := seed sess; turn_log := turn_log sess ++ new; rng := g |}) /\
    1 <= a <= 20 /\
    (if hit_
     then N + K <= dmg <= N * M + K /\
          map formula new = ["1d20"%string; Text.strip (TurnIntent.weapon_damage intent)] /\
          map result new = [a; dmg] /\ _count_rolls new = 1 + N /\
          map label new = [None; None] /\ map modifier new = [0; K]
     else dmg = 0 /\ map formula new = ["1d20"%string] /\ map result new = [a] /\
          _count_rolls new = 1 /\ map label new = [None] /\
          g = snd (next_randint 1 20 (rng sess))).
Proof.
  intros HR Hact Hf HN HM.
  destruct (attack_mechanics_run intent sess N M K Hact Hf HN HM)
    as (a & dmg & new & g & Hrun & Hlog & Hrange & Ha').
  cbv zeta in *. destruct (Hrange HR) as [Ha Hd]. subst a.
  exists dmg, new, g. cbv zeta. split; [exact Hrun|]. split; [exact Ha|].
  destruct (TurnIntent.target_ar intent <=? _); [|exact Hlog].
  split; [now apply Hd|exact Hlog].
Qed.

(** What a turn that was executed went through. *)
Lemma executed_pipeline session character intent errors player_text r :
  _execute_intent_pipeline session character intent errors player_text = Ok r ->
  TurnResult.needs_clarification r = false ->
  _validate_impossible_action intent (era session) player_text = None /\
  _validate_intent intent (era session) (fst (_ensure_resources character))
    available_actions = None /\
  exists outcome_ sess',
    let sess0 := new_session (match rng_seed session with Some s => s | None => 0 end) in
    _execute_mechanics (_intent_to_turn_intent intent)
      (with_rng sess0 (skip (Z.to_nat (roll_index session)) (rng sess0)))
      = (Ok outcome_, sess') /\
    TurnResult.rolls r = turn_log sess' /\
    TurnResult.outcome r =
      outcome_ ++ [("death"%string, JBool (_is_dead (derived_hp character)))] /\
    TurnResult.validation_errors r = errors /\
    TurnResult.state_diff r =
      [ ("character",
         _build_character_state_diff character
           (fst (_ensure_resources character)
            - TurnIntent.actions_required (_intent_to_turn_intent intent))
           (snd (_ensure_resources character)) outcome_);
        ("session",
         JDict [("roll_index", JNum (roll_index session + _count_rolls (turn_log sess')))])
      ]%string.
Proof.
  unfold _execute_intent_pipeline.
  destruct (_validate_impossible_action intent (era session) player_text).
  { intros [= <-]. discriminate. }
  destruct (_ensure_resources character) as [actions reactions]. cbn [fst snd].
  destruct (_validate_intent intent (era session) actions available_actions) eqn:Hv.
  { destruct (Intent.action_type intent); intros [= <-]; discriminate. }
  assert (Hmech : forall sess0,
            (run _consume_rolls (roll_index session);
             _execute_mechanics (_intent_to_turn_intent intent)) sess0
            = _execute_mechanics (_intent_to_turn_intent intent)
                (with_rng sess0 (skip (Z.to_nat (roll_index session)) (rng sess0)))).
  { intros sess0. unfold bind. now rewrite consume_rolls_skip. }
  rewrite Hmech. clear Hmech.
  destruct (_execute_mechanics (_intent_to_turn_intent intent) _) as [[o|e] s'] eqn:Hm.
  - destruct (Intent.action_type intent); intros [= <-]; try discriminate;
      intros _; (split; [reflexivity|]); (split; [reflexivity|]);
      exists o, s'; cbv zeta; repeat split.
  - destruct (Intent.action_type intent); intros H; try discriminate;
      injection H as <-; discriminate.
Qed.

(** X23. The roll index of a turn.  A turn that is executed reports as new
    roll index the one of the session plus the number of component dice in
    the rolls it reports.  Only an attack rolls: any other action reports no
    roll and leaves the roll index as it was.  The attack of the pipeline is
    against armor rating 12 with the weapon "1d6": one d20, and one d6 when
    the d20 is at least 12. *)
Theorem turn_roll_index_accounting session character intent errors player_text r :
  _execute_intent_pipeline session character intent errors player_text = Ok r ->
  TurnResult.needs_clarification r = false ->
  Dict.get "session" (TurnResult.state_diff r) =
    Some (JDict [("roll_index"%string,
                  JNum (roll_index session + _count_rolls (TurnResult.rolls r)))]) /\
  (Intent.action_type intent <> Action.attack ->
     TurnResult.rolls r = [] /\ _count_rolls (TurnResult.rolls r) = 0) /\
  (Intent.action_type intent = Action.attack ->
     exists a,
       Dict.get "attack_roll" (TurnResult.outcome r) = Some (JNum a) /\
       Dict.get "hit" (TurnResult.outcome r) = Some (JBool (12 <=? a)) /\
       map formula (TurnResult.rolls r)
         = (if 12 <=? a then ["1d20"%string; "1d6"%string] else ["1d20"%string]) /\
       _count_rolls (TurnResult.rolls r) = (if 12 <=? a then 2 else 1)).
Proof.
  intros Hrun Hneeds.
  destruct (executed_pipeline _ _ _ _ _ _ Hrun Hneeds)
    as (_ & Hv & o & s' & Hm & Hrolls & Hout & _ & Hdiff).
  cbv zeta in Hm. rewrite Hdiff, Hrolls. split; [reflexivity|]. split.
  - intros Hna. destruct intent as [a pu iu dl rs tl]. cbn [Intent.action_type] in *.
    destruct a; try congruence; cbn in Hm, Hv; try discriminate;
      injection Hm as <- <-; split; reflexivity.
  - intros Ha. destruct intent as [a pu iu dl rs tl]. cbn [Intent.action_type] in *.
    subst a. cbn [_intent_to_turn_intent Intent.action_type Intent.target_label] in Hm.
    match type of Hm with
    | _execute_mechanics ?i ?s = _ =>
        destruct (attack_mechanics_run i s 1 6 0 eq_refl dice_formula_1d6)
          as (a & dmg & new & g & Hrun' & Hlog & _); [lia|lia|]
    end.
    cbv zeta in Hrun', Hlog.
    cbn [TurnIntent.skill_bonus TurnIntent.attr_bonus TurnIntent.target_ar
         TurnIntent.weapon_damage TurnIntent.target_label] in Hrun', Hlog.
    replace (a + 0 + 0) with a in Hrun', Hlog by lia.
    rewrite Hrun' in Hm. injection Hm as <- <-.
    exists a. rewrite Hout. cbn [with_rng new_session turn_log seed app].
    split; [reflexivity|]. split; [reflexivity|].
    destruct (12 <=? a).
    + destruct Hlog as (Hform & _ & Hcount & _). split; [exact Hform|exact Hcount].
    + destruct Hlog as (_ & Hform & _ & Hcount & _). split; [exact Hform|exact Hcount].
Qed.

(** X24. What an executed turn has passed.  A turn is executed only when
    its action is one of the eight available ones, costs 0 or 1 action and,
    unless it explores or requests the scene, no more than the character has
    stored (1 when nothing is stored); a power is used only in the Space
    era, and no spaceship is mentioned outside it.  The character is
    reported with the stored actions less the cost, which is not negative
    when the stored actions are not, and with the reactions untouched; the
    validation errors are passed on as they came. *)
Theorem executed_turn_was_validated session character intent errors player_text r :
  _execute_intent_pipeline session character intent errors player_text = Ok r ->
  TurnResult.needs_clarification r = false ->
  let actions := fst (_ensure_resources character) in
  let reactions := snd (_ensure_resources character) in
  let cost := TurnIntent.actions_required (_intent_to_turn_intent intent) in
  In (Action.value (Intent.action_type intent)) available_actions /\
  (cost = 0 \/ cost = 1) /\
  (Intent.action_type intent <> Action.explore ->
   Intent.action_type intent <> Action.scene_request -> cost <= actions) /\
  (Intent.action_type intent = Action.use_power ->
   Text.lower (Text.strip (era session)) = "space"%string) /\
  _validate_impossible_action intent (era session) player_text = None /\
  TurnResult.validation_errors r = errors /\
  (0 <= actions -> 0 <= actions - cost) /\
  exists d resources,
    Dict.get "character" (TurnResult.state_diff r) = Some (JDict d) /\
    Dict.get "resources" d = Some (JDict resources) /\
    Dict.get "actions" resources = Some (JNum (actions - cost)) /\
    Dict.get "reactions" resources = Some (JNum reactions).
Proof.
  intros Hrun Hneeds.
  destruct (executed_pipeline _ _ _ _ _ _ Hrun Hneeds)
    as (Himp & Hv & o & s' & _ & _ & _ & Herr & Hdiff).
  cbv zeta. rewrite Hdiff.
  set (actions := fst (_ensure_resources character)) in *.
  assert (Hgate :
    In (Action.value (Intent.action_type intent)) available_actions /\
    (TurnIntent.actions_required (_intent_to_turn_intent intent) = 0 \/
     TurnIntent.actions_required (_intent_to_turn_intent intent) = 1) /\
    (Intent.action_type intent <> Action.explore ->
     Intent.action_type intent <> Action.scene_request ->
     TurnIntent.actions_required (_intent_to_turn_intent intent) <= actions) /\
    (Intent.action_type intent = Action.use_power ->
     Text.lower (Text.strip (era session)) = "space"%string) /\
    (0 <= actions ->
     0 <= actions - TurnIntent.actions_required (_intent_to_turn_intent intent))).
  { clearbody actions. clear Hrun Hneeds Himp Herr Hdiff.
    destruct intent as [a pu iu dl rs tl]. unfold _validate_intent in Hv.
    cbn [Intent.action_type] in *.
    destruct a; cbn in Hv |- *; try discriminate;
      repeat match type of Hv with
             | (if ?b then _ else _) = None => destruct b eqn:?; try discriminate
             end;
      repeat split; auto 10; try congruence; intros;
      repeat match goal with
             | H : (_ <? _) = false |- _ => apply Z.ltb_ge in H
             | H : negb _ = false |- _ => apply negb_false_iff in H
             | H : String.eqb _ _ = true |- _ => apply String.eqb_eq in H
             end; auto; try lia. }
  destruct Hgate as (Hin & Hcost & Hle & Hpow & Hleft).
  split; [exact Hin|]. split; [exact Hcost|]. split; [exact Hle|].
  split; [exact Hpow|]. split; [exact Himp|]. split; [exact Herr|].
  split; [exact Hleft|].
  do 2 eexists. cbn [Dict.get _build_character_state_diff]. cbn. repeat split.
Qed.

(** X27. No spaceship outside the Space era.  When the era of the session
    is not "space" (read without the blanks around it and without regard to
    case) and the player's text mentions a spaceship, in any case of the
    letters, the pipeline executes nothing, whatever the intent: it returns
    a clarification that names the era, with the three fixed choices, no
    roll and no state change, and adds its message to the validation
    errors. *)
Theorem spaceship_refused_outside_space session character intent errors player_text
    (keyword : string) :
  In keyword ["spaceship"; "space ship"; "starship"; "star ship"]%string ->
  Text.contains keyword (Text.lower player_text) = true ->
  Text.lower (Text.strip (era session)) <> "space"%string ->
  let era_label := if String.eqb (Text.strip (era session)) "" then "this era"%string
                   else Text.strip (era session) in
  let message := ("That action isn't possible. You are in a " ++ era_label
                  ++ " setting. You do not possess a spaceship.")%string in
  exists r,
    _execute_intent_pipeline session character intent errors player_text = Ok r /\
    TurnResult.needs_clarification r = true /\
    TurnResult.rolls r = [] /\ TurnResult.state_diff r = [] /\
    TurnResult.clarification_question r = Some message /\
    TurnResult.clarification_questions r =
      [ "Flee the area on foot."; "Use known equipment.";
        "Attempt something unconventional within the scene." ]%string /\
    TurnResult.validation_errors r = errors ++ [message].
Proof.
  intros Hin Hc Hera. cbv zeta. unfold _execute_intent_pipeline.
  assert (Himp : _validate_impossible_action intent (era session) player_text =
            Some ("That action isn't possible. You are in a "
                  ++ (if String.eqb (Text.strip (era session)) "" then "this era"%string
                      else Text.strip (era session))
                  ++ " setting. You do not possess a spaceship.")%string).
  { unfold _validate_impossible_action.
    replace (negb (String.eqb (Text.lower (Text.strip (era session))) "space")) with true
      by (symmetry; apply negb_true_iff, String.eqb_neq; exact Hera).
    match goal with
    | |- context [existsb ?f ?l] =>
        assert (Hex : existsb f l = true)
          by (apply existsb_exists; exists keyword; split; [exact Hin|];
              apply TextFacts.contains_lower_append; exact Hc);
        rewrite Hex
    end.
    reflexivity. }
  rewrite Himp. eexists. split; [reflexivity|].
  unfold _clarify_turn_result, clarifying. cbn. repeat split.
Qed.

End TurnFurther.

(* ===================================================================== *)
(** * The engine on the interpreter's generator: concrete runs            *)
(* ===================================================================== *)

#[local] Existing Instance CPython.rng.

(** ** Replay on the interpreter's generator *)

(** CPython's generator is not one that spends one draw per [randint]: [random()] takes two words of
    the stream, [randint] one word per attempt. *)
Lemma cpython_randint_is_not_one_draw : ~ one_draw_per_randint CPython.rng.
Proof.
  assert (Hne : fst (next_randint 1 20 (snd (next_randint 1 20 (seeded 1))))
                <> fst (next_randint 1 20 (snd (next_random (seeded 1)))))
    by (vm_compute; discriminate).
  intros H. apply Hne. now rewrite (H 1 20 (seeded 1)).
Qed.

(** C2 (the code against the claim).  With the interpreter's generator and
    seed 1: a first d20 is rolled (one component die, so the persisted count
    is 1); the next d20 of the uninterrupted session is 19, the next d20 of
    a fresh session fast-forwarded by [_consume_rolls 1] is 3. *)
Theorem consume_rolls_replay_diverges :
  let played := snd (run_calls [roll_d20_call None] (new_session 1)) in
  let replayed := snd (_consume_rolls (_count_rolls (turn_log played)) (new_session 1)) in
  fst (run_calls [roll_d20_call None] (new_session 1)) = [Ok 5]
  /\ _count_rolls (turn_log played) = 1
  /\ fst (roll_d20 None played) = Ok 19
  /\ fst (roll_d20 None replayed) = Ok 3.
Proof. vm_compute. repeat split. Qed.

(** ** The resolver on concrete attacks *)

(** C3 (the code against the claim).  A weapon of flat damage "5" hits (attack
    roll 10 against armor 5, no critical): the roll of the formula is logged
    with result 5, yet the damage dealt is 0 and the defender keeps all 10
    HP, where the normal roll plus the bonuses is 5. *)
Theorem integer_weapon_roll_is_dropped :
  let '(outcome_, sess') :=
    resolve_attack (fighter 10 0 10 (armed "5")) (fighter 5 0 10 None)
      false None None 0 0 (Some 10) None (new_session 1) in
  match outcome_ with
  | Ok (r, _, defender') =>
      hit r = true /\ crit r = false /\ damage r = 0 /\ hp defender' = 10
      /\ (result <$> last (turn_log sess')) = Some 5
      /\ fst (roll "5" None (new_session 1)) = Ok 5
  | Raise _ => False
  end.
Proof. vm_compute. repeat split. Qed.

(** C4 (the code against the claim).  A block with block AP 0 against the
    weapon "1d4-5" (attack roll 15 against armor 5): the damage is negative
    and the defender's returned AP, 8, exceeds the base AP, 5. *)
Theorem block_without_bonus_can_raise_ap :
  let '(outcome_, _) :=
    resolve_attack (fighter 10 0 10 (armed "1d4-5")) (fighter 5 5 10 None)
      false None (Some "block"%string) 0 0 (Some 15) None (new_session 1) in
  match outcome_ with
  | Ok (r, _, defender') =>
      hit r = true /\ damage r = -3 /\ ap_before r = 5 /\ ap defender' = 8
      /\ ~ ap defender' <= 5
  | Raise _ => False
  end.
Proof. vm_compute. repeat split; auto. Qed.

(** ** Dice ledger *)

Lemma dice_ledger_determinism_witness :
  let h2 := snd (create 1234 (snd (create 1234 ∅))) in
  results_of 0 (fst (run_program two_sessions_program h2))
  = results_of 1 (fst (run_program two_sessions_program h2))
  /\ (turn_log <$> snd (run_program two_sessions_program h2) !! 0%nat)
     = (turn_log <$> snd (run_program two_sessions_program h2) !! 1%nat).
Proof.
  assert (Ha : calls_of (fst (create 1234 ∅)) two_sessions_program = one_session_calls)
    by (vm_compute; reflexivity).
  assert (Hb : calls_of (fst (create 1234 (snd (create 1234 ∅)))) two_sessions_program
               = one_session_calls)
    by (vm_compute; reflexivity).
  destruct (dice_ledger_determinism 1234 ∅ two_sessions_program one_session_calls Ha Hb)
    as (_ & Hres & _ & Hlog & _).
  split; [exact Hres|exact Hlog].
Defined.

Lemma dice_pattern_2d6_plus_3 :
  Formula.dice_pattern "2d6+3" ["2"%char] ["6"%char] (Some ["+"%char; "3"%char]).
Proof.
  exists [], "d"%char, []. repeat split; try discriminate.
  exists "+"%char, ["3"%char]. repeat split; discriminate.
Qed.

Lemma roll_contract_witness :
  exists total rs g,
    roll "2d6+3" (Some "damage"%string) (new_session 1234) =
      (Ok total,
       logged (new_session 1234)
         {| formula := Text.strip "2d6+3"; result := total; rolls := rs;
            modifier := 3; label := Some "damage"%string |} g)
    /\ total = sum_Z rs + 3 /\ Z.of_nat (length rs) = 2
    /\ 2 * 1 + 3 <= total <= 2 * 6 + 3.
Proof.
  destruct (roll_contract "2d6+3" (Some "damage"%string) (new_session 1234)
              CPythonFacts.randint_range) as (_ & H & _).
  apply (H ["2"%char] ["6"%char] (Some ["+"%char; "3"%char]));
    [exact dice_pattern_2d6_plus_3|repeat split
    |apply Z.leb_le; reflexivity|apply Z.leb_le; reflexivity].
Defined.

Lemma int_of_zeros (k : nat) (acc : Z) :
  fold_left (fun a c => 10 * a + Text.digit_value c) (repeat "0"%char k) acc
  = acc * 10 ^ Z.of_nat k.
Proof.
  revert acc. induction k as [|k IH]; intros acc; [cbn; lia|].
  cbn [repeat fold_left]. rewrite IH, Nat2Z.inj_succ, Z.pow_succ_r by lia.
  change (Text.digit_value "0") with 0. lia.
Qed.

Lemma zeros_are_digits (k : nat) : forallb Text.is_digit (repeat "0"%char k) = true.
Proof. induction k as [|k IH]; [reflexivity|exact IH]. Qed.

Lemma long_numeral_is_bare_integer : Formula.bare_integer long_numeral (10 ^ 4300).
Proof.
  exists [], ("1"%char :: repeat "0"%char (43 * 100)), [].
  split; [unfold long_numeral; rewrite TextFacts.chars_text; cbn [app];
          now rewrite app_nil_r|].
  split; [reflexivity|].
  split; [split; [discriminate|exact (zeros_are_digits (43 * 100))]|].
  split; [reflexivity|].
  unfold Text.int_of_digits. cbn [fold_left]. rewrite int_of_zeros.
  change (10 * 0 + Text.digit_value "1") with 1.
  replace (Z.of_nat (43 * 100)) with 4300 by (rewrite Nat2Z.inj_mul; reflexivity).
  symmetry. apply Z.mul_1_l.
Qed.

Lemma long_numeral_rejection :
  Pattern.match_integer long_numeral = true /\
  Text.py_int (Text.chars long_numeral) = None /\
  rejection long_numeral =
    ValueError "Exceeds the limit (4300 digits) for integer string conversion: value has 4301 digits; use sys.set_int_max_str_digits() to increase the limit".
Proof. repeat split; vm_compute; reflexivity. Qed.

(** Counterexample to C7 as stated.  The numeral of 4301 digits is a bare
    non-negative integer, and the digit 5 behind a unit separator matches
    the integer pattern, yet [roll] fails on both with the [ValueError] of
    [int], the ledger unchanged: [int] reads no more than 4300 digits, and
    it does not skip the separators FS..US that the pattern counts as
    blanks. *)
Theorem roll_rejects_integers_int_cannot_read :
  Formula.bare_integer long_numeral (10 ^ 4300)
  /\ roll long_numeral None (new_session 1) =
       (Raise (ValueError "Exceeds the limit (4300 digits) for integer string conversion: value has 4301 digits; use sys.set_int_max_str_digits() to increase the limit"),
        new_session 1)
  /\ Formula.integer_pattern (String "031" "5") ["031"%char] ["5"%char] []
  /\ roll (String "031" "5") None (new_session 1) =
       (Raise (ValueError "invalid literal for int() with base 10: '\x1f5'"),
        new_session 1).
Proof.
  split; [exact long_numeral_is_bare_integer|]. split.
  - destruct long_numeral_rejection as (Hm & Hi & Hr).
    now rewrite (roll_integer_pattern long_numeral None (new_session 1) Hm), Hi, Hr.
  - split; [repeat split; discriminate|].
    exact (proj2 (roll_unit_separator None (new_session 1))).
Qed.

(** ** Status ledger *)

Lemma sample_ledger_valid : valid_ledger sample_ledger.
Proof.
  split.
  - repeat constructor; cbn; intuition discriminate.
  - repeat constructor; cbn; auto 20; lia.
Defined.

Lemma tick_statuses_postcondition_witness :
  exists L' expired,
    tick_statuses sample_ledger "turn" = Ok (L', -4, expired)
    /\ Dict.get "Bleeding" L' = None /\ In "Bleeding"%string expired
    /\ Dict.get "Cold" L' = Some {| stacks := 1; level := 1; duration := Some 2 |}.
Proof.
  destruct (tick_statuses_postcondition sample_ledger sample_ledger_valid)
    as [(L' & expired & Hrun & Hent) _].
  exists L', expired. split; [exact Hrun|].
  pose proof (Hent "Bleeding"%string _ eq_refl) as Hb.
  pose proof (Hent "Cold"%string _ eq_refl) as Hc.
  cbn in Hb, Hc. destruct Hb as [Hb1 Hb2]. auto.
Defined.

Lemma apply_status_algebra_witness :
  and_then (apply_status sample_ledger "bleeding" 1 1 None)
           (fun L1 => apply_status L1 "bleeding" 1 1 None)
  = apply_status sample_ledger "bleeding" 2 1 None.
Proof.
  exact (proj1 (apply_status_algebra sample_ledger "bleeding" 1 None sample_ledger_valid)).
Defined.

(** ** Combat *)

Lemma bare_integer_5 : Formula.bare_integer "5" 5.
Proof. exists [], ["5"%char], []. repeat split; discriminate. Qed.

Lemma flat_weapon_attack_returns :
  flat_weapon_attack =
    (Ok (flat_weapon_result, fighter 10 0 10 (armed "5"), fighter 5 0 10 None),
     snd flat_weapon_attack).
Proof. apply injective_projections; [vm_compute; reflexivity|reflexivity]. Qed.

Lemma integer_formula_damage_witness :
  hit flat_weapon_result = true /\ crit flat_weapon_result = true
  /\ damage flat_weapon_result = 0 + 0.
Proof.
  split; [reflexivity|]. split; [reflexivity|].
  exact (proj1 (integer_formula_damage_is_bonus_only
                  (fighter 10 0 10 (armed "5")) (fighter 5 0 10 None)
                  false None None 0 0 (Some 20) None (new_session 1)
                  flat_weapon_result _ _ _ _ 5
                  flat_weapon_attack_returns eq_refl bare_integer_5 eq_refl)).
Defined.

(** ** Turn pipeline *)

Lemma clarification_has_empty_state_diff_witness :
  execute_turn_for_state (test_session 7 0) test_character "attack"
    FailingLlmClient None None = Ok envelope_failure_result
  /\ TurnResult.needs_clarification envelope_failure_result = true
  /\ TurnResult.state_diff envelope_failure_result = [].
Proof.
  assert (Hrun : execute_turn_for_state (test_session 7 0) test_character "attack"
                   FailingLlmClient None None = Ok envelope_failure_result)
    by (vm_compute; reflexivity).
  split; [exact Hrun|]. split; [reflexivity|].
  exact (clarification_has_empty_state_diff (test_session 7 0) test_character
           "attack" FailingLlmClient None None envelope_failure_result Hrun eq_refl).
Defined.

(** ** Further properties: concrete inputs *)

Lemma normalize_status_canonical_form_witness :
  canonical "Bleeding" /\
  normalize_status "Bleeding" = Ok "Bleeding"%string /\
  normalize_status (Text.lower " BLEEDING ") = Ok "Bleeding"%string /\
  normalize_status (Text.strip " BLEEDING ") = Ok "Bleeding"%string.
Proof. exact (normalize_status_canonical_form " BLEEDING " "Bleeding" eq_refl). Defined.

Lemma ramp_status_escalates_witness :
  valid_ledger ramped_ledger /\
  (exists e', Dict.get "Bleeding" ramped_ledger = Some e' /\
     2 <= stacks e' /\ 2 <= level e' /\
     (forall d, Some 1 = Some d -> exists d', duration e' = Some d' /\ d <= d')) /\
  (forall n, n <> "Bleeding"%string -> Dict.get n ramped_ledger = Dict.get n sample_ledger).
Proof.
  apply (ramp_status_escalates sample_ledger "bleeding" "move" 1 ramped_ledger "Bleeding"
           {| stacks := 2; level := 2; duration := Some 1 |});
    [exact sample_ledger_valid|lia|reflexivity|reflexivity|reflexivity].
Defined.

Lemma ramp_status_unknown_trigger_witness :
  ramp_status sample_ledger "Stun" "dance" 1 =
    Ok (sample_ledger ++ [("Stun"%string, {| stacks := 1; level := 1; duration := None |})]).
Proof.
  exact (ramp_status_unknown_trigger sample_ledger "Stun" "dance" 1 "Stun" eq_refl eq_refl).
Defined.

Lemma status_expires_on_schedule_witness :
  (exists L', tick_turns 2 sample_ledger = Ok L' /\
     Dict.get "Cold" L' = Some {| stacks := 1; level := 1; duration := Some (3 - 2) |}) /\
  (exists L', tick_turns 3 sample_ledger = Ok L' /\ Dict.get "Cold" L' = None).
Proof.
  destruct (status_expires_on_schedule sample_ledger "Cold"
              {| stacks := 1; level := 1; duration := Some 3 |} 3 2
              sample_ledger_valid eq_refl eq_refl) as [H1 H2]; [lia|].
  split; [apply H1; lia|exact H2].
Defined.

Lemma sick_ledger_valid : valid_ledger sick_ledger.
Proof.
  split.
  - repeat constructor; cbn; intuition discriminate.
  - repeat constructor; cbn; auto 20; lia.
Defined.

Lemma tick_statuses_off_turn_witness :
  exists L',
    tick_statuses sick_ledger "day" = Ok (L', - (2 + 1), []) /\
    Dict.get "Disease" L' = Some {| stacks := 1; level := 2 + 1; duration := None |} /\
    Dict.get "Cold" L' = Some {| stacks := 1; level := 1; duration := Some 3 |}.
Proof.
  destruct (tick_statuses_off_turn sick_ledger "day" sick_ledger_valid)
    as (L' & Hrun & Hent & _); [discriminate|].
  exists L'. split; [exact Hrun|]. split.
  - exact (Hent "Disease"%string _ eq_refl).
  - exact (Hent "Cold"%string _ eq_refl).
Defined.

Lemma total_dex_penalty_is_cold_level_witness :
  total_dex_penalty sample_ledger = Ok 1.
Proof. exact (proj1 (total_dex_penalty_is_cold_level sample_ledger sample_ledger_valid)). Defined.

Lemma status_ledger_invariants_kept_witness :
  (forall name st lvl dur L',
     1 <= lvl -> apply_status sample_ledger name st lvl dur = Ok L' -> valid_ledger L') /\
  (forall tick_type, exists L' hp_delta expired,
     tick_statuses sample_ledger tick_type = Ok (L', hp_delta, expired) /\ valid_ledger L').
Proof. exact (status_ledger_invariants_kept sample_ledger sample_ledger_valid). Defined.

Lemma apply_damage_accounting_witness :
  let '(ap', hp') := _apply_damage 3 10 5 in
  0 <= ap' <= 3 /\ 0 <= hp' <= 10 /\
  (3 - ap') + (10 - hp') = Z.min 5 (3 + 10) /\
  (hp' < 10 -> ap' = 0).
Proof. apply (apply_damage_accounting 3 10 5); lia. Defined.

Lemma block_never_hurts_witness :
  let '(ap1, hp1) := _apply_damage_with_block 1 10 5 2 in
  let '(ap0, hp0) := _apply_damage 1 10 5 in
  ap0 <= ap1 <= 1 /\ hp0 <= hp1 /\
  (5 <= 2 -> ap1 = 1 /\ hp1 = Z.max 0 10).
Proof. apply (block_never_hurts 1 10 5 2); lia. Defined.

Lemma missed_attack_returns :
  missed_attack =
    (Ok (missed_attack_result, fighter 10 0 10 (armed "1d6"), fighter 50 0 10 None),
     snd missed_attack).
Proof. apply injective_projections; [vm_compute; reflexivity|reflexivity]. Qed.

#[local] Abbreviation blocked_attack :=
  (resolve_attack (fighter 10 0 10 (armed "1d4")) (fighter 5 1 10 None)
     true (Some "slow"%string) (Some "block"%string) 0 2 (Some 15) None (new_session 1))
  (only parsing).

#[local] Abbreviation countered_attack :=
  (resolve_attack (fighter 0 0 5 (armed "1d1")) (fighter 50 0 10 (armed "1d1"))
     false None (Some "counter"%string) 0 0 (Some 1) None (new_session 3))
  (only parsing).

#[local] Abbreviation damage_roll :=
  (roll "2d6+3" (Some "damage"%string) (new_session 1234)) (only parsing).

Lemma blocked_attack_outcome :
  fst blocked_attack =
    Ok (blocked_attack_result, fighter 10 0 10 (armed "1d4"), slowed_defender).
Proof. vm_compute. reflexivity. Qed.

Lemma blocked_attack_returns :
  blocked_attack =
    (Ok (blocked_attack_result, fighter 10 0 10 (armed "1d4"), slowed_defender),
     snd blocked_attack).
Proof. rewrite <- blocked_attack_outcome. apply surjective_pairing. Qed.

Lemma countered_attack_outcome :
  fst countered_attack =
    Ok (countered_attack_result, fighter 0 0 4 (armed "1d1"),
        fighter 50 0 10 (armed "1d1")).
Proof. vm_compute. reflexivity. Qed.

Lemma countered_attack_returns :
  countered_attack =
    (Ok (countered_attack_result, fighter 0 0 4 (armed "1d1"),
         fighter 50 0 10 (armed "1d1")),
     snd countered_attack).
Proof. rewrite <- countered_attack_outcome. apply surjective_pairing. Qed.

Lemma miss_changes_nothing_witness :
  hit missed_attack_result = false /\ damage missed_attack_result = 0 /\
  called_shot_effect missed_attack_result = None /\
  hp_after missed_attack_result = 10.
Proof.
  destruct (miss_changes_nothing
              (fighter 10 0 10 (armed "1d6")) (fighter 50 0 10 None)
              false None None 0 0 (Some 2) None (new_session 1)
              missed_attack_result _ _ _ missed_attack_returns eq_refl)
    as (_ & Hd & Hc & _ & Hh & _).
  split; [reflexivity|]. split; [exact Hd|]. split; [exact Hc|exact Hh].
Defined.

Lemma counter_reaction_witness :
  counter countered_attack_result <> None <->
  reaction_is (Some "counter"%string) "counter" = true /\
  hit countered_attack_result = false.
Proof.
  exact (proj1 (counter_reaction
                  (fighter 0 0 5 (armed "1d1")) (fighter 50 0 10 (armed "1d1"))
                  false None (Some "counter"%string) 0 0 (Some 1) None (new_session 3)
                  countered_attack_result _ _ _ countered_attack_returns)).
Defined.

Lemma attack_changes_ap_hp_statuses_witness :
  called_shot_effect blocked_attack_result = Some "slow"%string /\
  apply_status [] "Cold" 1 1 (Some 1) = Ok (statuses slowed_defender).
Proof.
  pose proof (attack_changes_ap_hp_statuses
                (fighter 10 0 10 (armed "1d4")) (fighter 5 1 10 None)
                true (Some "slow"%string) (Some "block"%string) 0 2 (Some 15) None
                (new_session 1)
                blocked_attack_result _ _ _ blocked_attack_returns) as H.
  cbv zeta in H. destruct H as (_ & He & Hs).
  split; [exact He|exact Hs].
Defined.

Lemma dice_formula_1d4 : Formula.dice_formula "1d4" 1 4 0.
Proof.
  exists ["1"%char], ["4"%char], None. split.
  - exists [], "d"%char, []. repeat split; discriminate.
  - repeat split.
Qed.

Lemma resolve_attack_dice_postcondition_witness :
  attack_total blocked_attack_result = 15 + 0 + 0 + 0 - CALLED_SHOT_PENALTY /\
  (hit blocked_attack_result = true <-> 5 + 0 <= attack_total blocked_attack_result) /\
  0 <= ap_after blocked_attack_result /\ 0 <= hp_after blocked_attack_result.
Proof.
  pose proof (resolve_attack_dice_postcondition
                (fighter 10 0 10 (armed "1d4")) (fighter 5 1 10 None)
                true (Some "slow"%string) (Some "block"%string) 0 2 (Some 15) None
                (new_session 1)
                blocked_attack_result _ _ _ blocked_attack_returns) as H.
  cbv zeta in H.
  destruct H as (Ht & Hh & _ & _ & _ & _ & Ha & Hp & _).
  - cbn. lia.
  - cbn. lia.
  - intros w Hw. injection Hw as <-. exists 1, 4, 0.
    split; [exact dice_formula_1d4|lia].
  - split; [exact Ht|]. split; [exact Hh|]. split; [exact Ha|exact Hp].
Defined.

Lemma block_reaction_semantics_witness :
  ap_before blocked_attack_result = 1 + 2 /\
  ap slowed_defender = ap_after blocked_attack_result /\
  (hit blocked_attack_result = true -> 2 <> 0 ->
   ap_after blocked_attack_result
   = Z.min (Z.max 0 (1 + 2 - damage blocked_attack_result)) 1).
Proof.
  destruct (block_reaction_semantics
              (fighter 10 0 10 (armed "1d4")) (fighter 5 1 10 None)
              true (Some "slow"%string) 0 2 (Some 15) None (new_session 1)
              blocked_attack_result _ _ _ blocked_attack_returns)
    as (Hb & Hd & _ & Ha & _).
  split; [exact Hb|]. split; [exact Hd|exact Ha].
Defined.

Lemma end_turn_never_heals_witness :
  exists updated hp_delta expired,
    end_turn wounded "turn" = Ok (updated, hp_delta, expired) /\
    tick_statuses (statuses wounded) "turn" = Ok (statuses updated, hp_delta, expired) /\
    valid_ledger (statuses updated) /\
    hp_delta <= 0 /\
    hp updated = Z.max 0 (hp wounded + hp_delta) /\
    0 <= hp updated <= hp wounded /\
    updated = with_ap_hp_statuses wounded (ap wounded) (hp updated) (statuses updated).
Proof.
  apply (end_turn_never_heals wounded "turn"); [exact sample_ledger_valid|cbn; lia].
Defined.

Lemma roll_initiative_contract_witness :
  exists r g,
    roll_initiative wounded 0 (new_session 1) =
      (Ok (r + initiative_base wounded + 0),
       logged (new_session 1)
         {| formula := "1d20"; result := r; rolls := [r]; modifier := 0;
            label := None |} g) /\
    1 <= r <= 20.
Proof.
  exact (proj1 (roll_initiative_contract wounded 0 (new_session 1)
                  CPythonFacts.randint_range) sample_ledger_valid).
Defined.

Lemma empty_ledger_valid : valid_ledger [].
Proof. split; constructor. Defined.

Lemma initiative_order_sorts_witness :
  exists order new g,
    initiative_order [wounded; fighter 10 0 10 None] (new_session 1) =
      (Ok order,
       {| seed := seed (new_session 1); turn_log := turn_log (new_session 1) ++ new;
          rng := g |}) /\
    Permutation (map fst order) [wounded; fighter 10 0 10 None] /\
    non_increasing (map snd order) /\
    length new = 2%nat.
Proof.
  destruct (initiative_order_sorts [wounded; fighter 10 0 10 None] (new_session 1)
              CPythonFacts.randint_range)
    as (order & new & g & Hrun & Hperm & Hsort & Hlen & _).
  - constructor; [exact sample_ledger_valid|].
    constructor; [exact empty_ledger_valid|constructor].
  - exists order, new, g. split; [exact Hrun|]. split; [exact Hperm|].
    split; [exact Hsort|exact Hlen].
Defined.

Lemma roll_d20_contract_witness :
  let r := fst (next_randint 1 20 (rng (new_session 1))) in
  roll_d20 (Some "initiative"%string) (new_session 1) =
    (Ok r, {| seed := seed (new_session 1);
              turn_log := turn_log (new_session 1) ++
                [{| formula := "1d20"; result := r; rolls := [r]; modifier := 0;
                    label := Some "initiative"%string |}];
              rng := snd (next_randint 1 20 (rng (new_session 1))) |}) /\
  1 <= r <= 20.
Proof.
  exact (roll_d20_contract (Some "initiative"%string) (new_session 1)
           CPythonFacts.randint_range).
Defined.

Lemma damage_roll_total : fst damage_roll = Ok 8.
Proof. vm_compute. reflexivity. Qed.

Lemma damage_roll_returns : damage_roll = (Ok 8, snd damage_roll).
Proof. rewrite <- damage_roll_total. apply surjective_pairing. Qed.

Lemma logged_formula_replays_witness :
  exists e,
    result e = 8 /\
    exists v2 e2 g2,
      roll (formula e) None (new_session 1) = (Ok v2, logged (new_session 1) e2 g2) /\
      formula e2 = formula e /\ modifier e2 = modifier e.
Proof.
  destruct (logged_formula_replays "2d6+3" (Some "damage"%string) (new_session 1234) 8 _
              damage_roll_returns) as (e & _ & Hres & Hre).
  exists e. split; [exact Hres|].
  destruct (Hre None (new_session 1)) as (v2 & e2 & g2 & Hrun & Hf & Hm & _).
  exists v2, e2, g2. split; [exact Hrun|]. split; [exact Hf|exact Hm].
Defined.

Lemma execute_mechanics_attack_witness :
  exists outcome_ sess',
    let a := fst (next_randint 1 20 (rng (new_session 2))) in
    1 <= a <= 20 /\
    _execute_mechanics (_intent_to_turn_intent (Intent.make Action.attack None None))
      (new_session 2) = (Ok outcome_, sess') /\
    Dict.get "attack_roll" outcome_ = Some (JNum a) /\
    Dict.get "hit" outcome_ = Some (JBool (12 <=? a + 0 + 0)).
Proof.
  destruct (execute_mechanics_attack
              (_intent_to_turn_intent (Intent.make Action.attack None None))
              (new_session 2) 1 6 0 CPythonFacts.randint_range eq_refl dice_formula_1d6)
    as (dmg & new & g & Hrun & Ha & _); [lia|lia|].
  cbv zeta in Hrun, Ha. do 2 eexists. cbv zeta. split; [exact Ha|].
  split; [exact Hrun|]. split; reflexivity.
Defined.

Lemma missed_turn_returns :
  _execute_intent_pipeline (test_session 2 0) test_character
    (Intent.make Action.attack None None) [] "attack" = Ok missed_turn_result.
Proof. vm_compute. reflexivity. Qed.

Lemma turn_roll_index_accounting_witness :
  Dict.get "session" (TurnResult.state_diff missed_turn_result) =
    Some (JDict [("roll_index"%string,
                  JNum (0 + _count_rolls (TurnResult.rolls missed_turn_result)))]).
Proof.
  exact (proj1 (turn_roll_index_accounting (test_session 2 0) test_character
                  (Intent.make Action.attack None None) [] "attack" missed_turn_result
                  missed_turn_returns eq_refl)).
Defined.

Lemma executed_turn_was_validated_witness :
  In "attack"%string available_actions /\
  TurnResult.validation_errors missed_turn_result = [].
Proof.
  pose proof (executed_turn_was_validated (test_session 2 0) test_character
                (Intent.make Action.attack None None) [] "attack" missed_turn_result
                missed_turn_returns eq_refl) as H.
  cbv zeta in H. destruct H as (Hin & _ & _ & _ & _ & Herr & _).
  split; [exact Hin|exact Herr].
Defined.

Lemma consume_rolls_composes_witness :
  (run _consume_rolls 1; _consume_rolls 2) (new_session 1)
  = _consume_rolls (1 + 2) (new_session 1).
Proof.
  destruct (consume_rolls_composes 1 2 (new_session 1)) as (H & _); [lia|lia|].
  exact H.
Defined.

Lemma spaceship_refused_outside_space_witness :
  exists r,
    _execute_intent_pipeline medieval_session test_character
      (Intent.make Action.explore None None) [] "I board my Starship" = Ok r /\
    TurnResult.needs_clarification r = true /\
    TurnResult.rolls r = [] /\ TurnResult.state_diff r = [].
Proof.
  pose proof (spaceship_refused_outside_space medieval_session test_character
                (Intent.make Action.explore None None) [] "I board my Starship"
                "starship") as H.
  cbv zeta in H.
  destruct H as (r & Hrun & Hn & Hr & Hd & _).
  - cbn. tauto.
  - reflexivity.
  - vm_compute. discriminate.
  - exists r. split; [exact Hrun|]. split; [exact Hn|]. split; [exact Hr|exact Hd].
Defined.

(** ** The repository's tests *)

(** [test_protocol_router.py] *)
Example test_ooc_mode_freezes_and_no_execute :
  let decision :=
    route_envelope
      {| TurnEnvelope.mode := ooc; TurnEnvelope.protocol_id := "PROTO_ROUTINE";
         TurnEnvelope.confidence := high;
         TurnEnvelope.ooc_questions := ["Confirm intent?"%string];
         TurnEnvelope.gm_plan := None |} (Some []) in
  freeze_time decision = true /\ execute decision = false.
Proof. split; reflexivity. Qed.

Example test_invalid_protocol_id_dev_mode :
  let decision :=
    route_envelope
      {| TurnEnvelope.mode := gm; TurnEnvelope.protocol_id := "PROTO_UNKNOWN";
         TurnEnvelope.confidence := medium; TurnEnvelope.ooc_questions := [];
         TurnEnvelope.gm_plan := None |}
      (Some [("settings", JDict [("dev_mode", JBool true)])]%string) in
  execute decision = false /\ dev_report decision <> None.
Proof. split; [reflexivity|discriminate]. Qed.

Example test_invalid_protocol_id_non_dev_routes_to_clarification :
  let decision :=
    route_envelope
      {| TurnEnvelope.mode := gm; TurnEnvelope.protocol_id := "PROTO_UNKNOWN";
         TurnEnvelope.confidence := medium; TurnEnvelope.ooc_questions := [];
         TurnEnvelope.gm_plan := None |}
      (Some [("settings", JDict [("dev_mode", JBool false)])]%string) in
  execute decision = false /\ protocol_id decision = PROTO_CLARIFICATION.
Proof. split; reflexivity. Qed.

Example test_low_confidence_non_safe_routes_to_clarification :
  let decision :=
    route_envelope
      {| TurnEnvelope.mode := gm; TurnEnvelope.protocol_id := "PROTO_INVENTION";
         TurnEnvelope.confidence := low; TurnEnvelope.ooc_questions := [];
         TurnEnvelope.gm_plan := None |} (Some []) in
  execute decision = false /\ protocol_id decision = PROTO_CLARIFICATION.
Proof. split; reflexivity. Qed.

Example test_safe_protocol_executes :
  let decision :=
    route_envelope
      {| TurnEnvelope.mode := gm; TurnEnvelope.protocol_id := "PROTO_EXPLORATION";
         TurnEnvelope.confidence := low; TurnEnvelope.ooc_questions := [];
         TurnEnvelope.gm_plan := None |} (Some []) in
  execute decision = true /\ freeze_time decision = false.
Proof. split; reflexivity. Qed.

(** [test_statuses.py] *)
Example test_ignited_tick_damage_scales_with_level :
  and_then (apply_status [] "Ignited" 1 2 (Some 2))
           (fun statuses_ => tick_statuses statuses_ "turn")
  = Ok ([("Ignited"%string, {| stacks := 1; level := 2; duration := Some 1 |})], -4, []).
Proof. reflexivity. Qed.

Example test_cold_reduces_dex :
  and_then (apply_status [] "Cold" 1 3 (Some 2)) total_dex_penalty = Ok 3.
Proof. reflexivity. Qed.

Example test_disease_escalates_over_days :
  and_then (apply_status [] "Disease" 1 1 None)
           (fun statuses_ => tick_statuses statuses_ "day")
  = Ok ([("Disease"%string, {| stacks := 1; level := 2; duration := None |})], -2, []).
Proof. reflexivity. Qed.

Example test_asphyxiation_tick_damage :
  and_then (apply_status [] "Asphyxiation" 1 2 (Some 2))
           (fun statuses_ => tick_statuses statuses_ "turn")
  = Ok ([("Asphyxiation"%string, {| stacks := 1; level := 2; duration := Some 1 |})],
        -4, []).
Proof. reflexivity. Qed.

(** [test_roll_logging] *)
Example test_roll_logging :
  let '(d20_result, session) := roll_d20 (Some "initiative"%string) (new_session 42) in
  let '(dice_result, session) := roll "2d4+1" (Some "damage"%string) session in
  match turn_log session with
  | [first; second] =>
      formula first = "1d20"%string /\ Ok (result first) = d20_result
      /\ label first = Some "initiative"%string
      /\ formula second = "2d4+1"%string /\ Ok (result second) = dice_result
      /\ label second = Some "damage"%string
  | _ => False
  end.
Proof. vm_compute. repeat split. Qed.

(** [test_ap_absorption_and_block] *)
Example test_ap_absorption_and_block :
  match fst (resolve_attack
               {| name := "Attacker"; dex := 0; armor_rating := 10; ap := 0; hp := 10;
                  statuses := []; skill := 0; attr := 0; attack_bonus := 0;
                  damage_bonus := 2; weapon := armed "1d1"; initiative_bonus := 0 |}
               (fighter 5 1 10 None)
               false None (Some "block"%string) 0 2 (Some 10) None (new_session 1)) with
  | Ok (r, _, updated) => hit r = true /\ ap_before r = 3 /\ ap updated = 0 /\ hp updated = 10
  | Raise _ => False
  end.
Proof. vm_compute. repeat split. Qed.

(** [test_crit_doubles_dice_total] *)
Example test_crit_doubles_dice_total :
  match fst (resolve_attack (fighter 10 0 10 (armed "1d1")) (fighter 5 0 10 None)
               false None None 0 0 (Some 20) None (new_session 2)) with
  | Ok (r, _, updated) => crit r = true /\ damage r = 2 /\ hp updated = 8
  | Raise _ => False
  end.
Proof. vm_compute. repeat split. Qed.

(** [test_counter_reaction_triggers_basic_strike] *)
Example test_counter_reaction_triggers_basic_strike :
  match fst (resolve_attack (fighter 0 0 5 (armed "1d1")) (fighter 50 0 10 (armed "1d1"))
               false None (Some "counter"%string) 0 0 (Some 1) None (new_session 3)) with
  | Ok (r, updated_attacker, _) =>
      hit r = false /\ (CounterResult.triggered <$> counter r) = Some true
      /\ hp updated_attacker = 4
  | Raise _ => False
  end.
Proof. vm_compute. repeat split. Qed.

(** The turn of [test_golden_turn_sequence_with_seed] (seed 2, roll index 0,
    an attack).  The test expects the attack roll 20 and the damage 6, which
    are 1 + int(random() * 20) and 1 + int(random() * 6) for that seed; with
    [randint] the attack roll is 2 and the attack misses. *)
Example golden_turn_sequence_with_seed :
  match execute_turn_for_state (test_session 2 0) test_character "attack"
          StubLlmClient (Some (Intent.make Action.attack None None)) None with
  | Ok r =>
      Dict.get "attack_roll" (TurnResult.outcome r) = Some (JNum 2)
      /\ Dict.get "hit" (TurnResult.outcome r) = Some (JBool false)
      /\ Dict.get "session" (TurnResult.state_diff r)
         = Some (JDict [("roll_index"%string, JNum 1)])
      /\ fst (CPython.random (CPython.seed 2)) * 20 / 2 ^ 53 + 1 = 20
  | Raise _ => False
  end.
Proof. vm_compute. repeat split. Qed.
